(** * O9Automation: the front end's components, the mock target site and
      the execution protocol, embedded in Rocq.

    The repository is a React front end (the test-case pages, the
    per-step executor that talks to the back end over a WebSocket, the
    script modal, the form that generates a test case, the API service)
    together with a static mock of the target web application.  This
    development embeds the JavaScript functions of these sources and
    proves the statements of the specification about them, and further
    properties of the code itself.

    Part I holds the embedding, a module per component; Part II the
    predicates the statements are written with and the sample data of
    the examples; Part III the lemmas and the theorems.

    Conventions of the embedding:
    - a JavaScript string is the list of its UTF-16 code units ([jstr]);
    - a value produced by [JSON.parse] is a [json] tree; a property read
      that yields [undefined] is [None];
    - a Number is an IEEE 754 binary64 value: an integer of magnitude up
      to 2^53 - 1 is held as a [Z] ([JNum]), every other value by its
      sign and its magnitude in units of 2^-1074 ([JDbl]); the conversion
      of a literal rounds to nearest, ties to even, and Number::toString
      writes the shortest decimal that denotes the value;
    - React state is a record, [setX] calls are record updates, and calls
      to callbacks, to the network and to the browser ([alert],
      [websocket.close], [fetch], [setTimeout]) are logged in the state so
      that they can be observed; an asynchronous handler is a function
      for each stretch between two [await]s, the outcome of the awaited
      call being an argument of the next;
    - the back end is not among the sources: module [Orchestrator] is
      written from the specification and every definition in it says so. *)

From Stdlib Require Import ZArith NArith Ascii DecimalN DecimalFacts.
From stdpp Require Import gmap list strings sorting.

Open Scope N_scope.

(* ===================================================================== *)
(** * Part I: definitions                                                 *)
(* ===================================================================== *)

(** ** JavaScript strings and values *)

Module JS.

(** UTF-16 code units. *)
Definition jstr := list N.

(** An ASCII literal of the source as code units. *)
Definition js (s : string) : jstr :=
  map N_of_ascii (String.list_ascii_of_string s).

(** A literal that contains double quotes, written with apostrophes in
    their place. *)
Definition jsq (s : string) : jstr :=
  map (fun c => if c =? 39 then 34 else c) (js s).

Definition jstr_eqb (a b : jstr) : bool := bool_decide (a = b).

(** [String.prototype.startsWith] at position 0. *)
Fixpoint starts_with (p s : jstr) : bool :=
  match p, s with
  | [], _ => true
  | _ :: _, [] => false
  | a :: p', b :: s' => (a =? b) && starts_with p' s'
  end.

(** [s.includes(p)]: some suffix of [s] starts with [p]. *)
Fixpoint includes (s p : jstr) : bool :=
  starts_with p s ||
  match s with
  | [] => false
  | _ :: s' => includes s' p
  end.

(** [s.replace(pat, rep)] with a string pattern: the first occurrence
    only; [s] itself when there is none. *)
Fixpoint replace_first (pat rep s : jstr) : jstr :=
  if starts_with pat s then rep ++ drop (length pat) s
  else match s with
       | [] => []
       | c :: s' => c :: replace_first pat rep s'
       end.

(** Decimal digits of a natural number, most significant first. *)
Fixpoint uint_chars (d : Decimal.uint) : jstr :=
  match d with
  | Decimal.Nil => []
  | Decimal.D0 d => 48 :: uint_chars d
  | Decimal.D1 d => 49 :: uint_chars d
  | Decimal.D2 d => 50 :: uint_chars d
  | Decimal.D3 d => 51 :: uint_chars d
  | Decimal.D4 d => 52 :: uint_chars d
  | Decimal.D5 d => 53 :: uint_chars d
  | Decimal.D6 d => 54 :: uint_chars d
  | Decimal.D7 d => 55 :: uint_chars d
  | Decimal.D8 d => 56 :: uint_chars d
  | Decimal.D9 d => 57 :: uint_chars d
  end.

Definition N_to_jstr (n : N) : jstr := uint_chars (N.to_uint n).

(** [Number.prototype.toString] on an integer below 10^21. *)
Definition Z_to_jstr (z : Z) : jstr :=
  match z with
  | Z0 => [48]
  | Zpos p => N_to_jstr (Npos p)
  | Zneg p => 45 :: N_to_jstr (Npos p)
  end.

(** *** Numbers

    The Number type is IEEE 754 binary64.  Every finite value of the
    format is a whole number of units of 2^-1074, its least positive
    value; a magnitude is held as this number of units.  The units of a
    value are below 2^2098 (the value is below 2^1024) and have at most
    53 significant bits. *)

(** The exponent of the distance between neighbouring values at [u]
    units: values of more than 53 bits are multiples of a power of two. *)
Definition spacing (u : Z) : Z := Z.max 0 (Z.log2 u - 52)%Z.

(** The least number of units that is no finite value any more. *)
Definition overflow_units : Z := (2 ^ 2098)%Z.

(** roundTiesToEven of the rational [num / den] (not negative, in
    units): the multiple of the spacing that is nearest, and of two that
    are equally near the one with the even significand.  A result of
    [overflow_units] or more stands for an infinity. *)
Definition round_units (num den : Z) : Z :=
  (let j := spacing (num / den) in
   let d := den * 2 ^ j in
   let q := num / d in
   let r := num mod d in
   (if (d <? 2 * r) || ((d =? 2 * r) && Z.odd q) then q + 1 else q) * 2 ^ j)%Z.

(** The units of the Number value for the decimal [s * 10 ^ t]
    (StringNumericValue followed by the rounding). *)
Definition decimal_units (s t : Z) : Z :=
  round_units (s * 10 ^ Z.max 0 t * 2 ^ 1074)%Z (10 ^ Z.max 0 (- t))%Z.

(** The integer a number of units stands for, when it is one of
    magnitude up to [Number.MAX_SAFE_INTEGER]. *)
Definition safe_integer (u : Z) : option Z :=
  (if (u mod 2 ^ 1074 =? 0) && (u / 2 ^ 1074 <=? 9007199254740991)
   then Some (u / 2 ^ 1074) else None)%Z.

(** A Number that is not an integer of the safe range: a finite value
    by its sign and its units, the negative zero, or an infinity.  (No
    operation of the sources yields a NaN.) *)
Inductive double : Type :=
| Finite (negative : bool) (units : positive)
| NegZero
| Infinite (negative : bool).

(** *** Number::toString *)

(** [n] with [10 ^ (n - 1) <= x < 10 ^ n] for the value [x] of [u]
    units, [u] positive: the least value times [10 ^ 324] is above 1. *)
Definition decimal_exponent (u : Z) : Z :=
  (Z.of_nat (length (N_to_jstr (Z.to_N (u * 10 ^ 324 / 2 ^ 1074)))) - 324)%Z.

(** The decimal of [k] digits that denotes the value of [u] units, when
    there is one: of the two decimals [s * 10 ^ (n - k)] next to the
    value, the nearer one that rounds to it.  (ECMA-262 leaves the last
    digit open when several decimals of [k] digits denote the value; the
    engines write the nearest.) *)
Definition candidate (u k : Z) : option (Z * Z) :=
  (let t := decimal_exponent u - k in
   let num := u * 10 ^ Z.max 0 (- t) in
   let den := 2 ^ 1074 * 10 ^ Z.max 0 t in
   let lo := num / den in
   let r := num mod den in
   let denotes s := decimal_units s t =? u in
   if (den <? 2 * r) || ((den =? 2 * r) && Z.odd lo) then
     if denotes (lo + 1) then Some (lo + 1, t)
     else if denotes lo then Some (lo, t) else None
   else
     if denotes lo then Some (lo, t)
     else if denotes (lo + 1) then Some (lo + 1, t) else None)%Z.

(** The value itself as a decimal. *)
Definition exact_decimal (u : Z) : Z * Z := (u * 5 ^ 1074, -1074)%Z.

(** The decimal with the fewest digits that denotes the value: the
    numbers of digits are tried from [k] on, [fuel] of them, and the
    value's own decimal expansion ends the search.  Seventeen digits are
    enough for every value of the format. *)
Fixpoint shortest_from (fuel : nat) (k u : Z) : Z * Z :=
  match fuel with
  | O => exact_decimal u
  | S fuel' =>
      match candidate u k with
      | Some c => c
      | None => shortest_from fuel' (k + 1)%Z u
      end
  end.

Definition shortest (u : Z) : Z * Z := shortest_from 17 1 u.

(** The digits without the zeros at their end. *)
Fixpoint strip_zeros (ds : jstr) : jstr :=
  match ds with
  | [] => []
  | c :: ds' =>
      match strip_zeros ds' with
      | [] => if c =? 48 then [] else [c]
      | r => c :: r
      end
  end.

(** [e], the sign and the digits of an exponent. *)
Definition exponent_text (e : Z) : jstr :=
  101 :: (if (e <? 0)%Z then 45 else 43) :: N_to_jstr (Z.abs_N e).

(** Steps 6 to 10 of Number::toString: the digits [ds] of [s], [k] of
    them, for the value [s * 10 ^ (n - k)]. *)
Definition format_digits (ds : jstr) (n : Z) : jstr :=
  let k := Z.of_nat (length ds) in
  if ((k <=? n) && (n <=? 21))%Z then ds ++ replicate (Z.to_nat (n - k)) 48
  else if ((0 <? n) && (n <=? 21))%Z
  then take (Z.to_nat n) ds ++ [46] ++ drop (Z.to_nat n) ds
  else if ((-6 <? n) && (n <=? 0))%Z
  then [48; 46] ++ replicate (Z.to_nat (- n)) 48 ++ ds
  else if (k =? 1)%Z then ds ++ exponent_text (n - 1)%Z
  else take 1 ds ++ [46] ++ drop 1 ds ++ exponent_text (n - 1)%Z.

(** The text of a positive finite value. *)
Definition units_to_string (u : Z) : jstr :=
  let '(s, t) := shortest u in
  let ds := N_to_jstr (Z.to_N s) in
  format_digits (strip_zeros ds) (Z.of_nat (length ds) + t)%Z.

(** [Number::toString(x)] in radix 10. *)
Definition double_to_string (x : double) : jstr :=
  match x with
  | NegZero => [48]
  | Infinite false => js "Infinity"
  | Infinite true => js "-Infinity"
  | Finite false u => units_to_string (Zpos u)
  | Finite true u => 45 :: units_to_string (Zpos u)
  end.

(** [x < z] for an integer [z]. *)
Definition double_lt_integer (x : double) (z : Z) : bool :=
  match x with
  | Finite false u => (Zpos u <? z * 2 ^ 1074)%Z
  | Finite true u => (Zneg u <? z * 2 ^ 1074)%Z
  | NegZero => (0 <? z)%Z
  | Infinite negative => negative
  end.

(** Values of [JSON.parse].  A number is [JNum] when it is an integer of
    the safe range (zero among them) and [JDbl] otherwise.  The members
    of an object are listed in the order in which JavaScript enumerates
    its own properties. *)
#[local] Unset Elimination Schemes.
Inductive json : Type :=
| JNull
| JBool (b : bool)
| JNum (n : Z)
| JDbl (x : double)
| JStr (s : jstr)
| JArr (items : list json)
| JObj (members : list (jstr * json)).
#[local] Set Elimination Schemes.

(** A JavaScript value as far as the handlers see one: a JSON value or
    [undefined]. *)
Definition jsval := option json.

Definition undefined : jsval := None.

(** ToBoolean. *)
Definition truthy (v : jsval) : bool :=
  match v with
  | None => false
  | Some JNull => false
  | Some (JBool b) => b
  | Some (JNum n) => negb (n =? 0)%Z
  | Some (JDbl NegZero) => false
  | Some (JDbl _) => true
  | Some (JStr s) => negb (jstr_eqb s [])
  | Some (JArr _) => true
  | Some (JObj _) => true
  end.

(** Truthiness of a string-or-[null] value ([Storage.getItem], a string
    field of a record): [null] and the empty string are falsy. *)
Definition str_truthy (v : option jstr) : bool :=
  match v with
  | None => false
  | Some s => negb (jstr_eqb s [])
  end.

(** [a || b]. *)
Definition js_or (a b : jsval) : jsval := if truthy a then a else b.

(** Own-property lookup in a member list. *)
Fixpoint assoc (k : jstr) (ms : list (jstr * json)) : option json :=
  match ms with
  | [] => None
  | (k', v) :: ms' => if jstr_eqb k k' then Some v else assoc k ms'
  end.

(** [data.k] on a value other than [null], for one of the field names
    the handlers read ([type], [status], [message], [action], [image],
    [error]); none of them is a property of [Object.prototype],
    [Array.prototype] or of a wrapper prototype, so the read is
    [undefined] unless [data] is an object with that own property. *)
Definition prop (data : json) (k : jstr) : jsval :=
  match data with
  | JObj ms => assoc k ms
  | _ => undefined
  end.

(** [v === 'lit'] against a string literal. *)
Definition is_string (v : jsval) (s : jstr) : bool :=
  match v with
  | Some (JStr s') => jstr_eqb s' s
  | _ => false
  end.

Definition join_with (sep : jstr) (parts : list jstr) : jstr :=
  match parts with
  | [] => []
  | p :: ps => p ++ concat (map (fun q => sep ++ q) ps)
  end.

(** ToString of a JSON value, as a template literal applies it. An array
    prints its elements joined by commas, [null] elements as empty. *)
Fixpoint json_to_string (v : json) : jstr :=
  match v with
  | JNull => js "null"
  | JBool true => js "true"
  | JBool false => js "false"
  | JNum n => Z_to_jstr n
  | JDbl x => double_to_string x
  | JStr s => s
  | JArr items =>
      join_with (js ",")
        (map (fun x => match x with
                       | JNull => []
                       | _ => json_to_string x
                       end) items)
  | JObj _ => js "[object Object]"
  end.

Definition to_string (v : jsval) : jstr :=
  match v with
  | None => js "undefined"
  | Some x => json_to_string x
  end.

End JS.

Export JS.

(** ** [JSON.stringify] and [JSON.parse] (ECMA-262, 25.5) *)

Module JSON.

(** *** Serialisation *)

Definition hex_digit (n : N) : N := if n <? 10 then 48 + n else 87 + n.

(** UnicodeEscape: a backslash, [u] and four lower-case hex digits. *)
Definition unicode_escape (c : N) : jstr :=
  [92; 117; hex_digit (c / 4096 mod 16); hex_digit (c / 256 mod 16);
   hex_digit (c / 16 mod 16); hex_digit (c mod 16)].

Definition is_high_surrogate (c : N) : bool := (55296 <=? c) && (c <=? 56319).
Definition is_low_surrogate (c : N) : bool := (56320 <=? c) && (c <=? 57343).

(** One code unit that is not a surrogate, as QuoteJSONString writes it. *)
Definition escape_unit (c : N) : jstr :=
  if c =? 8 then [92; 98]
  else if c =? 9 then [92; 116]
  else if c =? 10 then [92; 110]
  else if c =? 12 then [92; 102]
  else if c =? 13 then [92; 114]
  else if c =? 34 then [92; 34]
  else if c =? 92 then [92; 92]
  else if c <? 32 then unicode_escape c
  else [c].

(** QuoteJSONString walks the code points of the string: a surrogate
    pair is written as it is, a lone surrogate is escaped. *)
Fixpoint quote_body (s : jstr) : jstr :=
  match s with
  | [] => []
  | c :: s' =>
      if is_high_surrogate c then
        match s' with
        | d :: s'' =>
            if is_low_surrogate d then c :: d :: quote_body s''
            else unicode_escape c ++ quote_body s'
        | [] => unicode_escape c
        end
      else if is_low_surrogate c then unicode_escape c ++ quote_body s'
      else escape_unit c ++ quote_body s'
  end.

Definition quote (s : jstr) : jstr := 34 :: quote_body s ++ [34].

(** SerializeJSONProperty with a non-empty [gap]: [indent] is the
    indentation of the enclosing line.  A number that is not finite is
    written as [null]. *)
Fixpoint stringify_at (gap indent : jstr) (v : json) : jstr :=
  match v with
  | JNull => js "null"
  | JBool true => js "true"
  | JBool false => js "false"
  | JNum n => Z_to_jstr n
  | JDbl (Infinite _) => js "null"
  | JDbl x => double_to_string x
  | JStr s => quote s
  | JArr [] => js "[]"
  | JArr items =>
      let inner := indent ++ gap in
      [91; 10] ++ inner
      ++ join_with ([44; 10] ++ inner) (map (stringify_at gap inner) items)
      ++ [10] ++ indent ++ [93]
  | JObj [] => js "{}"
  | JObj members =>
      let inner := indent ++ gap in
      [123; 10] ++ inner
      ++ join_with ([44; 10] ++ inner)
           (map (fun kv => quote (fst kv) ++ [58; 32]
                           ++ stringify_at gap inner (snd kv)) members)
      ++ [10] ++ indent ++ [125]
  end.

(** The indentation unit for the space argument [2]. *)
Definition gap2 : jstr := [32; 32].

(** [JSON.stringify(value, null, 2)]. *)
Definition stringify2 (v : json) : jstr := stringify_at gap2 [] v.

(** *** Parsing *)

Definition is_ws (c : N) : bool :=
  (c =? 32) || (c =? 9) || (c =? 10) || (c =? 13).

Fixpoint skip_ws (s : jstr) : jstr :=
  match s with
  | c :: s' => if is_ws c then skip_ws s' else s
  | [] => []
  end.

Definition hex_value (c : N) : option N :=
  if (48 <=? c) && (c <=? 57) then Some (c - 48)
  else if (97 <=? c) && (c <=? 102) then Some (c - 87)
  else if (65 <=? c) && (c <=? 70) then Some (c - 55)
  else None.

Definition hex4 (a b c d : N) : option N :=
  match hex_value a, hex_value b, hex_value c, hex_value d with
  | Some x, Some y, Some z, Some w => Some (x * 4096 + y * 256 + z * 16 + w)
  | _, _, _, _ => None
  end.

(** The character a two-character escape stands for. *)
Definition simple_escape (e : N) : option N :=
  if e =? 34 then Some 34
  else if e =? 92 then Some 92
  else if e =? 47 then Some 47
  else if e =? 98 then Some 8
  else if e =? 102 then Some 12
  else if e =? 110 then Some 10
  else if e =? 114 then Some 13
  else if e =? 116 then Some 9
  else None.

(** The characters of a string literal after its opening quote, up to
    and including the closing quote. *)
Fixpoint parse_chars (s : jstr) : option (jstr * jstr) :=
  match s with
  | [] => None
  | c :: s' =>
      if c =? 34 then Some ([], s')
      else if c =? 92 then
        match s' with
        | [] => None
        | e :: s'' =>
            if e =? 117 then
              match s'' with
              | h1 :: h2 :: h3 :: h4 :: s3 =>
                  match hex4 h1 h2 h3 h4 with
                  | Some u =>
                      match parse_chars s3 with
                      | Some (r, rest) => Some (u :: r, rest)
                      | None => None
                      end
                  | None => None
                  end
              | _ => None
              end
            else
              match simple_escape e with
              | Some u =>
                  match parse_chars s'' with
                  | Some (r, rest) => Some (u :: r, rest)
                  | None => None
                  end
              | None => None
              end
        end
      else if c <? 32 then None
      else
        match parse_chars s' with
        | Some (r, rest) => Some (c :: r, rest)
        | None => None
        end
  end.

Definition digit_cons (c : N) : option (Decimal.uint -> Decimal.uint) :=
  if c =? 48 then Some Decimal.D0
  else if c =? 49 then Some Decimal.D1
  else if c =? 50 then Some Decimal.D2
  else if c =? 51 then Some Decimal.D3
  else if c =? 52 then Some Decimal.D4
  else if c =? 53 then Some Decimal.D5
  else if c =? 54 then Some Decimal.D6
  else if c =? 55 then Some Decimal.D7
  else if c =? 56 then Some Decimal.D8
  else if c =? 57 then Some Decimal.D9
  else None.

(** The longest prefix of decimal digits. *)
Fixpoint take_digits (s : jstr) : Decimal.uint * jstr :=
  match s with
  | [] => (Decimal.Nil, [])
  | c :: s' =>
      match digit_cons c with
      | Some D => let (d, rest) := take_digits s' in (D d, rest)
      | None => (Decimal.Nil, s)
      end
  end.

(** A digit sequence the JSON grammar accepts as an integer part: not
    empty, and no zero in front of another digit. *)
Definition int_part_ok (d : Decimal.uint) : bool :=
  match d with
  | Decimal.Nil => false
  | Decimal.D0 Decimal.Nil => true
  | Decimal.D0 _ => false
  | _ => true
  end.

Definition is_digit_char (c : N) : bool := (48 <=? c) && (c <=? 57).

(** The longest prefix of decimal digits and what follows it. *)
Fixpoint span_digits (s : jstr) : jstr * jstr :=
  match s with
  | [] => ([], [])
  | c :: s' =>
      if is_digit_char c
      then let (ds, rest) := span_digits s' in (c :: ds, rest)
      else ([], s)
  end.

(** The number a sequence of digits denotes. *)
Definition digits_value (ds : jstr) : Z :=
  fold_left (fun a c => (10 * a + Z.of_N (c - 48))%Z) ds 0%Z.

(** The digits of an integer part: not empty, and no zero in front of
    another digit. *)
Definition int_digits_ok (ds : jstr) : bool :=
  match ds with
  | [] => false
  | [_] => true
  | c :: _ => negb (c =? 48)
  end.

(** A leading minus sign and what follows it. *)
Definition minus_sign (s : jstr) : bool * jstr :=
  match s with
  | c :: s' => if c =? 45 then (true, s') else (false, s)
  | [] => (false, [])
  end.

(** The digits of a fraction, if there is one: a full stop and at least
    one digit.  [None] is a SyntaxError. *)
Definition fraction (s : jstr) : option (jstr * jstr) :=
  match s with
  | c :: s' =>
      if c =? 46 then
        match span_digits s' with
        | ([], _) => None
        | (ds, rest) => Some (ds, rest)
        end
      else Some ([], s)
  | [] => Some ([], [])
  end.

(** The sign of an exponent and what follows it. *)
Definition exponent_sign (s : jstr) : bool * jstr :=
  match s with
  | c :: s' =>
      if c =? 45 then (true, s')
      else if c =? 43 then (false, s')
      else (false, s)
  | [] => (false, [])
  end.

(** The exponent, if there is one: [e] or [E], an optional sign and at
    least one digit. *)
Definition exponent (s : jstr) : option (Z * jstr) :=
  match s with
  | c :: s' =>
      if (c =? 101) || (c =? 69) then
        let (neg, s1) := exponent_sign s' in
        match span_digits s1 with
        | ([], _) => None
        | (ds, rest) =>
            Some (if neg then (- digits_value ds)%Z else digits_value ds, rest)
        end
      else Some (0%Z, s)
  | [] => Some (0%Z, [])
  end.

(** A number literal without its sign, as a decimal [m * 10 ^ t]: an
    integer part, an optional fraction and an optional exponent. *)
Definition parse_unsigned (s : jstr) : option (Z * Z * jstr) :=
  let (int, s2) := span_digits s in
  if negb (int_digits_ok int) then None
  else
    match fraction s2 with
    | None => None
    | Some (frac, s3) =>
        match exponent s3 with
        | None => None
        | Some (e, s4) =>
            Some (digits_value (int ++ frac),
                  (e - Z.of_nat (length frac))%Z, s4)
        end
    end.

(** A number literal: whether it has a minus sign, and its decimal. *)
Definition parse_decimal (s : jstr) : option (bool * Z * Z * jstr) :=
  let (neg, s1) := minus_sign s in
  match parse_unsigned s1 with
  | Some (m, t, rest) => Some (neg, m, t, rest)
  | None => None
  end.

(** The Number of a sign and a magnitude in units: a zero, an
    infinity when the magnitude is out of range, an integer of the safe
    range or another finite value. *)
Definition number_of_units (neg : bool) (u : Z) : json :=
  if (u =? 0)%Z then (if neg then JDbl NegZero else JNum 0)
  else if (overflow_units <=? u)%Z then JDbl (Infinite neg)
  else match safe_integer u with
       | Some z => JNum (if neg then (- z)%Z else z)
       | None => JDbl (Finite neg (Z.to_pos u))
       end.

(** The Number value of the decimal [m * 10 ^ t] with a sign. *)
Definition number_of_decimal (neg : bool) (m t : Z) : json :=
  number_of_units neg (decimal_units m t).

(** A number literal and its value. *)
Definition parse_number (s : jstr) : option (json * jstr) :=
  match parse_decimal s with
  | Some (neg, m, t, rest) => Some (number_of_decimal neg m t, rest)
  | None => None
  end.

(** The index of an integer-indexed property key ("array index"): the
    canonical decimal string of an integer below 2^32 - 1. *)
Definition array_index (k : jstr) : option N :=
  match take_digits k with
  | (d, []) =>
      if int_part_ok d && (N.of_uint d <=? 4294967294)
      then Some (N.of_uint d) else None
  | _ => None
  end.

Fixpoint has_key (k : jstr) (ms : list (jstr * json)) : bool :=
  match ms with
  | [] => false
  | (k', _) :: ms' => jstr_eqb k k' || has_key k ms'
  end.

Fixpoint replace_value (k : jstr) (v : json) (ms : list (jstr * json))
    : list (jstr * json) :=
  match ms with
  | [] => []
  | (k', v') :: ms' =>
      if jstr_eqb k k' then (k', v) :: ms'
      else (k', v') :: replace_value k v ms'
  end.

(** A new integer-indexed property goes before the first property that
    is not integer-indexed or has a larger index. *)
Fixpoint insert_index (i : N) (k : jstr) (v : json)
    (ms : list (jstr * json)) : list (jstr * json) :=
  match ms with
  | [] => [(k, v)]
  | (k', v') :: ms' =>
      match array_index k' with
      | Some j =>
          if j <? i then (k', v') :: insert_index i k v ms'
          else (k, v) :: ms
      | None => (k, v) :: ms
      end
  end.

(** CreateDataProperty on an ordinary object, in the order of
    OrdinaryOwnPropertyKeys: integer-indexed keys ascending, then the
    other keys in the order of their creation; redefining a property
    keeps its place. *)
Definition obj_set (ms : list (jstr * json)) (kv : jstr * json)
    : list (jstr * json) :=
  let (k, v) := kv in
  if has_key k ms then replace_value k v ms
  else match array_index k with
       | Some i => insert_index i k v ms
       | None => ms ++ [(k, v)]
       end.

(** The object a member list in source order denotes. *)
Definition build_object (raw : list (jstr * json)) : list (jstr * json) :=
  fold_left obj_set raw [].

Fixpoint strip_prefix (p s : jstr) : option jstr :=
  match p, s with
  | [], _ => Some s
  | _ :: _, [] => None
  | a :: p', b :: s' => if a =? b then strip_prefix p' s' else None
  end.

(** One of the words [null], [true], [false]. *)
Definition literal (word : jstr) (v : json) (s : jstr) : option (json * jstr) :=
  match strip_prefix word s with
  | Some rest => Some (v, rest)
  | None => None
  end.

(** The recursive-descent parser, which decides on the first character
    of a value; [fuel] bounds the nesting of calls, each of which
    consumes input. *)
Fixpoint parse_value (fuel : nat) (s : jstr) : option (json * jstr) :=
  match fuel with
  | O => None
  | S fuel' =>
      match s with
      | [] => None
      | c :: s' =>
          if c =? 34 then
            match parse_chars s' with
            | Some (str, rest) => Some (JStr str, rest)
            | None => None
            end
          else if c =? 91 then
            match skip_ws s' with
            | [] => None
            | c1 :: rest =>
                if c1 =? 93 then Some (JArr [], rest)
                else
                  match parse_elements fuel' (c1 :: rest) with
                  | Some (items, rest') => Some (JArr items, rest')
                  | None => None
                  end
            end
          else if c =? 123 then
            match skip_ws s' with
            | [] => None
            | c1 :: rest =>
                if c1 =? 125 then Some (JObj [], rest)
                else
                  match parse_members fuel' (c1 :: rest) with
                  | Some (raw, rest') => Some (JObj (build_object raw), rest')
                  | None => None
                  end
            end
          else if c =? 110 then literal (js "null") JNull s
          else if c =? 116 then literal (js "true") (JBool true) s
          else if c =? 102 then literal (js "false") (JBool false) s
          else parse_number s
      end
  end
with parse_elements (fuel : nat) (s : jstr) : option (list json * jstr) :=
  match fuel with
  | O => None
  | S fuel' =>
      match parse_value fuel' s with
      | Some (v, s1) =>
          match skip_ws s1 with
          | [] => None
          | c :: s2 =>
              if c =? 44 then
                match parse_elements fuel' (skip_ws s2) with
                | Some (vs, rest) => Some (v :: vs, rest)
                | None => None
                end
              else if c =? 93 then Some ([v], s2)
              else None
          end
      | None => None
      end
  end
with parse_members (fuel : nat) (s : jstr)
    : option (list (jstr * json) * jstr) :=
  match fuel with
  | O => None
  | S fuel' =>
      match s with
      | [] => None
      | q :: s' =>
          if q =? 34 then
            match parse_chars s' with
            | Some (k, s1) =>
                match skip_ws s1 with
                | [] => None
                | c :: s2 =>
                    if c =? 58 then
                      match parse_value fuel' (skip_ws s2) with
                      | Some (v, s3) =>
                          match skip_ws s3 with
                          | [] => None
                          | c' :: s4 =>
                              if c' =? 44 then
                                match parse_members fuel' (skip_ws s4) with
                                | Some (ms, rest) => Some ((k, v) :: ms, rest)
                                | None => None
                                end
                              else if c' =? 125 then Some ([(k, v)], s4)
                              else None
                          end
                      | None => None
                      end
                    else None
                end
            | None => None
            end
          else None
      end
  end.

(** [JSON.parse(text)]: one value between optional white space.  [None]
    is a SyntaxError. *)
Definition parse (text : jstr) : option json :=
  match parse_value (S (length text)) (skip_ws text) with
  | Some (v, rest) =>
      match skip_ws rest with
      | [] => Some v
      | _ => None
      end
  | None => None
  end.

End JSON.

(** ** The mock target application: [mock-o9-website/js/app.js] *)

Module MockSite.

(** The part of a DOM element the script touches. *)
Record Element := mkElement {
  value : jstr;
  textContent : jstr;
  style_display : jstr
}.

(** The browser as the script sees it.  [href] is the last URL assigned
    to [window.location.href] by the script; [None] when the script has
    requested no navigation. *)
Record Browser := mkBrowser {
  pathname : jstr;
  href : option jstr;
  sessionStorage : gmap jstr jstr;
  document : gmap jstr Element
}.

Definition set_href (u : jstr) (w : Browser) : Browser :=
  mkBrowser (pathname w) (Some u) (sessionStorage w) (document w).

Definition setItem (k v : jstr) (w : Browser) : Browser :=
  mkBrowser (pathname w) (href w) (<[k := v]> (sessionStorage w)) (document w).

Definition removeItem (k : jstr) (w : Browser) : Browser :=
  mkBrowser (pathname w) (href w) (delete k (sessionStorage w)) (document w).

Definition getItem (k : jstr) (w : Browser) : option jstr :=
  sessionStorage w !! k.

Definition getElementById (id : jstr) (w : Browser) : option Element :=
  document w !! id.

Definition set_element (id : jstr) (e : Element) (w : Browser) : Browser :=
  mkBrowser (pathname w) (href w) (sessionStorage w) (<[id := e]> (document w)).

(** How a call ends: it returns a value, or a TypeError escapes (a
    property read on the [null] that [getElementById] returned). *)
Inductive completion :=
| Return (v : bool) (w : Browser)
| Throw (w : Browser).

Definition world_of (c : completion) : Browser :=
  match c with
  | Return _ w => w
  | Throw w => w
  end.

(** [handleLogin(event)]. *)
Definition handleLogin (w : Browser) : completion :=
  match getElementById (js "username") w with
  | None => Throw w
  | Some ue =>
      match getElementById (js "password") w with
      | None => Throw w
      | Some pe =>
          let username := value ue in
          let password := value pe in
          if str_truthy (Some username) && str_truthy (Some password) then
            let w1 := setItem (js "o9-username") username w in
            let w2 := setItem (js "o9-logged-in") (js "true") w1 in
            Return false (set_href (js "dashboard.html") w2)
          else
            match getElementById (js "error-message") w with
            | None => Throw w
            | Some ee =>
                Return false
                  (set_element (js "error-message")
                     (mkElement (value ee) (textContent ee) (js "block")) w)
            end
      end
  end.

(** [handleLogout()]. *)
Definition handleLogout (w : Browser) : Browser :=
  set_href (js "index.html")
    (removeItem (js "o9-logged-in") (removeItem (js "o9-username") w)).

(** [checkAuth()]. *)
Definition checkAuth (w : Browser) : Browser :=
  let isLoggedIn := getItem (js "o9-logged-in") w in
  let currentPage := pathname w in
  let w1 :=
    if negb (str_truthy isLoggedIn)
       && negb (includes currentPage (js "index.html"))
       && negb (jstr_eqb currentPage (js "/"))
    then set_href (js "index.html") w
    else w in
  let username := getItem (js "o9-username") w1 in
  match getElementById (js "username-display") w1 with
  | Some el =>
      match username with
      | Some u =>
          if str_truthy (Some u)
          then set_element (js "username-display")
                 (mkElement (value el) u (style_display el)) w1
          else w1
      | None => w1
      end
  | None => w1
  end.

(** [window.addEventListener('DOMContentLoaded', () => { checkAuth(); })]. *)
Definition onDOMContentLoaded (w : Browser) : Browser := checkAuth w.

(** A page as the browser holds it when its document has just loaded:
    the script has not navigated yet. *)
Definition page_load (path : jstr) (store : gmap jstr jstr)
    (doc : gmap jstr Element) : Browser :=
  onDOMContentLoaded (mkBrowser path None store doc).

End MockSite.

(** ** The records the front end receives from the API *)

Module Api.

(** A test step as the API returns it; a [null] or missing field is
    [None]. *)
Record Step := mkStep {
  id : Z;
  step_number : Z;
  description : option jstr;
  selenium_script : option jstr;
  selenium_script_json : option jstr;
  execution_status : option jstr
}.

(** The execution statuses of a step. *)
Definition execution_statuses : list jstr :=
  [js "not_run"; js "running"; js "passed"; js "failed"; js "error"].

Record TestCase := mkTestCase {
  case_id : Z;
  steps : option (list Step)
}.

End Api.

(** ** Object literals used as look-up tables *)

Module Lookup.

(** What [table[key]] evaluates to for an object literal [table] with
    string values: an own property, or a member inherited from
    [Object.prototype] (all of which are truthy), or [undefined]. *)
Inductive prop_value :=
| Own (v : jstr)
| Inherited (name : jstr).

Definition object_prototype_keys : list jstr :=
  [js "constructor"; js "hasOwnProperty"; js "isPrototypeOf";
   js "propertyIsEnumerable"; js "toLocaleString"; js "toString";
   js "valueOf"; js "__proto__"; js "__defineGetter__";
   js "__defineSetter__"; js "__lookupGetter__"; js "__lookupSetter__"].

Fixpoint own (k : jstr) (table : list (jstr * jstr)) : option jstr :=
  match table with
  | [] => None
  | (k', v) :: t => if jstr_eqb k k' then Some v else own k t
  end.

Definition member (k : jstr) (l : list jstr) : bool :=
  existsb (jstr_eqb k) l.

Definition get (table : list (jstr * jstr)) (k : jstr) : option prop_value :=
  match own k table with
  | Some v => Some (Own v)
  | None =>
      if member k object_prototype_keys then Some (Inherited k) else None
  end.

(** [table[key] || fallback]. *)
Definition get_or (table : list (jstr * jstr)) (k fallback : jstr)
    : prop_value :=
  match get table k with
  | Some (Own v) => if jstr_eqb v [] then Own fallback else Own v
  | Some (Inherited n) => Inherited n
  | None => Own fallback
  end.

Definition keys (table : list (jstr * jstr)) : list jstr := map fst table.

End Lookup.

(** ** [TestCaseDetail] *)

Module TestCaseDetail.
Import Api.

(** [Array.prototype.sort(cmp)].  The standard requires the sort to be
    stable; for a consistent comparator every stable sort returns the
    same array, computed here by insertion: an element goes after the
    elements it does not precede ([cmp x y > 0]) and before the first
    one it ties with or precedes. *)
Fixpoint sort_insert {A} (cmp : A -> A -> Z) (x : A) (l : list A) : list A :=
  match l with
  | [] => [x]
  | y :: l' =>
      if (cmp x y <=? 0)%Z then x :: y :: l'
      else y :: sort_insert cmp x l'
  end.

Fixpoint Array_sort {A} (cmp : A -> A -> Z) (l : list A) : list A :=
  match l with
  | [] => []
  | x :: l' => sort_insert cmp x (Array_sort cmp l')
  end.

(** [(a, b) => a.step_number - b.step_number]. *)
Definition by_step_number (a b : Step) : Z :=
  (step_number a - step_number b)%Z.

(** [[...(testCase.steps || [])].sort(...)]. *)
Definition sortedSteps (testCase : TestCase) : list Step :=
  Array_sort by_step_number (default [] (steps testCase)).

(** [TestCaseExecutor]: one [TestStepExecutor] per step, in the order of
    the [steps] prop; the list of the keys ([step.id]) it renders. *)
Definition TestCaseExecutor_rendered (steps : list Step) : list Z :=
  map id steps.

Definition gray : jstr := js "bg-gray-100 text-gray-800".

Definition step_status_colors : list (jstr * jstr) :=
  [(js "not_started", js "bg-gray-100 text-gray-800");
   (js "passed", js "bg-green-100 text-green-800");
   (js "failed", js "bg-red-100 text-red-800");
   (js "blocked", js "bg-yellow-100 text-yellow-800")].

(** [getStepStatusBadgeColor(status)]. *)
Definition getStepStatusBadgeColor (status : jstr) : Lookup.prop_value :=
  Lookup.get_or step_status_colors status gray.

End TestCaseDetail.

(** ** [TestStepExecutor]: the per-step client of the execution channel *)

Module TestStepExecutor.
Import Api.

Definition status_colors : list (jstr * jstr) :=
  [(js "passed", js "bg-green-100 text-green-800");
   (js "failed", js "bg-red-100 text-red-800");
   (js "error", js "bg-yellow-100 text-yellow-800");
   (js "running", js "bg-blue-100 text-blue-800");
   (js "not_run", js "bg-gray-100 text-gray-800")].

(** [getStatusColor()]. *)
Definition getStatusColor (step : Step) : Lookup.prop_value :=
  let status := if str_truthy (execution_status step)
                then default [] (execution_status step)
                else js "not_run" in
  Lookup.get_or status_colors status (js "bg-gray-100 text-gray-800").

(** The [readyState] of a WebSocket. *)
Inductive ReadyState := CONNECTING | OPEN | CLOSING | CLOSED.

Definition ready_eqb (a b : ReadyState) : bool :=
  match a, b with
  | CONNECTING, CONNECTING | OPEN, OPEN | CLOSING, CLOSING
  | CLOSED, CLOSED => true
  | _, _ => false
  end.

(** The socket of a run: its URL, its state, the frames the client has
    sent on it and how often the client has called [close()]. *)
Record WebSocket := mkWebSocket {
  url : jstr;
  readyState : ReadyState;
  sent : list jstr;
  closeCalls : nat
}.

(** The component's state for a run, with the calls it has made to the
    [onStatusUpdate] prop and to [alert], oldest first. *)
Record State := mkState {
  isRunning : bool;
  screenshot : option jstr;
  progress : jsval;
  isEditing : bool;
  ws : option WebSocket;
  statusUpdates : list jsval;
  alerts : list jstr
}.

Definition initial : State :=
  mkState false None (Some (JStr [])) false None [] [].

Definition setIsRunning (b : bool) (st : State) : State :=
  mkState b (screenshot st) (progress st) (isEditing st) (ws st)
    (statusUpdates st) (alerts st).

Definition setScreenshot (v : option jstr) (st : State) : State :=
  mkState (isRunning st) v (progress st) (isEditing st) (ws st)
    (statusUpdates st) (alerts st).

Definition setProgress (v : jsval) (st : State) : State :=
  mkState (isRunning st) (screenshot st) v (isEditing st) (ws st)
    (statusUpdates st) (alerts st).

Definition set_ws (w : option WebSocket) (st : State) : State :=
  mkState (isRunning st) (screenshot st) (progress st) (isEditing st) w
    (statusUpdates st) (alerts st).

Definition onStatusUpdate (v : jsval) (st : State) : State :=
  mkState (isRunning st) (screenshot st) (progress st) (isEditing st)
    (ws st) (statusUpdates st ++ [v]) (alerts st).

Definition alert (text : jstr) (st : State) : State :=
  mkState (isRunning st) (screenshot st) (progress st) (isEditing st)
    (ws st) (statusUpdates st) (alerts st ++ [text]).

(** [websocket.close()]: an open or connecting socket starts closing;
    on a closing or closed one the call does nothing. *)
Definition close_socket (w : WebSocket) : WebSocket :=
  mkWebSocket (url w)
    (match readyState w with
     | CONNECTING | OPEN => CLOSING
     | r => r
     end)
    (sent w) (S (closeCalls w)).

Definition websocket_close (st : State) : State :=
  set_ws (close_socket <$> ws st) st.

Definition set_ready (r : ReadyState) (st : State) : State :=
  set_ws ((fun w => mkWebSocket (url w) r (sent w) (closeCalls w)) <$> ws st)
    st.

(** [window.location]. *)
Record Location := mkLocation {
  protocol : jstr;
  host : jstr
}.

(** The URL [handleRunStep] connects to. *)
Definition wsUrl (loc : Location) (step : Step) : jstr :=
  (if jstr_eqb (protocol loc) (js "https:") then js "wss:" else js "ws:")
  ++ js "//" ++ replace_first (js ":5173") (js ":8000") (host loc)
  ++ js "/ws/execute-step/" ++ Z_to_jstr (id step).

(** [handleRunStep()]: the state it sets and the socket it creates.  The
    handlers it installs are [onopen], [onmessage], [onerror] and
    [onclose] below. *)
Definition handleRunStep (loc : Location) (step : Step) (st : State)
    : State :=
  set_ws (Some (mkWebSocket (wsUrl loc step) CONNECTING [] 0))
    (setProgress (Some (JStr [])) (setScreenshot None (setIsRunning true st))).

(** The "Run Step" button is rendered when the component is not in edit
    mode and [step.selenium_script_json] is truthy; it is disabled while
    a run is in progress.  A click calls [handleRunStep]. *)
Definition run_button_rendered (step : Step) (st : State) : bool :=
  negb (isEditing st) && str_truthy (selenium_script_json step).

Definition click_run_step (loc : Location) (step : Step) (st : State)
    : State :=
  if run_button_rendered step st && negb (isRunning st)
  then handleRunStep loc step st
  else st.

(** [websocket.onopen]: logs to the console. *)
Definition onopen (st : State) : State := st.

(** The [if]/[else if] chain of [websocket.onmessage]: what the handler
    does with [data], the value of [JSON.parse(event.data)], once
    [data.type] has been read. *)
Definition dispatch_message (data : json) (st : State) : State :=
  let type := prop data (js "type") in
  if is_string type (js "status_update") then
    onStatusUpdate (prop data (js "status")) st
  else if is_string type (js "progress") then
    setProgress
      (js_or (js_or (prop data (js "message")) (prop data (js "action")))
             (Some (JStr []))) st
  else if is_string type (js "screenshot") then
    setScreenshot
      (Some (js "data:image/png;base64,"
             ++ to_string (prop data (js "image")))) st
  else if is_string type (js "execution_complete") then
    websocket_close
      (onStatusUpdate (prop data (js "status"))
         (setProgress (Some (JStr [])) (setIsRunning false st)))
  else if is_string type (js "execution_error") then
    websocket_close
      (alert (js "Execution error: " ++ to_string (prop data (js "error")))
         (setProgress (Some (JStr [])) (setIsRunning false st)))
  else st.

(** [websocket.onmessage].  [None]: [data] is [null] and reading
    [data.type] throws a TypeError, before any state is set. *)
Definition onmessage (data : json) (st : State) : option State :=
  match data with
  | JNull => None
  | _ => Some (dispatch_message data st)
  end.

(** [websocket.onerror]. *)
Definition onerror (st : State) : State :=
  setProgress (Some (JStr [])) (setIsRunning false st).

(** [websocket.onclose]. *)
Definition onclose (st : State) : State := setIsRunning false st.

(** What the browser reports on the socket.  A message event carries the
    result of [JSON.parse] on the frame's text: [None] when it throws a
    SyntaxError. *)
Inductive ws_event :=
| EvOpen
| EvMessage (data : option json)
| EvError
| EvClose.

Definition socket_state (st : State) : option ReadyState :=
  readyState <$> ws st.

(** The browser's dispatch (WHATWG WebSockets): [open] fires when a
    connecting socket is established; a message that arrives while the
    socket is not OPEN is dropped without an event; [close] fires once,
    when the socket becomes CLOSED.  An exception that escapes a handler
    is reported and leaves the state as it was. *)
Definition deliver (st : State) (ev : ws_event) : State :=
  match socket_state st with
  | None => st
  | Some r =>
      match ev with
      | EvOpen =>
          if ready_eqb r CONNECTING then onopen (set_ready OPEN st) else st
      | EvMessage parsed =>
          if ready_eqb r OPEN then
            match parsed with
            | Some data => default st (onmessage data st)
            | None => st
            end
          else st
      | EvError => if ready_eqb r CLOSED then st else onerror st
      | EvClose =>
          if ready_eqb r CLOSED then st else onclose (set_ready CLOSED st)
      end
  end.

Definition deliver_all (st : State) (evs : list ws_event) : State :=
  fold_left deliver evs st.

(** The frames the client has sent on the socket of the run. *)
Definition frames_sent (st : State) : list jstr :=
  match ws st with
  | Some w => sent w
  | None => []
  end.

Definition close_calls (st : State) : nat :=
  match ws st with
  | Some w => closeCalls w
  | None => 0%nat
  end.

(** The two terminal message kinds. *)
Definition is_terminal (data : json) : bool :=
  match data with
  | JNull => false
  | _ =>
      is_string (prop data (js "type")) (js "execution_complete")
      || is_string (prop data (js "type")) (js "execution_error")
  end.

End TestStepExecutor.

(** ** [ViewScriptModal] *)

Module ViewScriptModal.
Import Api.

(** The commands the modal shows and whether parsing failed:
    [jsonCommands] and [jsonError]. *)
Definition jsonCommands (step : Step) : json * bool :=
  if str_truthy (selenium_script_json step) then
    match JSON.parse (default [] (selenium_script_json step)) with
    | Some v => (v, false)
    | None => (JArr [], true)
    end
  else (JArr [], true).

(** [jsonCommands.length], where there is one. *)
Definition commands_length (v : json) : option nat :=
  match v with
  | JArr items => Some (length items)
  | JStr s => Some (length s)
  | _ => None
  end.

(** The export button is enabled unless [!jsonCommands.length || !!jsonError]. *)
Definition export_enabled (step : Step) : bool :=
  let '(cmds, err) := jsonCommands step in
  match commands_length cmds with
  | Some (S _) => negb err
  | _ => false
  end.

(** [handleExportJson]: the text of the downloaded file,
    [JSON.stringify(jsonCommands, null, 2)]. *)
Definition handleExportJson (step : Step) : jstr :=
  JSON.stringify2 (fst (jsonCommands step)).

End ViewScriptModal.

(** ** [ViewScriptModal]: the name of the exported file and the command
       fields *)

Module ExportFile.
Import Api.

(** The class [[a-z0-9]] under the flag [i].  Without the flag [u] the
    pattern is matched against single code units, and case folding
    (Canonicalize) never maps a code unit from 128 upwards onto an ASCII
    one: the class holds the ASCII letters of both cases and the digits. *)
Definition is_alnum (c : N) : bool :=
  ((97 <=? c) && (c <=? 122)) || ((65 <=? c) && (c <=? 90))
  || ((48 <=? c) && (c <=? 57)).

(** [str.replace(/[^a-z0-9]/gi, '_')]: every code unit outside the class
    becomes an underscore. *)
Definition replace_non_alnum (str : jstr) : jstr :=
  map (fun c => if is_alnum c then c else 95) str.

(** [.replace(/_{2,}/g, '_')]: every maximal run of two or more
    underscores becomes one underscore.  An underscore that is followed by
    another one is dropped, which leaves the last one of each run. *)
Fixpoint collapse_underscores (s : jstr) : jstr :=
  match s with
  | [] => []
  | c :: s' =>
      if (c =? 95) && starts_with [95] s' then collapse_underscores s'
      else c :: collapse_underscores s'
  end.

(** [String.prototype.toLowerCase] on a string of ASCII characters, which
    is what the two replacements leave ([collapsed_ascii] below): the
    letters [A] to [Z] are mapped to [a] to [z]. *)
Definition lower_unit (c : N) : N :=
  if (65 <=? c) && (c <=? 90) then c + 32 else c.

Definition toLowerCase (s : jstr) : jstr := map lower_unit s.

(** [sanitizeFilename(str)]. *)
Definition sanitizeFilename (str : jstr) : jstr :=
  toLowerCase (collapse_underscores (replace_non_alnum str)).




(** [Object.entries(command)]: the own enumerable string-keyed properties
    in property order.  An array and a string have their indices as keys;
    a number and a boolean have none; [null] throws a TypeError ([None]). *)
Definition Object_entries (command : json) : option (list (jstr * json)) :=
  match command with
  | JNull => None
  | JObj members => Some members
  | JArr items =>
      Some (imap (fun i x => (N_to_jstr (N.of_nat i), x)) items)
  | JStr s =>
      Some (imap (fun i c => (N_to_jstr (N.of_nat i), JStr [c])) s)
  | JBool _ | JNum _ | JDbl _ => Some []
  end.

(** The text shown for the value of a field:
    [typeof value === 'object' && value !== null
       ? JSON.stringify(value, null, 2) : String(value || '')]. *)
Definition field_value (value : json) : jstr :=
  match value with
  | JArr _ | JObj _ => JSON.stringify2 value
  | _ => to_string (js_or (Some value) (Some (JStr [])))
  end.

End ExportFile.

(** ** Status labels: [formatStatus] of [TestStepExecutor] and of
       [TestCaseDetail] *)

Module StatusLabel.

(** [s.split('_')] and the like, with a separator of one code unit: the
    pieces between the separators, one more than there are separators. *)
Fixpoint split_on (sep : N) (s : jstr) : list jstr :=
  match s with
  | [] => [[]]
  | c :: s' =>
      if c =? sep then [] :: split_on sep s'
      else match split_on sep s' with
           | w :: ws => (c :: w) :: ws
           | [] => [[c]]
           end
  end.

Section Case.

(** [String.prototype.toUpperCase], which follows the Unicode case
    mappings of the host; the functions below are defined for any such
    mapping. *)
Variable toUpperCase : jstr -> jstr.

(** [word => word.charAt(0).toUpperCase() + word.slice(1)]. *)
Definition capitalize (word : jstr) : jstr :=
  toUpperCase (take 1 word) ++ drop 1 word.

(** [status.split('_').map(...).join(' ')]. *)
Definition words_capitalized (status : jstr) : jstr :=
  join_with [32] (map capitalize (split_on 95 status)).

(** [formatStatus(status)] of [TestStepExecutor]. *)
Definition formatStatus (status : option jstr) : jstr :=
  if str_truthy status then words_capitalized (default [] status)
  else js "Not Run".

(** [formatStatus(status)] of [TestCaseDetail], which has no guard:
    [None] is the TypeError of [status.split] on a status that is [null]
    or missing. *)
Definition formatStatus_of_case (status : option jstr) : option jstr :=
  match status with
  | Some s => Some (words_capitalized s)
  | None => None
  end.

End Case.

End StatusLabel.

(** ** [TestStepExecutor]: generating a script and editing a step *)

Module StepEditor.
Import Api TestStepExecutor.

(** The props of the component besides the callbacks' identity: the
    step, its [expected_result] (a field [Api.Step] leaves out), the id of
    the test case ([testCase?.id], a number or [undefined]) and whether
    the two callbacks were passed. *)
Record Props := mkProps {
  step : Step;
  expected_result : option jstr;
  testCaseId : option Z;
  onRefresh_given : bool;
  onStatusUpdate_given : bool
}.

(** An HTTP request the component makes: the URL is the one given to
    [fetch], or the path given to the [axios] instance. *)
Record Request := mkRequest {
  method : jstr;
  target : jstr;
  body : option json
}.

(** The state of the component: the hooks of a run ([run], which also
    holds the progress line, the edit flag and the calls of
    [onStatusUpdate]), the other hooks, the requests made, the number of
    calls of [onRefresh] and the delays of the timers set, each of which
    runs [setProgress('')]. *)
Record Component := mkComponent {
  run : State;
  showScript : bool;
  isGenerating : bool;
  editedScript : jstr;
  editedScriptJson : json;
  editedDescription : jstr;
  editedExpectedResult : jstr;
  isSaving : bool;
  requests : list Request;
  refreshes : nat;
  timers : list N
}.

Definition with_run (f : State -> State) (c : Component) : Component :=
  mkComponent (f (run c)) (showScript c) (isGenerating c) (editedScript c)
    (editedScriptJson c) (editedDescription c) (editedExpectedResult c)
    (isSaving c) (requests c) (refreshes c) (timers c).

Definition setShowScript (b : bool) (c : Component) : Component :=
  mkComponent (run c) b (isGenerating c) (editedScript c)
    (editedScriptJson c) (editedDescription c) (editedExpectedResult c)
    (isSaving c) (requests c) (refreshes c) (timers c).

Definition setIsGenerating (b : bool) (c : Component) : Component :=
  mkComponent (run c) (showScript c) b (editedScript c)
    (editedScriptJson c) (editedDescription c) (editedExpectedResult c)
    (isSaving c) (requests c) (refreshes c) (timers c).

Definition setEditedScript (s : jstr) (c : Component) : Component :=
  mkComponent (run c) (showScript c) (isGenerating c) s
    (editedScriptJson c) (editedDescription c) (editedExpectedResult c)
    (isSaving c) (requests c) (refreshes c) (timers c).

Definition setEditedScriptJson (v : json) (c : Component) : Component :=
  mkComponent (run c) (showScript c) (isGenerating c) (editedScript c)
    v (editedDescription c) (editedExpectedResult c)
    (isSaving c) (requests c) (refreshes c) (timers c).

Definition setEditedDescription (s : jstr) (c : Component) : Component :=
  mkComponent (run c) (showScript c) (isGenerating c) (editedScript c)
    (editedScriptJson c) s (editedExpectedResult c)
    (isSaving c) (requests c) (refreshes c) (timers c).

Definition setEditedExpectedResult (s : jstr) (c : Component) : Component :=
  mkComponent (run c) (showScript c) (isGenerating c) (editedScript c)
    (editedScriptJson c) (editedDescription c) s
    (isSaving c) (requests c) (refreshes c) (timers c).

Definition setIsSaving (b : bool) (c : Component) : Component :=
  mkComponent (run c) (showScript c) (isGenerating c) (editedScript c)
    (editedScriptJson c) (editedDescription c) (editedExpectedResult c)
    b (requests c) (refreshes c) (timers c).

Definition request (r : Request) (c : Component) : Component :=
  mkComponent (run c) (showScript c) (isGenerating c) (editedScript c)
    (editedScriptJson c) (editedDescription c) (editedExpectedResult c)
    (isSaving c) (requests c ++ [r]) (refreshes c) (timers c).

(** A call of the [onRefresh] prop. *)
Definition onRefresh (c : Component) : Component :=
  mkComponent (run c) (showScript c) (isGenerating c) (editedScript c)
    (editedScriptJson c) (editedDescription c) (editedExpectedResult c)
    (isSaving c) (requests c) (S (refreshes c)) (timers c).

(** [setTimeout(() => setProgress(''), delay)]. *)
Definition setTimeout (delay : N) (c : Component) : Component :=
  mkComponent (run c) (showScript c) (isGenerating c) (editedScript c)
    (editedScriptJson c) (editedDescription c) (editedExpectedResult c)
    (isSaving c) (requests c) (refreshes c) (timers c ++ [delay]).

(** [setProgress] with a string. *)
Definition setProgressText (text : jstr) : Component -> Component :=
  with_run (setProgress (Some (JStr text))).

Definition setIsEditing (b : bool) : Component -> Component :=
  with_run (fun st =>
    mkState (isRunning st) (screenshot st) (progress st) b (ws st)
      (statusUpdates st) (alerts st)).

(** [s || ''] for a string field of the step. *)
Definition or_empty (s : option jstr) : jstr :=
  if str_truthy s then default [] s else [].

(** The component when it is mounted for a step. *)
Definition mount (props : Props) : Component :=
  mkComponent initial false false
    (or_empty (selenium_script (step props)))
    (JStr (or_empty (selenium_script_json (step props))))
    (or_empty (description (step props)))
    (or_empty (expected_result props))
    false [] 0%nat [].

(** [API_BASE_URL]: [import.meta.env.VITE_API_URL || 'http://localhost:8000']. *)
Definition API_BASE_URL (env : option jstr) : jstr :=
  if str_truthy env then default [] env else js "http://localhost:8000".

(** What a [catch] clause receives: a TypeError, whose message depends on
    the engine, or another error with its message and, for an error of
    [axios], the response it carries if there is one: its status and its
    data. *)
Inductive Thrown :=
| TypeError
| Error (message : jstr) (response : option (Z * jsval)).

(** How the request of [handleGenerateScript] ends: [fetch] or
    [response.text()] rejects, which they do with a TypeError, or there is
    a response, with [response.ok], the response text and the result of
    [JSON.parse] on this text ([None] when it throws). *)
Inductive Reply :=
| Rejected
| Replied (ok : bool) (text : jstr) (data : option json).

Definition check_mark : N := 10003.

Definition cannot_connect (env : option jstr) : jstr :=
  js "Cannot connect to backend server. Make sure the backend is running on "
  ++ API_BASE_URL env.

(** The URL of the request. *)
Definition generate_url (env : option jstr) (props : Props) : jstr :=
  API_BASE_URL env ++ js "/api/test-steps/" ++ Z_to_jstr (id (step props))
  ++ js "/generate-selenium".

(** [handleGenerateScript(e)] up to its first [await]: the guard against
    a second click, and the request. *)
Definition handleGenerateScript (env : option jstr) (props : Props)
    (c : Component) : Component :=
  if isGenerating c then c
  else
    request (mkRequest (js "POST") (generate_url env props) None)
      (setProgressText (js "Generating Selenium script...")
         (setIsGenerating true c)).

(** The [try] block from the response to the state updates: the error it
    throws, or the script and the commands it stores.  None of the fields
    read ([detail], [error], [message], [selenium_script],
    [selenium_script_json]) is a property of a prototype, so that they
    are [undefined] on a value that is not an object; [Object.keys(data)]
    throws a TypeError on [null], and so does [.substring] on a truthy
    script that is not a string. *)
Definition read_reply (r : Reply) : Thrown + jstr * json :=
  match r with
  | Rejected => inl TypeError
  | Replied ok text None =>
      inl (Error (js "Server returned invalid response: " ++ take 200 text)
             None)
  | Replied ok text (Some JNull) => inl TypeError
  | Replied ok text (Some data) =>
      if negb ok then
        inl (Error
               (to_string
                  (js_or
                     (js_or (js_or (prop data (js "detail"))
                                   (prop data (js "error")))
                            (prop data (js "message")))
                     (Some (JStr (js "Failed to generate script")))))
               None)
      else if negb (truthy (prop data (js "selenium_script"))) then
        inl (Error (js "Response missing selenium_script field") None)
      else
        match prop data (js "selenium_script") with
        | Some (JStr script) =>
            inr (script,
                 default (JStr [])
                   (js_or (prop data (js "selenium_script_json"))
                          (Some (JStr []))))
        | _ => inl TypeError
        end
  end.

(** The [catch] clause of [handleGenerateScript]: the message it shows. *)
Definition generate_error_message (env : option jstr) (e : Thrown) : jstr :=
  match e with
  | TypeError => cannot_connect env
  | Error message _ =>
      if jstr_eqb message (js "Failed to fetch") then cannot_connect env
      else if includes message (js "NetworkError")
              || includes message (js "network")
      then js "Network error. Check that backend is running and CORS is configured."
      else if jstr_eqb message []
      then js "Failed to generate script. Please try again."
      else message
  end.

Definition generate_failed (env : option jstr) (e : Thrown)
    (c : Component) : Component :=
  setIsGenerating false
    (setTimeout 10000
       (setProgressText (js "Error: " ++ generate_error_message env e) c)).

(** [handleGenerateScript] from the response on.  [refreshed] is how the
    awaited [onRefresh()] ends when it is called: [None] when it
    resolves. *)
Definition generate_settled (env : option jstr) (props : Props)
    (r : Reply) (refreshed : option Thrown) (c : Component) : Component :=
  match read_reply r with
  | inl e => generate_failed env e c
  | inr (script, commands) =>
      let c1 :=
        setShowScript true
          (setProgressText
             (check_mark :: js " Script generated successfully!")
             (setEditedScriptJson commands (setEditedScript script c))) in
      let c2 := if onRefresh_given props then onRefresh c1 else c1 in
      match (if onRefresh_given props then refreshed else None) with
      | Some e => generate_failed env e c2
      | None =>
          let c3 :=
            if onStatusUpdate_given props
            then with_run
                   (onStatusUpdate (Some (JStr (js "script_generated")))) c2
            else c2 in
          setIsGenerating false (setTimeout 3000 c3)
      end
  end.

(** The class of the progress line for a progress that is a string;
    [None] when the line is not rendered (the string is empty). *)
Definition progress_class (progress : jstr) : option jstr :=
  if jstr_eqb progress [] then None
  else if includes progress (js "Error")
  then Some (js "bg-red-50 text-red-700 border border-red-200")
  else if includes progress (js "successfully")
  then Some (js "bg-green-50 text-green-700 border border-green-200")
  else Some (js "bg-blue-50 text-blue-700 border border-blue-200").

(** How the request of [handleSaveEdit] ends: [testStepsAPI.update]
    resolves, or it rejects with an error. *)
Inductive Saved :=
| Updated
| Failed (e : Thrown).

(** [error.response.data?.detail] and the like. *)
Definition data_field (data : jsval) (k : jstr) : jsval :=
  match data with
  | None | Some JNull => undefined
  | Some d => prop d k
  end.

(** The [catch] clause of [handleSaveEdit]: the message it shows. *)
Definition save_error_message (env : option jstr) (e : Thrown) : jstr :=
  match e with
  | TypeError => cannot_connect env
  | Error message response =>
      if jstr_eqb message (js "Failed to fetch")
         || includes message (js "NetworkError")
      then cannot_connect env
      else
        match response with
        | Some (status, data) =>
            to_string
              (js_or
                 (js_or (data_field data (js "detail"))
                        (data_field data (js "error")))
                 (Some (JStr (js "Server error: " ++ Z_to_jstr status))))
        | None =>
            if jstr_eqb message [] then js "Failed to save changes"
            else message
        end
  end.

Definition save_failed (env : option jstr) (e : Thrown) (c : Component)
    : Component :=
  setIsSaving false
    (setTimeout 10000
       (setProgressText (js "Error: " ++ save_error_message env e) c)).




(** [handleSaveEdit] from the end of the request on. *)
Definition save_settled (env : option jstr) (props : Props)
    (r : Saved) (refreshed : option Thrown) (c : Component) : Component :=
  match r with
  | Failed e => save_failed env e c
  | Updated =>
      let c1 :=
        setProgressText
          (check_mark
           :: jsq " Changes saved! Click 'Regenerate Script' to update the script.")
          (setIsEditing false c) in
      let c2 := if onRefresh_given props then onRefresh c1 else c1 in
      match (if onRefresh_given props then refreshed else None) with
      | Some e => save_failed env e c2
      | None => setIsSaving false (setTimeout 5000 c2)
      end
  end.

(** [handleCancelEdit()]. *)
Definition handleCancelEdit (props : Props) (c : Component) : Component :=
  setIsEditing false
    (setEditedExpectedResult (or_empty (expected_result props))
       (setEditedDescription (or_empty (description (step props))) c)).

(** What the user does in edit mode: [setIsEditing(true)] of the "Edit
    Step" button and the [onChange] handlers of the two text areas. *)
Inductive Edit :=
| EditStep
| TypeDescription (text : jstr)
| TypeExpectedResult (text : jstr).

Definition edit (c : Component) (e : Edit) : Component :=
  match e with
  | EditStep => setIsEditing true c
  | TypeDescription text => setEditedDescription text c
  | TypeExpectedResult text => setEditedExpectedResult text c
  end.

End StepEditor.

(** ** [CreateTestCase]: generating a test case from a prompt

    The sources hold two versions of the component; the one embedded
    here generates over a WebSocket and falls back to the REST API
    (the text of [components/Footer.jsx] from its line 729 on). *)

Module CreateTestCase.

(** [JSON.stringify(value)] without a [space] argument: no line breaks
    and no spaces (SerializeJSONProperty with an empty [gap]). *)
Fixpoint stringify (v : json) : jstr :=
  match v with
  | JNull => js "null"
  | JBool true => js "true"
  | JBool false => js "false"
  | JNum n => Z_to_jstr n
  | JDbl (Infinite _) => js "null"
  | JDbl x => double_to_string x
  | JStr s => JSON.quote s
  | JArr items => [91] ++ join_with [44] (map stringify items) ++ [93]
  | JObj members =>
      [123]
      ++ join_with [44]
           (map (fun kv => JSON.quote (fst kv) ++ [58] ++ stringify (snd kv))
                members)
      ++ [125]
  end.

(** White space and line terminators (ECMA-262, 12.2 and 12.3): what
    [String.prototype.trim] removes. *)
Definition is_white_space (c : N) : bool :=
  (c =? 9) || (c =? 10) || (c =? 11) || (c =? 12) || (c =? 13)
  || (c =? 32) || (c =? 160) || (c =? 5760)
  || ((8192 <=? c) && (c <=? 8202))
  || (c =? 8232) || (c =? 8233) || (c =? 8239) || (c =? 8287)
  || (c =? 12288) || (c =? 65279).

Fixpoint trim_start (s : jstr) : jstr :=
  match s with
  | c :: s' => if is_white_space c then trim_start s' else s
  | [] => []
  end.

(** [s.trim()]. *)
Definition trim (s : jstr) : jstr :=
  reverse (trim_start (reverse (trim_start s))).

(** The state of the form: its hooks, the socket of [wsRef], the
    navigations scheduled ([setTimeout(() => navigate(target), delay)]),
    the number of timers set for the REST fallback and the data posted to
    [/api/test-cases/generate]. *)
Record Form := mkForm {
  prompt : jstr;
  loading : bool;
  error : jsval;
  progress : jsval;
  progressMessage : jsval;
  currentStep : jsval;
  totalSteps : jsval;
  socket : option TestStepExecutor.WebSocket;
  navigations : list (N * jsval);
  fallbacks : nat;
  posted : list json
}.

Definition setLoading (b : bool) (f : Form) : Form :=
  mkForm (prompt f) b (error f) (progress f) (progressMessage f)
    (currentStep f) (totalSteps f) (socket f) (navigations f) (fallbacks f)
    (posted f).

Definition setError (v : jsval) (f : Form) : Form :=
  mkForm (prompt f) (loading f) v (progress f) (progressMessage f)
    (currentStep f) (totalSteps f) (socket f) (navigations f) (fallbacks f)
    (posted f).

Definition setProgress (v : jsval) (f : Form) : Form :=
  mkForm (prompt f) (loading f) (error f) v (progressMessage f)
    (currentStep f) (totalSteps f) (socket f) (navigations f) (fallbacks f)
    (posted f).

Definition setProgressMessage (v : jsval) (f : Form) : Form :=
  mkForm (prompt f) (loading f) (error f) (progress f) v
    (currentStep f) (totalSteps f) (socket f) (navigations f) (fallbacks f)
    (posted f).

Definition setCurrentStep (v : jsval) (f : Form) : Form :=
  mkForm (prompt f) (loading f) (error f) (progress f) (progressMessage f)
    v (totalSteps f) (socket f) (navigations f) (fallbacks f) (posted f).

Definition setTotalSteps (v : jsval) (f : Form) : Form :=
  mkForm (prompt f) (loading f) (error f) (progress f) (progressMessage f)
    (currentStep f) v (socket f) (navigations f) (fallbacks f) (posted f).

Definition set_socket (w : option TestStepExecutor.WebSocket) (f : Form)
    : Form :=
  mkForm (prompt f) (loading f) (error f) (progress f) (progressMessage f)
    (currentStep f) (totalSteps f) w (navigations f) (fallbacks f)
    (posted f).

(** [setTimeout(() => navigate(target), delay)]. *)
Definition navigate_after (delay : N) (target : jsval) (f : Form) : Form :=
  mkForm (prompt f) (loading f) (error f) (progress f) (progressMessage f)
    (currentStep f) (totalSteps f) (socket f)
    (navigations f ++ [(delay, target)]) (fallbacks f) (posted f).

(** [setTimeout(() => { handleGenerateREST(e); }, 500)]. *)
Definition fallback_after_500 (f : Form) : Form :=
  mkForm (prompt f) (loading f) (error f) (progress f) (progressMessage f)
    (currentStep f) (totalSteps f) (socket f) (navigations f)
    (S (fallbacks f)) (posted f).

(** [testCasesAPI.generate(prompt)]: the data of the POST. *)
Definition post (data : json) (f : Form) : Form :=
  mkForm (prompt f) (loading f) (error f) (progress f) (progressMessage f)
    (currentStep f) (totalSteps f) (socket f) (navigations f) (fallbacks f)
    (posted f ++ [data]).

Definition text (s : string) : jsval := Some (JStr (js s)).

Definition number (n : Z) : jsval := Some (JNum n).

(** [!prompt.trim()]. *)
Definition blank (prompt : jstr) : bool := jstr_eqb (trim prompt) [].

(** The URL of the generation socket. *)
Definition wsUrl (loc : TestStepExecutor.Location) : jstr :=
  (if jstr_eqb (TestStepExecutor.protocol loc) (js "https:")
   then js "wss:" else js "ws:")
  ++ js "//"
  ++ replace_first (js ":5173") (js ":8000") (TestStepExecutor.host loc)
  ++ js "/ws/generate-test-case".

(** [handleGenerateWebSocket(e)]: the check of the prompt, the state it
    sets and the socket it creates. *)
Definition handleGenerateWebSocket (loc : TestStepExecutor.Location)
    (f : Form) : Form :=
  if blank (prompt f)
  then setError (text "Please enter a test case description") f
  else
    set_socket
      (Some (TestStepExecutor.mkWebSocket (wsUrl loc)
               TestStepExecutor.CONNECTING [] 0))
      (setTotalSteps (number 0)
         (setCurrentStep (number 0)
            (setProgressMessage (text "Connecting...")
               (setProgress (number 0)
                  (setError (Some (JStr [])) (setLoading true f)))))).

(** [websocket.send(data)] on an open socket. *)
Definition websocket_send (data : jstr) (f : Form) : Form :=
  set_socket
    ((fun w =>
        TestStepExecutor.mkWebSocket (TestStepExecutor.url w)
          (TestStepExecutor.readyState w)
          (TestStepExecutor.sent w ++ [data])
          (TestStepExecutor.closeCalls w)) <$> socket f) f.

Definition websocket_close (f : Form) : Form :=
  set_socket (TestStepExecutor.close_socket <$> socket f) f.

Definition set_ready (r : TestStepExecutor.ReadyState) (f : Form) : Form :=
  set_socket
    ((fun w =>
        TestStepExecutor.mkWebSocket (TestStepExecutor.url w) r
          (TestStepExecutor.sent w) (TestStepExecutor.closeCalls w))
       <$> socket f) f.

(** The request the client sends: [JSON.stringify({ description:
    prompt.trim() })]. *)
Definition generation_request (prompt : jstr) : jstr :=
  stringify (JObj [(js "description", JStr (trim prompt))]).

(** [websocket.onopen].  A handler reads [prompt], [loading] and
    [progress] as they were in the render that created it: [seen] is the
    state of that render. *)
Definition onopen (seen : Form) (f : Form) : Form :=
  websocket_send (generation_request (prompt seen))
    (setProgressMessage (text "Connected. Starting generation...") f).

(** The [if]/[else if] chain of [websocket.onmessage]. *)
Definition dispatch_message (data : json) (f : Form) : Form :=
  let type := prop data (js "type") in
  if is_string type (js "generation_progress") then
    setTotalSteps (js_or (prop data (js "total")) (number 0))
      (setCurrentStep (js_or (prop data (js "step")) (number 0))
         (setProgressMessage
            (js_or (prop data (js "message")) (text "Processing..."))
            (setProgress (js_or (prop data (js "progress")) (number 0)) f)))
  else if is_string type (js "generation_complete") then
    websocket_close
      (if truthy (prop data (js "success"))
          && truthy (prop data (js "test_case_id"))
       then
         navigate_after 1000
           (js_or (prop data (js "redirect_url"))
              (Some (JStr (js "/test-case/"
                           ++ to_string (prop data (js "test_case_id"))))))
           (setProgressMessage
              (Some (JStr (10003 :: js " Complete! Redirecting...")))
              (setProgress (number 100) f))
       else
         setLoading false
           (setError
              (text "Generation completed but no test case ID received") f))
  else if is_string type (js "generation_error") then
    websocket_close
      (setLoading false
         (setError
            (js_or (prop data (js "error"))
               (text "Failed to generate test case. Please try again."))
            f))
  else f.

(** [websocket.onmessage].  [None]: [data] is [null] and reading
    [data.type] throws a TypeError. *)
Definition onmessage (data : json) (f : Form) : option Form :=
  match data with
  | JNull => None
  | _ => Some (dispatch_message data f)
  end.

(** [websocket.onerror]. *)
Definition onerror (f : Form) : Form :=
  fallback_after_500
    (websocket_close
       (setLoading false
          (setError
             (text "WebSocket connection error. Falling back to REST API...")
             f))).

(** [progress < 100] for a progress that is a number, a boolean, [null]
    or [undefined]; the conversion of a string or an object to a number
    is outside the model ([None]). *)
Definition below_100 (v : jsval) : option bool :=
  match v with
  | None => Some false
  | Some JNull => Some true
  | Some (JBool _) => Some true
  | Some (JNum n) => Some (n <? 100)%Z
  | Some (JDbl x) => Some (double_lt_integer x 100)
  | Some (JStr _) | Some (JArr _) | Some (JObj _) => None
  end.

(** [websocket.onclose]: the test reads [loading] and [progress] of the
    render that created the handler. *)
Definition onclose (seen : Form) (f : Form) : option Form :=
  if loading seen then
    match below_100 (progress seen) with
    | Some true =>
        Some (setLoading false
                (setError
                   (text "Connection closed unexpectedly. Please try again.")
                   f))
    | Some false => Some f
    | None => None
    end
  else Some f.

(** The browser's dispatch of the events of the socket, as for the
    socket of a step; [None] when a handler leaves the model. *)
Definition deliver (seen : Form) (f : Form) (ev : TestStepExecutor.ws_event)
    : option Form :=
  match socket f with
  | None => Some f
  | Some w =>
      let r := TestStepExecutor.readyState w in
      match ev with
      | TestStepExecutor.EvOpen =>
          if TestStepExecutor.ready_eqb r TestStepExecutor.CONNECTING
          then Some (onopen seen (set_ready TestStepExecutor.OPEN f))
          else Some f
      | TestStepExecutor.EvMessage parsed =>
          if TestStepExecutor.ready_eqb r TestStepExecutor.OPEN then
            match parsed with
            | Some data => Some (default f (onmessage data f))
            | None => Some f
            end
          else Some f
      | TestStepExecutor.EvError =>
          if TestStepExecutor.ready_eqb r TestStepExecutor.CLOSED
          then Some f else Some (onerror f)
      | TestStepExecutor.EvClose =>
          if TestStepExecutor.ready_eqb r TestStepExecutor.CLOSED
          then Some f
          else onclose seen (set_ready TestStepExecutor.CLOSED f)
      end
  end.

Fixpoint deliver_all (seen : Form) (f : Form)
    (evs : list TestStepExecutor.ws_event) : option Form :=
  match evs with
  | [] => Some f
  | ev :: evs' =>
      match deliver seen f ev with
      | Some f' => deliver_all seen f' evs'
      | None => None
      end
  end.

(** [handleGenerateREST(e)] up to its [await]; [typed] is the prompt of
    the render that created the handler. *)
Definition handleGenerateREST (typed : jstr) (f : Form) : Form :=
  if blank typed
  then setError (text "Please enter a test case description") f
  else
    post (JObj [(js "prompt", JStr typed)])
      (setProgressMessage
         (text "Generating test case... (this may take 30-60 seconds)")
         (setProgress (number 0) (setError (Some (JStr [])) (setLoading true f)))).

(** How [testCasesAPI.generate(prompt)] ends: it resolves with the data
    of the response, or it rejects with an error, of which the handler
    reads [code], [message] and [response?.data] (each [None] when
    missing). *)
Inductive Generated :=
| Resolved (response : json)
| Rejected (code : option jstr) (message : option jstr) (data : jsval).

(** [data?.k]. *)
Definition optional (data : jsval) (k : jstr) : jsval :=
  match data with
  | None | Some JNull => undefined
  | Some d => prop d k
  end.

(** The [catch] clause of [handleGenerateREST]. *)
Definition rest_failed (code message : option jstr) (data : jsval)
    (f : Form) : Form :=
  let errorMessage :=
    if match code with
       | Some c => jstr_eqb c (js "ECONNABORTED")
       | None => false
       end
       || match message with
          | Some m => includes m (js "timeout")
          | None => false
          end
    then text "Generation is taking longer than expected. The test case may still be created - please check the test cases list."
    else if truthy (optional data (js "detail"))
    then optional data (js "detail")
    else if truthy (optional data (js "error"))
    then optional data (js "error")
    else if str_truthy message then JStr <$> message
    else text "Failed to generate test case. Please try again." in
  setLoading false (setError errorMessage f).

(** [handleGenerateREST] from the end of the request on.  Reading
    [response.success] on a response that is [null] throws a TypeError,
    which the [catch] clause receives; [engine_message] is the message
    the engine gives it. *)
Definition rest_settled (engine_message : jstr) (r : Generated) (f : Form)
    : Form :=
  match r with
  | Rejected code message data => rest_failed code message data f
  | Resolved JNull => rest_failed None (Some engine_message) None f
  | Resolved response =>
      if truthy (prop response (js "success"))
         && truthy (prop response (js "test_case_id"))
      then
        navigate_after 500
          (js_or (prop response (js "redirect_url"))
             (Some (JStr (js "/test-case/"
                          ++ to_string (prop response (js "test_case_id"))))))
          (setProgressMessage
             (Some (JStr (10003 :: js " Complete! Redirecting...")))
             (setProgress (number 100) f))
      else
        let testCaseId :=
          js_or (prop response (js "id"))
            (optional (prop response (js "test_case")) (js "id")) in
        if truthy testCaseId
        then
          navigate_after 500
            (Some (JStr (js "/test-case/" ++ to_string testCaseId)))
            (setProgress (number 100) f)
        else
          setLoading false
            (setError
               (text "Test case generated but response format is unexpected. Please check the test cases list.")
               f)
  end.

(** [useWebSocket]: its setter is never called. *)
Definition useWebSocket : bool := true.

(** [handleGenerate(e)]. *)
Definition handleGenerate (loc : TestStepExecutor.Location) (f : Form)
    : Form :=
  if useWebSocket then handleGenerateWebSocket loc f
  else handleGenerateREST (prompt f) f.

(** The submit button is disabled while [loading || !prompt.trim()]. *)
Definition submit (loc : TestStepExecutor.Location) (f : Form) : Form :=
  if loading f || blank (prompt f) then f else handleGenerate loc f.

(** The frames sent on the socket. *)
Definition frames (f : Form) : list jstr :=
  match socket f with
  | Some w => TestStepExecutor.sent w
  | None => []
  end.

End CreateTestCase.

(** ** The mock target application: the side menu of [app.js] and
       [inventory.js] *)

Module MockPages.

(** [element.classList.toggle(token)] on the class list of an element,
    an ordered set of tokens: a token that is present is removed, one
    that is absent is added at the end. *)
Definition classList_toggle (token : jstr) (classes : list jstr)
    : list jstr :=
  if bool_decide (token ∈ classes)
  then filter (fun t => t <> token) classes
  else classes ++ [token].

(** [toggleSubmenu(event, menuId)] on the class lists of the elements
    that have an id. *)
Definition toggleSubmenu (menuId : jstr) (classes : gmap jstr (list jstr))
    : gmap jstr (list jstr) :=
  match classes !! menuId with
  | Some submenu => <[menuId := classList_toggle (js "active") submenu]> classes
  | None => classes
  end.

(** The inventory page as its script sees it: the values of the
    elements that have an id, the [checked] flags of the elements that
    match [.row-checkbox], in document order, and the calls of [alert]
    and of [console.log], oldest first. *)
Record Page := mkPage {
  values : gmap jstr jstr;
  row_checkboxes : list bool;
  alerts : list jstr;
  console : list jstr
}.

Definition alert (text : jstr) (p : Page) : Page :=
  mkPage (values p) (row_checkboxes p) (alerts p ++ [text]) (console p).

Definition console_log (text : jstr) (p : Page) : Page :=
  mkPage (values p) (row_checkboxes p) (alerts p) (console p ++ [text]).

(** How a call ends: it returns, or a TypeError escapes: a property of
    the [null] that [getElementById] returned was read or set. *)
Inductive outcome :=
| Done (p : Page)
| Threw (p : Page).

(** [document.getElementById(id).value = v]. *)
Definition set_value (id v : jstr) (p : Page) : outcome :=
  match values p !! id with
  | Some _ =>
      Done (mkPage (<[id := v]> (values p)) (row_checkboxes p) (alerts p)
              (console p))
  | None => Threw p
  end.

(** [filterInventory()]. *)
Definition filterInventory (p : Page) : outcome :=
  match values p !! js "warehouse" with
  | None => Threw p
  | Some warehouse =>
      match values p !! js "inventory-status" with
      | None => Threw p
      | Some status =>
          match values p !! js "product-category" with
          | None => Threw p
          | Some category =>
              Done (console_log
                      (js "Filtering: " ++ warehouse ++ js ", " ++ status
                       ++ js ", " ++ category) p)
          end
      end
  end.

(** [applyInventoryFilters()]. *)
Definition applyInventoryFilters (p : Page) : outcome :=
  match filterInventory p with
  | Done p1 => Done (alert (js "Filters applied successfully!") p1)
  | Threw p1 => Threw p1
  end.

(** [resetFilters()]. *)
Definition resetFilters (p : Page) : outcome :=
  match set_value (js "warehouse") [] p with
  | Threw p1 => Threw p1
  | Done p1 =>
      match set_value (js "inventory-status") [] p1 with
      | Threw p2 => Threw p2
      | Done p2 =>
          match set_value (js "product-category") [] p2 with
          | Threw p3 => Threw p3
          | Done p3 =>
              Done (alert (js "Filters have been reset!")
                      (console_log (js "Filters reset") p3))
          end
      end
  end.

(** [selectAll(checkbox)], with [checkbox.checked]. *)
Definition selectAll (checked : bool) (p : Page) : Page :=
  mkPage (values p) (map (fun _ => checked) (row_checkboxes p)) (alerts p)
    (console p).

(** [document.querySelectorAll('.row-checkbox:checked').length]. *)
Definition selected (p : Page) : nat :=
  length (filter (fun b => b = true) (row_checkboxes p)).

(** [openBulkUpdate()]. *)
Definition openBulkUpdate (p : Page) : Page :=
  if Nat.eqb (selected p) 0
  then alert (js "Please select items to update") p
  else alert (js "Opening bulk update for " ++ N_to_jstr (N.of_nat (selected p))
              ++ js " items") p.

End MockPages.

(** ** The API service: the URL of [testCasesAPI.getAll] *)

Module ApiService.

(** The conversion of a string to a scalar value string, as
    [URLSearchParams.append] performs it: the code points of the string,
    with U+FFFD in the place of every surrogate that is not part of a
    pair. *)
Fixpoint code_points (s : jstr) : list N :=
  match s with
  | [] => []
  | c :: s' =>
      if JSON.is_high_surrogate c then
        match s' with
        | d :: s'' =>
            if JSON.is_low_surrogate d
            then (65536 + (c - 55296) * 1024 + (d - 56320)) :: code_points s''
            else 65533 :: code_points s'
        | [] => [65533]
        end
      else if JSON.is_low_surrogate c then 65533 :: code_points s'
      else c :: code_points s'
  end.

(** The UTF-8 bytes of a code point. *)
Definition utf8 (cp : N) : list N :=
  if cp <? 128 then [cp]
  else if cp <? 2048 then [192 + cp / 64; 128 + cp mod 64]
  else if cp <? 65536
  then [224 + cp / 4096; 128 + (cp / 64) mod 64; 128 + cp mod 64]
  else [240 + cp / 262144; 128 + (cp / 4096) mod 64;
        128 + (cp / 64) mod 64; 128 + cp mod 64].

(** An upper-case hexadecimal digit. *)
Definition HEX (n : N) : N := if n <? 10 then 48 + n else 55 + n.

(** The bytes the [application/x-www-form-urlencoded] serializer leaves
    as they are: the ASCII letters and digits, [*], [-], [.] and [_]. *)
Definition unreserved (b : N) : bool :=
  ((97 <=? b) && (b <=? 122)) || ((65 <=? b) && (b <=? 90))
  || ((48 <=? b) && (b <=? 57))
  || (b =? 42) || (b =? 45) || (b =? 46) || (b =? 95).

(** One byte, percent-encoded unless it is unreserved, a space as [+]. *)
Definition encode_byte (b : N) : jstr :=
  if unreserved b then [b]
  else if b =? 32 then [43]
  else [37; HEX (b / 16); HEX (b mod 16)].

(** A name or a value of a parameter as the serializer writes it. *)
Definition urlencode (s : jstr) : jstr :=
  concat (map encode_byte (concat (map utf8 (code_points s)))).

(** [params.toString()]: the pairs [name=value], joined by [&]. *)
Definition URLSearchParams_toString (params : list (jstr * jstr)) : jstr :=
  join_with [38]
    (map (fun nv => urlencode (fst nv) ++ [61] ++ urlencode (snd nv)) params).

(** The [filters] argument of [getAll]: [status] and [search], strings
    or missing. *)
Record Filters := mkFilters {
  status : option jstr;
  search : option jstr
}.

(** The parameters [getAll] appends, in their order. *)
Definition params (filters : Filters) : list (jstr * jstr) :=
  (if str_truthy (status filters)
   then [(js "status_filter", default [] (status filters))] else [])
  ++ (if str_truthy (search filters)
      then [(js "search", default [] (search filters))] else []).

(** The URL [getAll(filters)] requests. *)
Definition getAll_url (filters : Filters) : jstr :=
  let queryString := URLSearchParams_toString (params filters) in
  if jstr_eqb queryString [] then js "/api/test-cases"
  else js "/api/test-cases?" ++ queryString.

End ApiService.

(** ** The execution subsystem of the back end

    The back end ([app/websocket/test_execution.py] and the Selenium
    service it drives) is not among the sources; only its README and its
    client are.  Every definition of this module is therefore written
    from the specification (sections 3, 4.1 to 4.3, 5 and 6) and says so. *)

Module Orchestrator.

(** Modelled from the spec: the back end's command type is missing; a
    validated Command descriptor (section 3) is an action tag with the
    flat record it came from. *)
Record Command := mkCommand {
  action : jstr;
  fields : list (jstr * json)
}.

(** Modelled from the spec: the back end's validation errors are missing;
    the ways a stored payload fails section 4.1. *)
Inductive ValidationError :=
| CodeIndicator (marker : jstr)
| NotParseable
| NotASequence
| NotAFlatRecord
| UnrecognizedAction.

(** Modelled from the spec: the driver adapter is missing; what its
    [dispatch] yields (section 4.2): [ok] with an optional image,
    [failed(reason)], or a failure of the adapter itself (section 7,
    InfrastructureError). *)
Inductive Outcome :=
| Ok (artifact : option jstr)
| CommandFailed (reason : jstr)
| Crashed (reason : jstr).

(** Modelled from the spec: the status an [execution_complete] event
    carries (section 6). *)
Inductive Status := passed | failed.

(** Modelled from the spec: the event kinds a session emits (section 6). *)
Inductive EventKind :=
| Progress (action : jstr)
| Screenshot (image : jstr)
| ExecutionComplete (status : Status) (error : option jstr)
| ExecutionError (error : jstr).

(** Modelled from the spec: the event value object of section 3: sequence
    number, step and payload. *)
Record Event := mkEvent {
  seq : N;
  step_id : Z;
  kind : EventKind
}.

(** Modelled from the spec: the terminal events of the glossary,
    [execution_complete] and [execution_error]. *)
Definition terminal (e : Event) : bool :=
  match kind e with
  | ExecutionComplete _ _ | ExecutionError _ => true
  | _ => false
  end.

(** Modelled from the spec: the wire names of the statuses (section 6). *)
Definition status_name (st : Status) : jstr :=
  match st with
  | passed => js "passed"
  | failed => js "failed"
  end.

(** Modelled from the spec: the [type] field of an event's message
    (section 6). *)
Definition type_name (k : EventKind) : jstr :=
  match k with
  | Progress _ => js "progress"
  | Screenshot _ => js "screenshot"
  | ExecutionComplete _ _ => js "execution_complete"
  | ExecutionError _ => js "execution_error"
  end.

(** Modelled from the spec: the fields an event's kind adds to its
    message (section 6; the error text of a failed step as in scenario B
    of section 8). *)
Definition payload (k : EventKind) : list (jstr * json) :=
  match k with
  | Progress a => [(js "action", JStr a)]
  | Screenshot image => [(js "image", JStr image)]
  | ExecutionComplete st None => [(js "status", JStr (status_name st))]
  | ExecutionComplete st (Some reason) =>
      [(js "status", JStr (status_name st)); (js "error", JStr reason)]
  | ExecutionError err => [(js "error", JStr err)]
  end.

(** Modelled from the spec: the Event Protocol Codec (sections 2 and 6),
    which is missing with the rest of the back end: the JSON message of
    an event, with its type, its step, its sequence number and the
    fields of its kind. *)
Definition encode (e : Event) : json :=
  JObj ([(js "type", JStr (type_name (kind e)));
         (js "step_id", JNum (step_id e));
         (js "seq", JNum (Z.of_N (seq e)))] ++ payload (kind e)).

(** Modelled from the spec: the states of section 4.3. *)
Inductive SessionState :=
| Idle | Initializing | Running | Completed | Failed | Cancelled | Errored.

(** Modelled from the spec: the store is missing; a step as the session
    reads it (section 1): its identity and the raw text of its command
    array.  The human-readable script text is not part of what a session
    reads. *)
Record StoredStep := mkStoredStep {
  stored_id : Z;
  commands_raw : jstr
}.

Section Session.

(** The action tags the validator recognises and the source-code
    indicators it scans for; the specification names examples of both
    and fixes neither list. *)
Variable recognized_actions : list jstr.
Variable code_indicators : list jstr.

(** The automation driver, an external collaborator: its state, whether
    it can be acquired, and its [dispatch]. *)
Variable Driver : Type.
Variable acquire : option Driver.
Variable dispatch : Command -> Driver -> Outcome * Driver.

(** Modelled from the spec: the validator's scan of the raw text for
    source-code indicators (section 4.1, third rule); the back end's
    validation code is missing. *)
Definition found_indicator (raw : jstr) : option jstr :=
  find (fun marker => includes raw marker) code_indicators.

(** Modelled from the spec: a field of a flat record holds no nested
    record or sequence (section 4.1, first rule). *)
Definition scalar (v : json) : bool :=
  match v with
  | JArr _ | JObj _ => false
  | _ => true
  end.

(** Modelled from the spec: one element of the stored array must be a
    flat record with a recognized action tag (section 4.1, first and
    second rule). *)
Definition validate_record (v : json) : ValidationError + Command :=
  match v with
  | JObj ms =>
      if forallb (fun kv => scalar (snd kv)) ms then
        match assoc (js "action") ms with
        | Some (JStr a) =>
            if existsb (jstr_eqb a) recognized_actions
            then inr (mkCommand a ms)
            else inl UnrecognizedAction
        | _ => inl UnrecognizedAction
        end
      else inl NotAFlatRecord
  | _ => inl NotAFlatRecord
  end.

(** Modelled from the spec: every element is validated, in order; the
    first failure is the result (section 4.1). *)
Fixpoint validate_records (items : list json)
    : ValidationError + list Command :=
  match items with
  | [] => inr []
  | v :: rest =>
      match validate_record v with
      | inl e => inl e
      | inr c =>
          match validate_records rest with
          | inl e => inl e
          | inr cs => inr (c :: cs)
          end
      end
  end.

(** Modelled from the spec: the Command Validator of section 4.1, a pure
    function from the stored raw value to a validated sequence or a
    validation failure. *)
Definition validate (raw : jstr) : ValidationError + list Command :=
  match found_indicator raw with
  | Some marker => inl (CodeIndicator marker)
  | None =>
      match JSON.parse raw with
      | None => inl NotParseable
      | Some (JArr items) => validate_records items
      | Some _ => inl NotASequence
      end
  end.

(** Modelled from the spec: the target is the reserved login step
    itself (section 3); the back end's session code is missing. *)
Definition is_login (login target : StoredStep) : bool :=
  (stored_id login =? stored_id target)%Z.

(** Modelled from the spec: the effective command sequence of sections 3
    and 4.3: for a target other than the login step, the login step's
    validated commands followed by the target's own. *)
Definition effective_sequence (login target : StoredStep)
    : ValidationError + list Command :=
  if is_login login target then validate (commands_raw target)
  else
    match validate (commands_raw login) with
    | inl e => inl e
    | inr prefix =>
        match validate (commands_raw target) with
        | inl e => inl e
        | inr own => inr (prefix ++ own)
        end
    end.

(** Modelled from the spec: the Execution Session of section 3: its
    state, its target, the next sequence number, the events it has
    emitted (oldest first), the commands it has handed to the driver, and
    the driver it has acquired, if any (the release of the driver at the
    end of the session is not modelled). *)
Record Session := mkSession {
  state : SessionState;
  target_id : Z;
  next_seq : N;
  emitted : list Event;
  driver_calls : list Command;
  adapter : option Driver
}.

(** Modelled from the spec: an emitted event takes the next sequence
    number (section 5, ordering guarantees). *)
Definition emit (k : EventKind) (s : Session) : Session :=
  mkSession (state s) (target_id s) (next_seq s + 1)
    (emitted s ++ [mkEvent (next_seq s) (target_id s) k])
    (driver_calls s) (adapter s).

(** Modelled from the spec: a transition of the state machine of
    section 4.3. *)
Definition enter (st : SessionState) (s : Session) : Session :=
  mkSession st (target_id s) (next_seq s) (emitted s) (driver_calls s)
    (adapter s).

(** Modelled from the spec: a dispatch hands one command to the driver
    (section 4.2). *)
Definition called (c : Command) (d : Driver) (s : Session) : Session :=
  mkSession (state s) (target_id s) (next_seq s) (emitted s)
    (driver_calls s ++ [c]) (Some d).

(** Modelled from the spec: entering a terminal state emits the single
    terminal event (section 4.3). *)
Definition finish (st : SessionState) (k : EventKind) (s : Session)
    : Session :=
  enter st (emit k s).

(** Modelled from the spec: the Running state of section 4.3: for each
    command a progress event before the dispatch and a screenshot
    event after it when the adapter returned an image; the first
    failure ends the run. *)
Fixpoint run_commands (cmds : list Command) (d : Driver) (s : Session)
    : Session :=
  match cmds with
  | [] => finish Completed (ExecutionComplete passed None) s
  | c :: rest =>
      let s1 := emit (Progress (action c)) s in
      match dispatch c d with
      | (Ok artifact, d') =>
          let s2 := called c d' s1 in
          let s3 := match artifact with
                    | Some image => emit (Screenshot image) s2
                    | None => s2
                    end in
          run_commands rest d' s3
      | (CommandFailed reason, d') =>
          finish Failed (ExecutionComplete failed (Some reason))
            (called c d' s1)
      | (Crashed reason, d') =>
          finish Errored (ExecutionError reason) (called c d' s1)
      end
  end.

(** Modelled from the spec: the error text of a validation failure; the
    specification only says that it contains the word invalid
    (section 8, scenario C). *)
Definition validation_message (e : ValidationError) : jstr :=
  js "invalid command data".

(** Modelled from the spec: a step-level session from the accepted
    request to its terminal state (section 4.3): validation first, and
    on a validation failure the terminal error without acquiring the
    driver. *)
Definition execute_step (login target : StoredStep) : Session :=
  let s0 := mkSession Initializing (stored_id target) 0 [] [] None in
  match effective_sequence login target with
  | inl e => finish Failed (ExecutionError (validation_message e)) s0
  | inr cmds =>
      match acquire with
      | None =>
          finish Errored (ExecutionError (js "driver unavailable")) s0
      | Some d => run_commands cmds d (enter Running s0)
      end
  end.

End Session.

Arguments state {Driver} s.
Arguments target_id {Driver} s.
Arguments next_seq {Driver} s.
Arguments emitted {Driver} s.
Arguments driver_calls {Driver} s.
Arguments adapter {Driver} s.
Arguments emit {Driver} k s.
Arguments enter {Driver} st s.
Arguments called {Driver} c d s.
Arguments finish {Driver} st k s.
Arguments run_commands {Driver} dispatch cmds d s.
Arguments execute_step recognized_actions code_indicators {Driver}
  acquire dispatch login target.

End Orchestrator.

(* ===================================================================== *)
(** * Part II: the vocabulary of the statements, and sample data          *)
(* ===================================================================== *)

Section MockSiteVocabulary.
Import MockSite.

(** The document of a protected page: it has the user-name display. *)
Definition dashboard_doc : gmap jstr Element :=
  {[ js "username-display" := mkElement [] [] [] ]}.

(** The login page with its form filled in, before any script has run. *)
Definition login_form (username password : jstr) : Browser :=
  mkBrowser (js "/index.html") None ∅
    (<[js "username" := mkElement username [] []]>
       (<[js "password" := mkElement password [] []]>
          {[ js "error-message" := mkElement [] [] (js "none") ]})).

End MockSiteVocabulary.

Section StepsVocabulary.
Import Api TestCaseDetail.

(** Ascending ordinal order. *)
Definition step_le (a b : Step) : Prop := (step_number a <= step_number b)%Z.

(** Three steps of a case, named by their ordinals. *)
Definition step3 : Step := mkStep 12 3 None None None None.

Definition step1 : Step := mkStep 10 1 None None None None.

Definition step2 : Step := mkStep 11 2 None None None None.

End StepsVocabulary.

Section StyleVocabulary.
Import Api Lookup.

(** A table is defined exactly on a set of keys. *)
Definition defined_exactly_on (table : list (jstr * jstr))
    (dom : list jstr) : Prop :=
  forall k, is_Some (own k table) <-> k ∈ dom.

End StyleVocabulary.

Section ClientVocabulary.
Import Api TestStepExecutor.





(** The development server the front end is served from. *)
Definition here : Location := mkLocation (js "http:") (js "localhost:5173").

(** A step with generated commands and its display-only script. *)
Definition step5 : Step :=
  mkStep 5 2 (Some (js "Open the forecast page"))
    (Some (js "driver.get(url)"))
    (Some (jsq "[{'action':'navigate','target':'http://localhost:3001/forecast.html'}]"))
    (Some (js "not_run")).




(** The run of [step5] once its socket is open. *)
Definition running5 : State :=
  deliver (click_run_step here step5 initial) EvOpen.

(** The client sends the server a request message of type
    [execute_step] that carries the step's id. *)
Definition sends_execute_step (st : State) (step : Step) : Prop :=
  exists frame data,
    frame ∈ frames_sent st
    /\ JSON.parse frame = Some data
    /\ is_string (prop data (js "type")) (js "execute_step") = true
    /\ prop data (js "step_id") = Some (JNum (id step)).

End ClientVocabulary.

Section SessionVocabulary.
Import Orchestrator.

(** An event that does not end the session. *)
Definition live (e : Event) : Prop := terminal e = false.

(** A session that has not ended: its events are numbered in
    increasing order below the next number, and none is terminal. *)
Definition running {Driver : Type} (s : Session Driver) : Prop :=
  StronglySorted N.lt (map Orchestrator.seq (emitted s))
  /\ Forall (fun e => Orchestrator.seq e < next_seq s) (emitted s)
  /\ Forall live (emitted s).

(** A session that has ended, seen from the events [before] it: the
    events after [before] are live ones and then one terminal event
    with the largest number. *)
Definition ended_after {Driver : Type} (before : list Event)
    (s : Session Driver) : Prop :=
  exists more last,
    emitted s = before ++ more ++ [last]
    /\ terminal last = true
    /\ Forall live (before ++ more)
    /\ Forall (fun e => Orchestrator.seq e < Orchestrator.seq last)
         (before ++ more)
    /\ StronglySorted N.lt (map Orchestrator.seq (emitted s))
    /\ (state s = Completed <-> kind last = ExecutionComplete passed None).

(** Indicators of Python source: [import], [def], [class], and a colon
    followed by an indented line. *)
Definition python_markers : list jstr :=
  [js "import "; js "def "; js "class "; [58; 10; 32; 32; 32; 32]].

(** The action tags the specification names. *)
Definition selenium_actions : list jstr :=
  [js "navigate"; js "click"; js "type"; js "wait"; js "assert";
   js "screenshot"].

(** A driver on which every command succeeds and only [screenshot]
    returns an image. *)
Definition obliging (c : Command) (d : unit) : Outcome * unit :=
  (Ok (if jstr_eqb (action c) (js "screenshot")
       then Some (js "iVBORw0KGgo=") else None), d).

(** A login step, a step whose stored payload is Python text (scenario
    C of the specification), and a step with two commands. *)
Definition login_step : StoredStep :=
  mkStoredStep 1
    (jsq "[{'action':'navigate','target':'http://localhost:3001'},{'action':'type','target':'#username','value':'testuser'},{'action':'click','target':'#login-button'}]").

Definition python_step : StoredStep :=
  mkStoredStep 5 (js "def run():" ++ [10] ++ js "    pass").

Definition forecast_step : StoredStep :=
  mkStoredStep 5
    (jsq "[{'action':'navigate','target':'http://localhost:3001/forecast.html'},{'action':'screenshot'}]").

(** The validated commands of the two well-formed steps. *)
Definition login_commands : list Command :=
  Eval vm_compute in
    match validate selenium_actions python_markers (commands_raw login_step) with
    | inr cs => cs
    | inl _ => []
    end.

Definition forecast_commands : list Command :=
  Eval vm_compute in
    match validate selenium_actions python_markers
            (commands_raw forecast_step) with
    | inr cs => cs
    | inl _ => []
    end.

End SessionVocabulary.

Section WireVocabulary.
Import TestStepExecutor Orchestrator.

(** The socket events by which the events of a session reach the client,
    in the order of their emission. *)
Definition wire (events : list Event) : list ws_event :=
  map (fun e => EvMessage (Some (encode e))) events.

(** What the client has done once the terminal event [last] of a run has
    reached it, [st] being its state when the run's socket opened: it
    has reported the status of an [execution_complete], or alerted the
    error of an [execution_error], and nothing else. *)
Definition settled (last : Event) (st st' : State) : Prop :=
  match kind last with
  | ExecutionComplete status _ =>
      statusUpdates st' = statusUpdates st ++ [Some (JStr (status_name status))]
      /\ alerts st' = alerts st
  | ExecutionError err =>
      alerts st' = alerts st ++ [js "Execution error: " ++ err]
      /\ statusUpdates st' = statusUpdates st
  | _ => False
  end.

End WireVocabulary.

Section JsonVocabulary.
Import JSON.

(** A decimal digit. *)
Definition is_digit (c : N) : Prop := 48 <= c <= 57.

(** A number of units that is a value of the format, zero included. *)
Definition representable (u : Z) : Prop :=
  (0 <= u /\ u mod 2 ^ spacing u = 0)%Z.

(** Two decimals that denote the same rational. *)
Definition same_decimal (s t s' t' : Z) : Prop :=
  (s * 10 ^ Z.max 0 t * 10 ^ Z.max 0 (- t')
   = s' * 10 ^ Z.max 0 t' * 10 ^ Z.max 0 (- t))%Z.

(** A sequence of decimal digits. *)
Definition all_digits (ds : jstr) : Prop := forallb is_digit_char ds = true.

(** The text does not go on with a digit. *)
Definition digits_end (rest : jstr) : Prop :=
  match rest with
  | [] => True
  | c :: _ => is_digit_char c = false
  end.

(** A number literal ends here: no further digit, no fraction and no
    exponent. *)
Definition literal_ends (rest : jstr) : Prop :=
  match rest with
  | [] => True
  | c :: _ => is_digit_char c = false /\ c <> 46 /\ c <> 101 /\ c <> 69
  end.

(** An integer of magnitude at most [Number.MAX_SAFE_INTEGER]. *)
Definition safe (z : Z) : Prop := (Z.abs z <= 9007199254740991)%Z.

(** The order of the own property keys of an object: integer-indexed keys
    by ascending index, before all other keys. *)
Definition key_before (a b : jstr) : Prop :=
  match array_index a, array_index b with
  | Some i, Some j => i < j
  | Some _, None => True
  | None, Some _ => False
  | None, None => True
  end.

(** The keys of a member list, in its order. *)
Definition member_keys (ms : list (jstr * json)) : list jstr := map fst ms.

(** A member list in property order, without repeated keys. *)
Definition ordered (ms : list (jstr * json)) : Prop :=
  StronglySorted key_before (member_keys ms) /\ NoDup (member_keys ms).

#[local] Unset Elimination Schemes.

(** A value of [JDbl]: a finite one is a value of the format that is
    not an integer of the safe range. *)
Definition proper (x : double) : Prop :=
  match x with
  | Finite _ u =>
      representable (Zpos u) /\ (Zpos u < overflow_units)%Z
      /\ safe_integer (Zpos u) = None
  | NegZero | Infinite _ => True
  end.

(** Values as [JSON.parse] produces them: every number a Number in its
    one representation, and the members of every object in property
    order. *)
Inductive well_formed : json -> Prop :=
| well_formed_null : well_formed JNull
| well_formed_bool b : well_formed (JBool b)
| well_formed_num n : safe n -> well_formed (JNum n)
| well_formed_dbl x : proper x -> well_formed (JDbl x)
| well_formed_str s : well_formed (JStr s)
| well_formed_arr items :
    Forall well_formed items -> well_formed (JArr items)
| well_formed_obj ms :
    ordered ms -> Forall well_formed (map snd ms) -> well_formed (JObj ms).

#[local] Set Elimination Schemes.

(** An indentation: spaces only. *)
Definition spaces (indent : jstr) : Prop := Forall (fun c => c = 32) indent.

(** What follows a value in the text [JSON.stringify] writes: the end, a
    comma or a line break. *)
Definition follows (rest : jstr) : Prop :=
  match rest with
  | [] => True
  | c :: _ => c = 44 \/ c = 10
  end.

(** The text of a value starts with a character that is neither white
    space nor a closing bracket. *)
Definition starts_value (t : jstr) : Prop :=
  exists c t', t = c :: t' /\ is_ws c = false /\ c <> 93 /\ c <> 125.

(** What the text of a value holds of it: an infinity is written as
    [null] and the negative zero as [0]; everything else is written as
    it is. *)
Fixpoint written (v : json) : json :=
  match v with
  | JDbl NegZero => JNum 0
  | JDbl (Infinite _) => JNull
  | JArr items => JArr (map written items)
  | JObj ms => JObj (map (fun kv => (fst kv, written (snd kv))) ms)
  | _ => v
  end.

(** A value without an infinity and without the negative zero, at any
    depth. *)
Fixpoint exact (v : json) : bool :=
  match v with
  | JDbl NegZero | JDbl (Infinite _) => false
  | JArr items => forallb exact items
  | JObj ms => forallb (fun kv => exact (snd kv)) ms
  | _ => true
  end.

(** A value without an infinity, at any depth. *)
Fixpoint finite (v : json) : bool :=
  match v with
  | JDbl (Infinite _) => false
  | JArr items => forallb finite items
  | JObj ms => forallb (fun kv => finite (snd kv)) ms
  | _ => true
  end.

(** The value with [0] for every negative zero: the two zeros are equal
    for [===], and no operation of the sources tells them apart. *)
Fixpoint unsigned_zeros (v : json) : json :=
  match v with
  | JDbl NegZero => JNum 0
  | JArr items => JArr (map unsigned_zeros items)
  | JObj ms => JObj (map (fun kv => (fst kv, unsigned_zeros (snd kv))) ms)
  | _ => v
  end.

(** The text of [v] at any indentation, followed by [rest], is read back
    as what was written of [v], with [rest] left over. *)
Definition reads_back (v : json) : Prop :=
  forall indent rest fuel,
    spaces indent -> follows rest ->
    (length (stringify_at gap2 indent v) < fuel)%nat ->
    parse_value fuel (stringify_at gap2 indent v ++ rest)
    = Some (written v, rest).

(** The separator between two elements at indentation [inner]. *)
Definition separator (inner : jstr) : jstr := 44 :: 10 :: inner.

(** The text of one member. *)
Definition member_text (inner : jstr) (kv : jstr * json) : jstr :=
  quote (fst kv) ++ [58; 32] ++ stringify_at gap2 inner (snd kv).

End JsonVocabulary.

Section ExportVocabulary.
Import Api ViewScriptModal.

(** A stored payload with escapes, integer-like keys, a repeated use of
    white space and nested values, the step that holds it and the array
    it parses to. *)
Definition stored_commands : jstr :=
  jsq "[{'action':'type','target':'#username','value':'test\u00e9 \'user\'','1':0,'0':-12},{'action':'click','target':'#login-button','description':null}, {'action' : 'wait', 'value' : 2, 'tags' : [ ], 'opts' : { 'b' : true , 'a' : [false] }}]".

Definition stored_step : Step :=
  mkStep 9 4 None None (Some stored_commands) None.

Definition parsed_commands : list json :=
  Eval vm_compute in
    match JSON.parse stored_commands with
    | Some (JArr items) => items
    | _ => []
    end.

(** A stored payload with a number too large for the Number type, and
    the array it parses to. *)
Definition overflow_commands_text : jstr :=
  jsq "[{'action':'wait','value':1e999}]".

Definition overflow_commands : list json :=
  [JObj [(js "action", JStr (js "wait"));
         (js "value", JDbl (Infinite false))]].

(** A stored payload with fractions, exponents and a negative zero, the
    step that holds it and the array it parses to. *)
Definition timed_commands_text : jstr :=
  jsq "[{'action':'wait','value':0.5},{'action':'scroll','value':-2.25e-3,'limit':1E21,'offset':-0}]".

Definition timed_step : Step :=
  mkStep 10 5 None None (Some timed_commands_text) None.

Definition timed_commands : list json :=
  Eval vm_compute in
    match JSON.parse timed_commands_text with
    | Some (JArr items) => items
    | _ => []
    end.

(** One half, and the Number of the literal [1E21]. *)
Definition half : double := Finite false (2 ^ 1073).

Definition sextillion : double :=
  Finite false (Z.to_pos (1000000000000000000000 * 2 ^ 1074)).

End ExportVocabulary.

Section ExportFileVocabulary.
Import Api ExportFile.

(** A lower-case ASCII letter or a digit. *)
Definition is_lower_alnum (c : N) : bool :=
  ((97 <=? c) && (c <=? 122)) || ((48 <=? c) && (c <=? 57)).

(** The characters of a sanitized name. *)
Definition name_unit (c : N) : bool := is_lower_alnum c || (c =? 95).


(** A sanitized name: lower-case letters, digits and underscores, no two
    underscores in a row. *)
Definition clean (s : jstr) : Prop :=
  forallb name_unit s = true /\ includes s (js "__") = false.

(** A value that is an object or an array. *)
Definition is_structure (v : json) : bool :=
  match v with
  | JArr _ | JObj _ => true
  | _ => false
  end.


(** The third command of the sample payload and its field [opts]. *)
Definition wait_command : json :=
  Eval vm_compute in default JNull (parsed_commands !! 2%nat).

Definition opts_value : json :=
  JObj [(js "b", JBool true); (js "a", JArr [JBool false])].

End ExportFileVocabulary.

Section StatusLabelVocabulary.
Import StatusLabel.

(** A lower-case ASCII letter. *)
Definition is_lower (c : N) : bool := (97 <=? c) && (c <=? 122).

(** The characters of a status name as the back end writes them:
    lower-case letters and underscores. *)
Definition status_unit (c : N) : bool := is_lower c || (c =? 95).

(** The position starts a word: it is the first one, or an underscore
    precedes it. *)
Definition starts_word (s : jstr) (i : nat) : bool :=
  match i with
  | O => true
  | S j => bool_decide (s !! j = Some 95)
  end.

(** What a label shows at position [i], where the status has [c]. *)
Definition shown (s : jstr) (i : nat) (c : N) : N :=
  if c =? 95 then 32
  else if starts_word s i then c - 32
  else c.

(** The label read from left to right: [start] tells whether the next
    letter starts a word. *)
Fixpoint title (start : bool) (s : jstr) : jstr :=
  match s with
  | [] => []
  | c :: s' =>
      if c =? 95 then 32 :: title true s'
      else (if start then c - 32 else c) :: title false s'
  end.

(** A case mapping agrees with Unicode on the lower-case ASCII letters
    and on the empty string. *)
Definition upper_on_ascii (toUpperCase : jstr -> jstr) : Prop :=
  toUpperCase [] = []
  /\ forall c, is_lower c = true -> toUpperCase [c] = [c - 32].

(** The ASCII part of the upper-case mapping. *)
Definition ascii_upper (s : jstr) : jstr :=
  map (fun c => if is_lower c then c - 32 else c) s.

End StatusLabelVocabulary.

Section StepEditorVocabulary.
Import Api TestStepExecutor StepEditor.

(** The reply adopts a script: the response is OK and its body is an
    object whose [selenium_script] is the non-empty string [script]. *)
Definition adopts (r : Reply) (script : jstr) : Prop :=
  exists text members,
    r = Replied true text (Some (JObj members))
    /\ assoc (js "selenium_script") members = Some (JStr script)
    /\ script <> [].

(** The script, the commands and the visibility of the script panel. *)
Definition script_state (c : Component) :=
  (editedScript c, editedScriptJson c, showScript c).

(** The text of the progress line, when it is a string. *)
Definition progress_text_of (c : Component) : option jstr :=
  match progress (run c) with
  | Some (JStr s) => Some s
  | _ => None
  end.

(** The progress line is an error line with a message that is not
    empty, shown in the red class. *)
Definition shows_error (c : Component) : Prop :=
  exists m,
    m <> []
    /\ progress_text_of c = Some (js "Error: " ++ m)
    /\ progress_class (js "Error: " ++ m)
       = Some (js "bg-red-50 text-red-700 border border-red-200").

(** The text of the user in the two fields of the editor. *)
Definition typed (c : Component) := (editedDescription c, editedExpectedResult c).

Definition red : jstr := js "bg-red-50 text-red-700 border border-red-200".

Definition green : jstr :=
  js "bg-green-50 text-green-700 border border-green-200".

(** Sample props and a reply with a script. *)
Definition props5 : Props := mkProps step5 None (Some 3%Z) true true.

Definition script_reply : Reply :=
  Replied true []
    (Some (JObj [(js "selenium_script", JStr (js "driver.get(url)"));
                 (js "selenium_script_json", JStr (js "[]"))])).

End StepEditorVocabulary.

Section CreateTestCaseVocabulary.
Import CreateTestCase.

(** The form as it is first rendered, with a prompt typed in. *)
Definition form_with (typed : jstr) : Form :=
  mkForm typed false (Some (JStr [])) (number 0) (Some (JStr [])) (number 0) (number 0)
    None [] 0%nat [].

(** A message that is neither of the two that end a generation. *)
Definition not_final (data : json) : bool :=
  negb (is_string (prop data (js "type")) (js "generation_complete"))
  && negb (is_string (prop data (js "type")) (js "generation_error")).

(** An event of a generation that goes on: the opening of the socket, a
    frame that is not JSON, or a message that is not final. *)
Definition goes_on (ev : TestStepExecutor.ws_event) : bool :=
  match ev with
  | TestStepExecutor.EvOpen => true
  | TestStepExecutor.EvMessage None => true
  | TestStepExecutor.EvMessage (Some data) => not_final data
  | TestStepExecutor.EvError => false
  | TestStepExecutor.EvClose => false
  end.

(** The state of the socket of the form. *)
Definition socket_ready (f : Form) : option TestStepExecutor.ReadyState :=
  TestStepExecutor.readyState <$> socket f.

Definition close_count (f : Form) : nat :=
  match socket f with
  | Some w => TestStepExecutor.closeCalls w
  | None => 0%nat
  end.

Definition sample_prompt : jstr := js "  Test the BOM page" ++ [10].




End CreateTestCaseVocabulary.

Section MockPagesVocabulary.
Import MockSite MockPages.

(** The three filters of the inventory page. *)
Definition inventory_filters : list jstr :=
  [js "warehouse"; js "inventory-status"; js "product-category"].

(** An inventory page with its three filters set and three rows. *)
Definition inventory_page : Page :=
  mkPage
    (<[js "warehouse" := js "WH-01"]>
       (<[js "inventory-status" := js "low"]>
          {[ js "product-category" := js "snacks" ]}))
    [false; true; false] [] [].

(** A session storage that does not hold the keys of the login. *)
Definition logged_out (store : gmap jstr jstr) : Prop :=
  store !! js "o9-username" = None /\ store !! js "o9-logged-in" = None.

(** The path of a page the guard protects. *)
Definition protected (path : jstr) : Prop :=
  includes path (js "index.html") = false /\ path <> js "/".

End MockPagesVocabulary.

Section ApiServiceVocabulary.
Import ApiService.

(** A string of UTF-16 code units. *)
Definition utf16 (s : jstr) : Prop := Forall (fun c => c < 65536) s.

(** The characters of an encoded name or value: unreserved bytes, the
    percent sign and the plus sign. *)
Definition encoded_unit (c : N) : bool :=
  unreserved c || (c =? 37) || (c =? 43).

(** The number of occurrences of a character. *)
Fixpoint occurrences (c : N) (s : jstr) : nat :=
  match s with
  | [] => 0%nat
  | d :: s' => ((if (d =? c)%N then 1 else 0) + occurrences c s')%nat
  end.

(** The number of filters that are given. *)
Definition given (filters : Filters) : nat :=
  ((if str_truthy (status filters) then 1 else 0)
   + (if str_truthy (search filters) then 1 else 0))%nat.

(** The filters are strings of UTF-16 code units. *)
Definition utf16_filters (filters : Filters) : Prop :=
  utf16 (default [] (status filters)) /\ utf16 (default [] (search filters)).

(** A search text that tries to add a parameter. *)
Definition sly_filters : Filters :=
  mkFilters (Some (js "approved")) (Some (js "bom & forecast=1#top")).

End ApiServiceVocabulary.

(* ===================================================================== *)
(** * Part III: properties                                                *)
(* ===================================================================== *)

(** ** JavaScript values *)

Section JsFacts.

Lemma jstr_eqb_true (a b : jstr) : jstr_eqb a b = true <-> a = b.
Proof. unfold jstr_eqb. apply bool_decide_eq_true. Qed.

Lemma jstr_eqb_false (a b : jstr) : jstr_eqb a b = false <-> a <> b.
Proof. unfold jstr_eqb. apply bool_decide_eq_false. Qed.

Lemma str_truthy_Some (s : jstr) : str_truthy (Some s) = true <-> s <> [].
Proof.
  unfold str_truthy. rewrite negb_true_iff. apply jstr_eqb_false.
Qed.

Example includes_substring :
  includes (js "/pages/index.html") (js "index.html") = true
  /\ includes (js "/dashboard.html") (js "index.html") = false.
Proof. split; reflexivity. Qed.

Example replace_first_port :
  replace_first (js ":5173") (js ":8000") (js "localhost:5173")
  = js "localhost:8000"
  /\ replace_first (js ":5173") (js ":8000") (js "example.org")
     = js "example.org".
Proof. split; reflexivity. Qed.

Example to_string_values :
  to_string None = js "undefined"
  /\ to_string (Some (JNum (-12))) = js "-12"
  /\ to_string (Some (JArr [JNum 1; JNull; JStr (js "a")])) = js "1,,a"
  /\ to_string (Some (JObj [])) = js "[object Object]".
Proof. repeat split. Qed.

Example or_falls_through_falsy :
  js_or (Some (JStr [])) (Some (JStr (js "click"))) = Some (JStr (js "click"))
  /\ js_or None (Some (JNum 0)) = Some (JNum 0)
  /\ js_or (Some (JStr (js "a"))) None = Some (JStr (js "a")).
Proof. repeat split. Qed.

End JsFacts.

(** ** The mock site's login and its page guard *)

Section MockSiteClaims.
Import MockSite.

Lemma checkAuth_href (w : Browser) :
  href (checkAuth w) =
  if negb (str_truthy (getItem (js "o9-logged-in") w))
     && negb (includes (pathname w) (js "index.html"))
     && negb (jstr_eqb (pathname w) (js "/"))
  then Some (js "index.html") else href w.
Proof.
  unfold checkAuth.
  destruct (negb (str_truthy (getItem (js "o9-logged-in") w))
            && negb (includes (pathname w) (js "index.html"))
            && negb (jstr_eqb (pathname w) (js "/"))) eqn:E;
    repeat match goal with
           | |- context [match ?x with _ => _ end] => destruct x
           end; reflexivity.
Qed.

Lemma checkAuth_storage (w : Browser) :
  sessionStorage (checkAuth w) = sessionStorage w.
Proof.
  unfold checkAuth.
  repeat match goal with
         | |- context [match ?x with _ => _ end] => destruct x
         end; reflexivity.
Qed.

Lemma checkAuth_logged_in_stays (w : Browser) :
  str_truthy (getItem (js "o9-logged-in") w) = true ->
  href (checkAuth w) = href w.
Proof.
  intros H. rewrite checkAuth_href, H. reflexivity.
Qed.

(** C9. On every load of a page whose path is neither the login page
    ([index.html] does not occur in it) nor the site root, a session
    storage without the key [o9-logged-in] makes the page's
    DOMContentLoaded handler set [window.location.href] to
    [index.html]; the guard itself never authenticates, it leaves the
    storage as it found it. *)
Theorem checkAuth_redirects_unauthenticated
    (path : jstr) (store : gmap jstr jstr) (doc : gmap jstr Element) :
  store !! js "o9-logged-in" = None ->
  includes path (js "index.html") = false ->
  path <> js "/" ->
  href (page_load path store doc) = Some (js "index.html")
  /\ sessionStorage (page_load path store doc) = store.
Proof.
  intros Hkey Hpage Hroot. unfold page_load, onDOMContentLoaded. split.
  - rewrite checkAuth_href. unfold getItem. cbn [sessionStorage pathname].
    rewrite Hkey, Hpage. cbn [str_truthy negb andb].
    apply jstr_eqb_false in Hroot. rewrite Hroot. reflexivity.
  - apply checkAuth_storage.
Qed.

Lemma checkAuth_redirects_unauthenticated_witness :
  href (page_load (js "/dashboard.html") ∅ dashboard_doc)
    = Some (js "index.html")
  /\ sessionStorage (page_load (js "/dashboard.html") ∅ dashboard_doc) = ∅.
Proof.
  apply (checkAuth_redirects_unauthenticated (js "/dashboard.html") ∅
           dashboard_doc).
  - reflexivity.
  - vm_compute. reflexivity.
  - discriminate.
Defined.

(** Every page the mock site's README and scripts name, other than the
    login page, sends an unauthenticated visitor back to [index.html]. *)
Example protected_pages_redirect :
  Forall (fun path =>
            href (page_load path ∅ dashboard_doc) = Some (js "index.html"))
    [js "/dashboard.html"; js "/forecast.html"; js "/bom-setup.html";
     js "/inventory.html"; js "/forecast-analysis.html";
     js "/supply-planning.html"].
Proof. repeat constructor. Qed.

(** The login page and the site root are left alone, and so is a page
    of a visitor who has logged in. *)
Example login_page_stays :
  href (page_load (js "/index.html") ∅ dashboard_doc) = None
  /\ href (page_load (js "/") ∅ dashboard_doc) = None
  /\ href (page_load (js "/dashboard.html")
             {[ js "o9-logged-in" := js "true" ]} dashboard_doc) = None.
Proof. repeat split. Qed.

Lemma handleLogin_accepts (w : Browser) (ue pe : Element) :
  getElementById (js "username") w = Some ue ->
  getElementById (js "password") w = Some pe ->
  value ue <> [] -> value pe <> [] ->
  handleLogin w =
  Return false
    (set_href (js "dashboard.html")
       (setItem (js "o9-logged-in") (js "true")
          (setItem (js "o9-username") (value ue) w))).
Proof.
  intros Hu Hp Hne1 Hne2. unfold handleLogin. rewrite Hu, Hp.
  apply str_truthy_Some in Hne1, Hne2. rewrite Hne1, Hne2. reflexivity.
Qed.

Lemma handleLogin_rejects (w : Browser) (ue pe ee : Element) :
  getElementById (js "username") w = Some ue ->
  getElementById (js "password") w = Some pe ->
  getElementById (js "error-message") w = Some ee ->
  value ue = [] \/ value pe = [] ->
  handleLogin w =
  Return false
    (set_element (js "error-message")
       (mkElement (value ee) (textContent ee) (js "block")) w).
Proof.
  intros Hu Hp He Hempty. unfold handleLogin. rewrite Hu, Hp, He.
  destruct Hempty as [-> | ->]; cbn [str_truthy jstr_eqb].
  - reflexivity.
  - rewrite andb_comm. reflexivity.
Qed.

(** C10. With the login form in the document and no navigation pending,
    [handleLogin] stores both [o9-username] and [o9-logged-in] and
    navigates to [dashboard.html] exactly when the username and the
    password are both non-empty; when either is empty it shows the
    error message and leaves the session storage as it was, so the
    storage never holds one key without the other because of a login
    attempt. *)
Theorem handleLogin_succeeds_iff_both_nonempty
    (w : Browser) (ue pe ee : Element) :
  getElementById (js "username") w = Some ue ->
  getElementById (js "password") w = Some pe ->
  getElementById (js "error-message") w = Some ee ->
  href w = None ->
  let w' := world_of (handleLogin w) in
  ((value ue <> [] /\ value pe <> []) <->
   (href w' = Some (js "dashboard.html")
    /\ sessionStorage w' =
       <[js "o9-logged-in" := js "true"]>
         (<[js "o9-username" := value ue]> (sessionStorage w))))
  /\ (value ue = [] \/ value pe = [] ->
      sessionStorage w' = sessionStorage w
      /\ href w' = None
      /\ style_display <$> getElementById (js "error-message") w'
         = Some (js "block")).
Proof.
  intros Hu Hp He Hnav w'. subst w'.
  destruct (decide (value ue = [])) as [E1 | N1];
    [| destruct (decide (value pe = [])) as [E2 | N2]].
  - rewrite (handleLogin_rejects w ue pe ee) by auto. cbn [world_of]. split.
    + split; [intros [? _]; contradiction |].
      cbn [set_element href]. rewrite Hnav. intros [? _]; discriminate.
    + intros _. unfold getElementById, set_element.
      cbn [sessionStorage href document].
      rewrite lookup_insert_eq. auto.
  - rewrite (handleLogin_rejects w ue pe ee) by auto. cbn [world_of]. split.
    + split; [intros [_ ?]; contradiction |].
      cbn [set_element href]. rewrite Hnav. intros [? _]; discriminate.
    + intros _. unfold getElementById, set_element.
      cbn [sessionStorage href document].
      rewrite lookup_insert_eq. auto.
  - rewrite (handleLogin_accepts w ue pe) by auto. cbn [world_of]. split.
    + split; [intros _ | auto]. split; reflexivity.
    + intros [? | ?]; contradiction.
Qed.

Lemma handleLogin_succeeds_iff_both_nonempty_witness :
  let w := login_form (js "testuser") (js "password123") in
  let w' := world_of (handleLogin w) in
  ((js "testuser" <> [] /\ js "password123" <> []) <->
   (href w' = Some (js "dashboard.html")
    /\ sessionStorage w' =
       <[js "o9-logged-in" := js "true"]>
         (<[js "o9-username" := js "testuser"]> (sessionStorage w))))
  /\ (js "testuser" = [] \/ js "password123" = [] ->
      sessionStorage w' = sessionStorage w
      /\ href w' = None
      /\ style_display <$> getElementById (js "error-message") w'
         = Some (js "block")).
Proof.
  exact (handleLogin_succeeds_iff_both_nonempty
           (login_form (js "testuser") (js "password123"))
           (mkElement (js "testuser") [] [])
           (mkElement (js "password123") [] [])
           (mkElement [] [] (js "none"))
           eq_refl eq_refl eq_refl eq_refl).
Defined.

End MockSiteClaims.

(** ** The order of the steps on the test-case page *)

Section SortedSteps.
Import Api TestCaseDetail.

Lemma sort_insert_perm {A} (cmp : A -> A -> Z) x l :
  sort_insert cmp x l ≡ₚ x :: l.
Proof.
  induction l as [| y l IH]; cbn; [reflexivity |].
  destruct (cmp x y <=? 0)%Z; [reflexivity |].
  rewrite IH. apply Permutation_swap.
Qed.

Lemma Array_sort_perm {A} (cmp : A -> A -> Z) l : Array_sort cmp l ≡ₚ l.
Proof.
  induction l as [| x l IH]; cbn; [reflexivity |].
  rewrite sort_insert_perm, IH. reflexivity.
Qed.

Lemma sort_insert_sorted x l :
  StronglySorted step_le l ->
  StronglySorted step_le (sort_insert by_step_number x l).
Proof.
  induction 1 as [| y l Hs IH Hy]; cbn.
  - repeat constructor.
  - unfold by_step_number at 1.
    destruct (Z.leb_spec (step_number x - step_number y) 0) as [Hle | Hgt].
    + constructor; [constructor; assumption |].
      constructor; [unfold step_le; lia |].
      eapply Forall_impl; [exact Hy |]. unfold step_le. intros; lia.
    + constructor; [exact IH |].
      rewrite sort_insert_perm. constructor; [unfold step_le; lia | exact Hy].
Qed.

Lemma Array_sort_sorted l :
  StronglySorted step_le (Array_sort by_step_number l).
Proof.
  induction l as [| x l IH]; cbn; [constructor |].
  apply sort_insert_sorted, IH.
Qed.

Lemma sorted_keys l :
  StronglySorted step_le l -> StronglySorted Z.le (map step_number l).
Proof.
  apply (StronglySorted_fmap step_number step_le Z.le). auto.
Qed.

(** Two arrangements of the same steps with the same sequence of
    distinct ordinals are the same list. *)
Lemma same_keys_same_list (l1 l2 : list Step) :
  l1 ≡ₚ l2 -> map step_number l1 = map step_number l2 ->
  NoDup (map step_number l1) -> l1 = l2.
Proof.
  revert l2. induction l1 as [| a l1 IH]; intros l2 Hp Hk Hnd.
  - apply Permutation_nil_l in Hp. subst. reflexivity.
  - destruct l2 as [| b l2]; [discriminate |].
    cbn in Hk. injection Hk as Hab Hk. apply NoDup_cons in Hnd as [Hnin Hnd].
    assert (a = b) as <-.
    { assert (a ∈ b :: l2) as Hin by (rewrite <- Hp; left).
      apply elem_of_cons in Hin as [-> | Hin]; [reflexivity |].
      exfalso. apply Hnin.
      assert (Hm : step_number a ∈ map step_number l2)
        by (apply list_elem_of_fmap; exists a; auto).
      rewrite <- Hk in Hm. exact Hm. }
    f_equal. apply IH; auto. eapply Permutation_cons_inv, Hp.
Qed.

(** C6. Whatever the order in which the steps of a case arrive from
    storage, the list the page presents (one executor per step, in that
    order) is a permutation of the stored steps in ascending
    [step_number]; its sequence of ordinals does not depend on the order
    of arrival, and neither does the list itself when the ordinals are
    distinct. *)
Theorem sortedSteps_sorted_permutation
    (tc : TestCase) (stored arrival : list Step) :
  steps tc = Some arrival ->
  arrival ≡ₚ stored ->
  sortedSteps tc ≡ₚ stored
  /\ StronglySorted step_le (sortedSteps tc)
  /\ TestCaseExecutor_rendered (sortedSteps tc) = map id (sortedSteps tc)
  /\ map step_number (sortedSteps tc)
     = map step_number (sortedSteps (mkTestCase (case_id tc) (Some stored)))
  /\ (NoDup (map step_number stored) ->
      sortedSteps tc = sortedSteps (mkTestCase (case_id tc) (Some stored))).
Proof.
  intros Hsteps Hperm. unfold sortedSteps. rewrite Hsteps. cbn [steps].
  change (default [] (Some arrival)) with arrival.
  change (default [] (Some stored)) with stored.
  assert (Hp : Array_sort by_step_number arrival
               ≡ₚ Array_sort by_step_number stored)
    by (rewrite !Array_sort_perm; exact Hperm).
  assert (Hk : map step_number (Array_sort by_step_number arrival)
               = map step_number (Array_sort by_step_number stored)).
  { apply (StronglySorted_unique Z.le).
    - apply sorted_keys, Array_sort_sorted.
    - apply sorted_keys, Array_sort_sorted.
    - apply Permutation_map, Hp. }
  split; [rewrite Array_sort_perm; exact Hperm |].
  split; [apply Array_sort_sorted |].
  split; [reflexivity |].
  split; [exact Hk |].
  intros Hnd. apply same_keys_same_list; auto.
  assert (Hm : map step_number (Array_sort by_step_number arrival)
               ≡ₚ map step_number stored)
    by (apply Permutation_map; rewrite Array_sort_perm; exact Hperm).
  rewrite Hm. exact Hnd.
Qed.

Lemma sortedSteps_sorted_permutation_witness :
  let tc := mkTestCase 1 (Some [step3; step1; step2]) in
  sortedSteps tc ≡ₚ [step1; step2; step3]
  /\ StronglySorted step_le (sortedSteps tc)
  /\ TestCaseExecutor_rendered (sortedSteps tc) = map id (sortedSteps tc)
  /\ map step_number (sortedSteps tc)
     = map step_number
         (sortedSteps (mkTestCase 1 (Some [step1; step2; step3])))
  /\ (NoDup (map step_number [step1; step2; step3]) ->
      sortedSteps tc
      = sortedSteps (mkTestCase 1 (Some [step1; step2; step3]))).
Proof.
  apply (sortedSteps_sorted_permutation
           (mkTestCase 1 (Some [step3; step1; step2]))
           [step1; step2; step3] [step3; step1; step2]).
  - reflexivity.
  - change [step3; step1; step2] with ([step3] ++ [step1; step2]).
    change [step1; step2; step3] with ([step1; step2] ++ [step3]).
    apply Permutation_app_comm.
Defined.

End SortedSteps.

(** ** The status-to-style tables *)

Section StatusStyles.
Import Api Lookup.

Lemma own_is_Some (table : list (jstr * jstr)) k :
  is_Some (own k table) <-> k ∈ keys table.
Proof.
  unfold keys. induction table as [| [k' v] t IH]; cbn.
  - split; [intros [? ?]; discriminate | intros H; inversion H].
  - destruct (jstr_eqb k k') eqn:E.
    + apply jstr_eqb_true in E as ->. split; [left | eauto].
    + apply jstr_eqb_false in E. rewrite IH, elem_of_cons. tauto.
Qed.

Lemma defined_on_keys (table : list (jstr * jstr)) (dom : list jstr) :
  (forall k, k ∈ keys table <-> k ∈ dom) -> defined_exactly_on table dom.
Proof. intros H k. rewrite own_is_Some. apply H. Qed.

Lemma get_or_outside (table : list (jstr * jstr)) k fallback :
  own k table = None -> member k object_prototype_keys = false ->
  get_or table k fallback = Own fallback.
Proof. intros H1 H2. unfold get_or, get. rewrite H1, H2. reflexivity. Qed.

Lemma own_None (table : list (jstr * jstr)) k :
  k ∉ keys table -> own k table = None.
Proof.
  intros H. destruct (own k table) eqn:E; [| reflexivity].
  exfalso. apply H, own_is_Some. eauto.
Qed.

(** C7, the statement as the specification has it, fails: the table of
    [getStepStatusBadgeColor] is not defined exactly on the enumeration
    (it has [blocked], which the enumeration has not). *)
Lemma getStepStatusBadgeColor_off_enumeration :
  ~ defined_exactly_on TestCaseDetail.step_status_colors execution_statuses.
Proof.
  intros H. specialize (H (js "blocked")). destruct H as [H _].
  assert (Hin : js "blocked" ∈ execution_statuses) by (apply H; vm_compute; eauto).
  unfold execution_statuses in Hin.
  repeat (apply elem_of_cons in Hin as [Hin | Hin]; [discriminate Hin |]).
  inversion Hin.
Qed.

(** C7, amended. The step executor's status-to-style table
    ([getStatusColor]) is defined exactly on the enumeration [not_run],
    [running], [passed], [failed], [error]: a status in the enumeration
    gets the style of its entry, a step without a status is shown as
    [not_run], and a status outside the enumeration that does not name a
    member of [Object.prototype] gets the one default style. *)
Theorem getStatusColor_on_enumeration (step : Step) (status : jstr) :
  execution_status step = Some status ->
  member status object_prototype_keys = false ->
  defined_exactly_on TestStepExecutor.status_colors execution_statuses
  /\ (status ∈ execution_statuses ->
      exists style,
        own status TestStepExecutor.status_colors = Some style
        /\ TestStepExecutor.getStatusColor step = Own style)
  /\ (status ∉ execution_statuses ->
      TestStepExecutor.getStatusColor step
      = Own (js "bg-gray-100 text-gray-800"))
  /\ (forall unrun : Step,
        execution_status unrun = None ->
        TestStepExecutor.getStatusColor unrun
        = Own (js "bg-gray-100 text-gray-800")).
Proof.
  intros Hst Hproto.
  assert (Hkeys : forall k, k ∈ keys TestStepExecutor.status_colors
                            <-> k ∈ execution_statuses).
  { intros k. unfold keys, execution_statuses.
    cbn [map fst TestStepExecutor.status_colors].
    rewrite !elem_of_cons. tauto. }
  split; [apply defined_on_keys, Hkeys |].
  unfold TestStepExecutor.getStatusColor. rewrite Hst.
  repeat apply conj.
  - unfold execution_statuses. intros Hin.
    repeat (apply elem_of_cons in Hin as [-> | Hin];
            [eexists; split; reflexivity |]).
    inversion Hin.
  - intros Hout. destruct (str_truthy (Some status)); [| reflexivity].
    cbn [default]. apply get_or_outside; [| exact Hproto].
    apply own_None. rewrite Hkeys. exact Hout.
  - intros unrun Hn. rewrite Hn. reflexivity.
Qed.

Lemma getStatusColor_on_enumeration_witness :
  let step := mkStep 7 2 None None None (Some (js "skipped")) in
  defined_exactly_on TestStepExecutor.status_colors execution_statuses
  /\ (js "skipped" ∈ execution_statuses ->
      exists style,
        own (js "skipped") TestStepExecutor.status_colors = Some style
        /\ TestStepExecutor.getStatusColor step = Own style)
  /\ (js "skipped" ∉ execution_statuses ->
      TestStepExecutor.getStatusColor step
      = Own (js "bg-gray-100 text-gray-800"))
  /\ (forall unrun : Step,
        execution_status unrun = None ->
        TestStepExecutor.getStatusColor unrun
        = Own (js "bg-gray-100 text-gray-800")).
Proof.
  apply (getStatusColor_on_enumeration
           (mkStep 7 2 None None None (Some (js "skipped"))) (js "skipped"));
    reflexivity.
Defined.

(** The table of [getStepStatusBadgeColor], which the test-case page
    defines and does not use, has other keys. *)
Example getStepStatusBadgeColor_keys :
  defined_exactly_on TestCaseDetail.step_status_colors
    [js "not_started"; js "passed"; js "failed"; js "blocked"].
Proof. apply defined_on_keys. intros k. reflexivity. Qed.

(** What the two tables make of the enumeration's members. *)
Example getStatusColor_running :
  TestStepExecutor.getStatusColor (mkStep 7 2 None None None (Some (js "running")))
  = Own (js "bg-blue-100 text-blue-800").
Proof. reflexivity. Qed.

Example getStepStatusBadgeColor_running :
  TestCaseDetail.getStepStatusBadgeColor (js "running")
  = Own (js "bg-gray-100 text-gray-800").
Proof. reflexivity. Qed.

Example getStatusColor_inherited :
  TestStepExecutor.getStatusColor (mkStep 7 2 None None None (Some (js "toString")))
  = Inherited (js "toString").
Proof. reflexivity. Qed.

End StatusStyles.

(** ** The client of the execution channel *)

Section ExecutionClient.
Import Api TestStepExecutor.

Abbreviation type_is data name :=
  (is_string (prop data (js "type")) (js name)).

Lemma is_string_excl v a b :
  is_string v a = true -> a <> b -> is_string v b = false.
Proof.
  unfold is_string. destruct v as [[| | | | s | |] |]; try discriminate.
  intros Ha Hne. apply jstr_eqb_true in Ha. apply jstr_eqb_false. congruence.
Qed.

(** Under [H : type_is data t = true], decide every test of the chain. *)
Ltac other_types H :=
  repeat match goal with
         | |- context [is_string ?v (js ?n)] =>
             first [ rewrite H
                   | rewrite (is_string_excl v _ (js n) H) by discriminate ]
         end.

Lemma onmessage_handled (data : json) (st : State) :
  data <> JNull -> onmessage data st = Some (dispatch_message data st).
Proof. destruct data; [contradiction | reflexivity ..]. Qed.

(** A terminal message takes one of the last two branches of the chain. *)
Lemma dispatch_terminal (t : json) (st : State) :
  is_terminal t = true ->
  let ended := setProgress (Some (JStr [])) (setIsRunning false st) in
  (type_is t "execution_complete" = true
   /\ dispatch_message t st
      = websocket_close (onStatusUpdate (prop t (js "status")) ended))
  \/ (type_is t "execution_error" = true
      /\ dispatch_message t st
         = websocket_close
             (alert (js "Execution error: " ++ to_string (prop t (js "error")))
                ended)).
Proof.
  intros Ht ended.
  assert (Hcase : type_is t "execution_complete" = true
                  \/ type_is t "execution_error" = true).
  { destruct t; try discriminate; cbn [is_terminal] in Ht;
      apply orb_true_iff in Ht; exact Ht. }
  unfold dispatch_message.
  destruct Hcase as [H | H]; [left | right]; (split; [exact H |]);
    other_types H; reflexivity.
Qed.




(** *** The run ends with the terminal message *)




Lemma socket_state_open (st : State) :
  socket_state st = Some OPEN ->
  exists w, ws st = Some w /\ readyState w = OPEN.
Proof.
  unfold socket_state. destruct (ws st) as [w |]; [| discriminate].
  cbn. intros [= H]. eauto.
Qed.

Lemma deliver_terminal (st : State) (t : json) :
  socket_state st = Some OPEN -> is_terminal t = true ->
  exists st',
    deliver st (EvMessage (Some t)) = websocket_close st'
    /\ isRunning st' = false /\ progress st' = Some (JStr [])
    /\ screenshot st' = screenshot st /\ ws st' = ws st
    /\ (type_is t "execution_complete" = true ->
        statusUpdates st' = statusUpdates st ++ [prop t (js "status")]
        /\ alerts st' = alerts st)
    /\ (type_is t "execution_error" = true ->
        alerts st' = alerts st ++ [js "Execution error: "
                                   ++ to_string (prop t (js "error"))]
        /\ statusUpdates st' = statusUpdates st).
Proof.
  intros Hopen Ht. unfold deliver. rewrite Hopen. cbn [ready_eqb].
  assert (Hnn : t <> JNull) by (intros ->; discriminate).
  rewrite (onmessage_handled t st Hnn). cbn [default from_option].
  destruct (dispatch_terminal t st Ht) as [[H ->] | [H ->]];
    (eexists; split; [reflexivity |]); repeat apply conj; try reflexivity.
  - intros _. split; reflexivity.
  - intros H'. rewrite (is_string_excl _ _ _ H) in H' by discriminate.
    discriminate.
  - intros H'. rewrite (is_string_excl _ _ _ H) in H' by discriminate.
    discriminate.
  - intros _. split; reflexivity.
Qed.





(** *** What the client sends *)

Lemma deliver_frames_sent (st : State) (ev : ws_event) :
  frames_sent (deliver st ev) = frames_sent st.
Proof.
  unfold deliver, frames_sent, socket_state.
  destruct st as [run shot prog edit [[u r snt cc] |] ups als];
    [| reflexivity].
  destruct ev as [| [data |] | |]; destruct r; cbn; try reflexivity.
  destruct data; cbn [onmessage default from_option]; try reflexivity;
    unfold dispatch_message;
    repeat match goal with
           | |- context [if ?c then _ else _] => destruct c
           end; reflexivity.
Qed.

Lemma deliver_all_frames_sent (evs : list ws_event) (st : State) :
  frames_sent (deliver_all st evs) = frames_sent st.
Proof.
  unfold deliver_all. revert st.
  induction evs as [| ev evs IH]; intros st; [reflexivity |].
  cbn [fold_left]. rewrite IH. apply deliver_frames_sent.
Qed.

Lemma handleRunStep_sends_nothing loc step st evs :
  frames_sent (deliver_all (handleRunStep loc step st) evs) = [].
Proof. rewrite deliver_all_frames_sent. reflexivity. Qed.

Lemma click_needs_commands loc step st :
  str_truthy (selenium_script_json step) = false ->
  click_run_step loc step st = st.
Proof.
  intros H. unfold click_run_step, run_button_rendered. rewrite H.
  rewrite andb_false_r. reflexivity.
Qed.

Lemma request_from_id loc (step other : Step) st :
  id step = id other ->
  ws (handleRunStep loc step st) = ws (handleRunStep loc other st).
Proof.
  intros H. unfold handleRunStep, wsUrl. rewrite H. reflexivity.
Qed.

End ExecutionClient.

(** ** The execution session of the back end *)

Section SessionFacts.
Import Orchestrator.

Variable recognized_actions : list jstr.
Variable code_indicators : list jstr.
Variable Driver : Type.
Variable acquire : option Driver.
Variable dispatch : Command -> Driver -> Outcome * Driver.

Abbreviation validate' := (validate recognized_actions code_indicators).
Abbreviation run := (execute_step recognized_actions code_indicators
                       acquire dispatch).

Lemma emit_sorted (k : EventKind) (s : Session Driver) :
  running s ->
  StronglySorted N.lt (map Orchestrator.seq (emitted (emit k s)))
  /\ Forall (fun e => Orchestrator.seq e < next_seq (emit k s))
       (emitted (emit k s)).
Proof.
  intros (Hs & Hlt & _). cbn [emit emitted next_seq]. split.
  - rewrite map_app. apply StronglySorted_app_2.
    + intros x1 x2 H1 H2. cbn in H2. apply list_elem_of_singleton in H2.
      subst x2. cbn. apply list_elem_of_fmap in H1 as (e & -> & He).
      rewrite Forall_forall in Hlt. apply Hlt, He.
    + exact Hs.
    + cbn. repeat constructor.
  - apply Forall_app. split.
    + eapply Forall_impl; [exact Hlt |]. cbn. intros; lia.
    + constructor; [cbn; lia | constructor].
Qed.

Lemma emit_running (k : EventKind) (s : Session Driver) :
  running s ->
  (forall st err, k <> ExecutionComplete st err) ->
  (forall err, k <> ExecutionError err) ->
  running (emit k s).
Proof.
  intros Hr Hk1 Hk2. destruct (emit_sorted k s Hr) as [Hs Hlt].
  split; [exact Hs |]. split; [exact Hlt |].
  destruct Hr as (_ & _ & Hlive). cbn [emit emitted].
  apply Forall_app. split; [exact Hlive |].
  constructor; [| constructor]. unfold live, terminal. cbn.
  destruct k; try reflexivity; [exfalso; eapply Hk1 | exfalso; eapply Hk2];
    reflexivity.
Qed.

Lemma called_running c d (s : Session Driver) :
  running s -> running (called c d s).
Proof. intros H. exact H. Qed.

Lemma finish_ended (st : SessionState) (k : EventKind) (s : Session Driver) :
  running s ->
  (exists a b, k = ExecutionComplete a b) \/ (exists e, k = ExecutionError e) ->
  (st = Completed <-> k = ExecutionComplete passed None) ->
  ended_after (emitted s) (finish st k s).
Proof.
  intros Hr Hk Hst. destruct (emit_sorted k s Hr) as [Hs Hlt].
  destruct Hr as (_ & Hlt0 & Hlive).
  exists [], (mkEvent (next_seq s) (target_id s) k).
  rewrite app_nil_r. cbn [app].
  repeat apply conj; try (intros; apply Hst; assumption).
  - reflexivity.
  - unfold terminal. cbn. destruct Hk as [(a & b & ->) | (e & ->)]; reflexivity.
  - exact Hlive.
  - exact Hlt0.
  - exact Hs.
Qed.

Lemma ended_after_weaken (before extra : list Event) (s : Session Driver) :
  ended_after (before ++ extra) s -> ended_after before s.
Proof.
  intros (more & last & He & Ht & Hl & Hm & Hs & Hc).
  exists (extra ++ more), last. rewrite !app_assoc in *.
  repeat apply conj; try assumption; apply Hc.
Qed.

Lemma run_commands_ended (cmds : list Command) :
  forall (d : Driver) (s : Session Driver),
    running s -> ended_after (emitted s) (run_commands dispatch cmds d s).
Proof.
  induction cmds as [| c rest IH]; intros d s Hr; cbn [run_commands].
  - apply finish_ended; [exact Hr | left; eauto | split; reflexivity].
  - assert (Hr1 : running (emit (Progress (action c)) s))
      by (apply emit_running; [exact Hr | discriminate | discriminate]).
    destruct (dispatch c d) as [[artifact | reason | reason] d'].
    + destruct artifact as [image |].
      * apply (ended_after_weaken _
                 [mkEvent (next_seq s) (target_id s) (Progress (action c))]).
        apply (ended_after_weaken _
                 [mkEvent (next_seq s + 1) (target_id s) (Screenshot image)]).
        apply (IH d' (emit (Screenshot image)
                        (called c d' (emit (Progress (action c)) s)))).
        apply emit_running; [exact Hr1 | discriminate | discriminate].
      * apply (ended_after_weaken _
                 [mkEvent (next_seq s) (target_id s) (Progress (action c))]).
        apply (IH d' (called c d' (emit (Progress (action c)) s))).
        exact Hr1.
    + apply (ended_after_weaken _
               [mkEvent (next_seq s) (target_id s) (Progress (action c))]).
      apply (finish_ended Failed _ (called c d' (emit (Progress (action c)) s))).
      * exact Hr1.
      * left; eauto.
      * split; discriminate.
    + apply (ended_after_weaken _
               [mkEvent (next_seq s) (target_id s) (Progress (action c))]).
      apply (finish_ended Errored _ (called c d' (emit (Progress (action c)) s))).
      * exact Hr1.
      * right; eauto.
      * split; discriminate.
Qed.

Lemma initial_running (st : SessionState) (target : Z) :
  running (mkSession Driver st target 0 [] [] None).
Proof. repeat split; constructor. Qed.

Lemma execute_step_ended (login target : StoredStep) :
  ended_after [] (run login target).
Proof.
  unfold execute_step.
  destruct (effective_sequence _ _ login target) as [e | cmds].
  - apply (finish_ended Failed _ _ (initial_running _ _));
      [right; eauto | split; discriminate].
  - destruct acquire as [d |].
    + apply (run_commands_ended cmds d _ (initial_running Running _)).
    + apply (finish_ended Errored _ _ (initial_running _ _));
        [right; eauto | split; discriminate].
Qed.

(** *** Validation comes before the driver *)

Lemma validate_code_indicator (raw marker : jstr) :
  marker ∈ code_indicators -> includes raw marker = true ->
  exists m, validate' raw = inl (CodeIndicator m).
Proof.
  intros Hin Hinc. unfold validate, found_indicator.
  destruct (find (fun m => includes raw m) code_indicators) as [m |] eqn:E.
  - eauto.
  - apply list_elem_of_In in Hin.
    pose proof (find_none _ _ E marker Hin) as Hf. cbn in Hf. congruence.
Qed.

Lemma effective_sequence_invalid_target (login target : StoredStep) e :
  validate' (commands_raw target) = inl e ->
  exists e', effective_sequence recognized_actions code_indicators
               login target = inl e'.
Proof.
  intros Hv. unfold effective_sequence.
  destruct (is_login login target); [eauto |].
  destruct (validate' (commands_raw login)); [eauto |].
  rewrite Hv. eauto.
Qed.

Lemma execute_step_invalid (login target : StoredStep) e :
  effective_sequence recognized_actions code_indicators login target = inl e ->
  run login target =
  mkSession Driver Failed (stored_id target) 1
    [mkEvent 0 (stored_id target) (ExecutionError (js "invalid command data"))]
    [] None.
Proof. intros H. unfold execute_step. rewrite H. reflexivity. Qed.

(** *** The login prefix *)

Lemma run_commands_calls (cmds : list Command) :
  forall (d : Driver) (s : Session Driver),
    exists calls,
      driver_calls (run_commands dispatch cmds d s) = driver_calls s ++ calls
      /\ calls `prefix_of` cmds
      /\ (state (run_commands dispatch cmds d s) = Completed -> calls = cmds).
Proof.
  induction cmds as [| c rest IH]; intros d s; cbn [run_commands].
  - exists []. rewrite app_nil_r. repeat split; reflexivity.
  - destruct (dispatch c d) as [[artifact | reason | reason] d'].
    + destruct (IH d' (match artifact with
                       | Some image => emit (Screenshot image)
                                         (called c d' (emit (Progress (action c)) s))
                       | None => called c d' (emit (Progress (action c)) s)
                       end)) as (calls & Hc & Hp & Hd).
      exists (c :: calls). rewrite Hc.
      split; [destruct artifact; cbn; rewrite <- app_assoc; reflexivity |].
      split; [apply (prefix_app [c]), Hp |].
      intros H. f_equal. apply Hd, H.
    + exists [c]. split; [reflexivity |].
      split; [apply (prefix_app_r [c] [c]); reflexivity | discriminate].
    + exists [c]. split; [reflexivity |].
      split; [apply (prefix_app_r [c] [c]); reflexivity | discriminate].
Qed.

Lemma execute_step_calls (login target : StoredStep) (cmds : list Command) :
  effective_sequence recognized_actions code_indicators login target
    = inr cmds ->
  driver_calls (run login target) `prefix_of` cmds
  /\ (state (run login target) = Completed ->
      driver_calls (run login target) = cmds).
Proof.
  intros He. unfold execute_step. rewrite He. destruct acquire as [d |].
  - destruct (run_commands_calls cmds d
                (enter Running
                   (mkSession Driver Initializing (stored_id target) 0 [] [] None)))
      as (calls & Hc & Hp & Hd).
    rewrite Hc. cbn. split; [exact Hp | exact Hd].
  - cbn. split; [apply prefix_nil | discriminate].
Qed.

End SessionFacts.

(** ** The run request and the data-only policy *)

Section ProtocolClaims.
Import Api TestStepExecutor Orchestrator.

(** *** The events of a session on the wire *)

Lemma deliver_live (st : State) (e : Event) :
  socket_state st = Some OPEN -> terminal e = false ->
  let st' := deliver st (EvMessage (Some (encode e))) in
  ws st' = ws st /\ statusUpdates st' = statusUpdates st
  /\ alerts st' = alerts st.
Proof.
  intros Hopen Hlive. unfold deliver. rewrite Hopen.
  destruct e as [n i [a | image | status err | err]]; try discriminate;
    repeat split.
Qed.

Lemma deliver_all_live (events : list Event) : forall (st : State),
  socket_state st = Some OPEN ->
  Forall (fun e => terminal e = false) events ->
  let st' := deliver_all st (wire events) in
  ws st' = ws st /\ statusUpdates st' = statusUpdates st
  /\ alerts st' = alerts st.
Proof.
  unfold deliver_all, wire.
  induction events as [| e events IH]; intros st Hopen Hall; [repeat split |].
  apply Forall_cons in Hall as [He Hall]. cbn [map fold_left].
  destruct (deliver_live st e Hopen He) as (Hws & Hu & Ha).
  destruct (IH (deliver st (EvMessage (Some (encode e))))) as (Hws' & Hu' & Ha');
    [unfold socket_state; rewrite Hws; exact Hopen | exact Hall |].
  repeat split; congruence.
Qed.

Lemma deliver_last (st : State) (last : Event) :
  socket_state st = Some OPEN -> terminal last = true ->
  let st' := deliver st (EvMessage (Some (encode last))) in
  settled last st st'
  /\ isRunning st' = false
  /\ socket_state st' = Some CLOSING
  /\ close_calls st' = S (close_calls st).
Proof.
  intros Hopen Hterm st'.
  assert (Ht : is_terminal (encode last) = true)
    by (destruct last as [n i [| | |]]; try discriminate; reflexivity).
  destruct (deliver_terminal st (encode last) Hopen Ht)
    as (mid & Hst' & Hrun & _ & _ & Hws & Hc & He).
  fold st' in Hst'. destruct (socket_state_open st Hopen) as (w & Hw & Hr).
  assert (Hfields : statusUpdates st' = statusUpdates mid
                    /\ alerts st' = alerts mid
                    /\ isRunning st' = isRunning mid)
    by (rewrite Hst'; repeat split).
  destruct Hfields as (Hu & Ha & Hi).
  repeat apply conj.
  - unfold settled.
    destruct last as [n i [a | image | status err | err]]; try discriminate;
      cbn [kind].
    + destruct (Hc ltac:(destruct err; reflexivity)) as [Hc1 Hc2].
      rewrite Hu, Ha, Hc1, Hc2. destruct err; split; reflexivity.
    + destruct (He eq_refl) as [He1 He2].
      rewrite Hu, Ha, He1, He2. split; reflexivity.
  - congruence.
  - rewrite Hst'. unfold websocket_close, socket_state. cbn [set_ws ws].
    rewrite Hws, Hw. cbn. rewrite Hr. reflexivity.
  - rewrite Hst'. unfold websocket_close, close_calls. cbn [set_ws ws].
    rewrite Hws, Hw. reflexivity.
Qed.

(** C3. The events of a step-level session carry strictly increasing
    sequence numbers in the order of their emission; the session emits
    exactly one terminal event, after all the others, and its number is
    the largest of the run; a session ends Completed exactly when that
    event is [execution_complete] with status [passed].  A client whose
    socket is open and which receives the events in that order handles
    the terminal event last: it reports the status or alerts the error
    once, clears [isRunning] and closes the socket. *)
Theorem events_numbered_terminal_last
    (recognized_actions code_indicators : list jstr) (Driver : Type)
    (acquire : option Driver)
    (dispatch : Command -> Driver -> Outcome * Driver)
    (login target : StoredStep) (st : State) :
  socket_state st = Some OPEN ->
  let s := execute_step recognized_actions code_indicators acquire dispatch
             login target in
  let st' := deliver_all st (wire (emitted s)) in
  StronglySorted N.lt (map Orchestrator.seq (emitted s))
  /\ exists before last,
       emitted s = before ++ [last]
       /\ terminal last = true
       /\ Forall (fun e => terminal e = false) before
       /\ Forall (fun e => Orchestrator.seq e < Orchestrator.seq last) before
       /\ (state s = Completed <-> kind last = ExecutionComplete passed None)
       /\ settled last st st'
       /\ isRunning st' = false
       /\ socket_state st' = Some CLOSING
       /\ close_calls st' = S (close_calls st).
Proof.
  intros Hopen s st'.
  destruct (execute_step_ended recognized_actions code_indicators Driver
              acquire dispatch login target)
    as (more & last & He & Ht & Hl & Hm & Hs & Hc).
  fold s in He, Hs, Hc. cbn [app] in He, Hl, Hm.
  split; [exact Hs |]. exists more, last.
  destruct (deliver_all_live more st Hopen Hl) as (Hws & Hu & Ha).
  assert (Hopen1 : socket_state (deliver_all st (wire more)) = Some OPEN)
    by (unfold socket_state; rewrite Hws; exact Hopen).
  destruct (deliver_last _ last Hopen1 Ht) as (Hset & Hrun & Hsock & Hcc).
  assert (Hst' : st' = deliver (deliver_all st (wire more))
                         (EvMessage (Some (encode last)))).
  { unfold st', deliver_all, wire. rewrite He, map_app, fold_left_app.
    reflexivity. }
  rewrite Hst'. repeat apply conj; try assumption; try apply Hc.
  - unfold settled in *. destruct (kind last); try exact Hset;
      destruct Hset; split; congruence.
  - rewrite Hcc. unfold close_calls. rewrite Hws. reflexivity.
Qed.

Lemma events_numbered_terminal_last_witness :
  let s := execute_step selenium_actions python_markers (Some tt) obliging
             login_step forecast_step in
  let st' := deliver_all running5 (wire (emitted s)) in
  StronglySorted N.lt (map Orchestrator.seq (emitted s))
  /\ exists before last,
       emitted s = before ++ [last]
       /\ terminal last = true
       /\ Forall (fun e => terminal e = false) before
       /\ Forall (fun e => Orchestrator.seq e < Orchestrator.seq last) before
       /\ (state s = Completed <-> kind last = ExecutionComplete passed None)
       /\ settled last running5 st'
       /\ isRunning st' = false
       /\ socket_state st' = Some CLOSING
       /\ close_calls st' = S (close_calls running5).
Proof.
  apply (events_numbered_terminal_last selenium_actions python_markers unit
           (Some tt) obliging login_step forecast_step running5).
  reflexivity.
Defined.

(** C1. A stored command payload whose raw text contains one of the
    source-code indicators fails validation with the code-indicator
    error, and the session that executes that step ends Failed with the
    terminal error as its only event, without acquiring the driver and
    without a single driver call.  On the client, a click runs nothing
    unless [step.selenium_script_json] is truthy; the socket the run
    opens is determined by the step's id alone, and the client sends
    no frame on it, so neither script text nor command text leaves the
    client. *)
Theorem code_indicator_fails_before_driver
    (recognized_actions code_indicators : list jstr) (Driver : Type)
    (acquire : option Driver)
    (dispatch : Command -> Driver -> Outcome * Driver)
    (login target : StoredStep) (marker : jstr)
    (loc : Location) (step other : Step) (st : State)
    (evs : list ws_event) :
  marker ∈ code_indicators ->
  includes (commands_raw target) marker = true ->
  let s := execute_step recognized_actions code_indicators acquire dispatch
             login target in
  (exists m, validate recognized_actions code_indicators (commands_raw target)
             = inl (CodeIndicator m))
  /\ state s = Failed
  /\ emitted s = [mkEvent 0 (stored_id target)
                    (ExecutionError (js "invalid command data"))]
  /\ driver_calls s = []
  /\ adapter s = None
  /\ (str_truthy (selenium_script_json step) = false ->
      click_run_step loc step st = st)
  /\ (id step = id other ->
      ws (handleRunStep loc step st) = ws (handleRunStep loc other st))
  /\ frames_sent (deliver_all (handleRunStep loc step st) evs) = [].
Proof.
  intros Hin Hinc s.
  destruct (validate_code_indicator recognized_actions code_indicators
              _ _ Hin Hinc) as (m & Hv).
  destruct (effective_sequence_invalid_target recognized_actions
              code_indicators login target _ Hv) as (e & He).
  assert (Hs : s = mkSession Driver Failed (stored_id target) 1
                     [mkEvent 0 (stored_id target)
                        (ExecutionError (js "invalid command data"))]
                     [] None)
    by (eapply execute_step_invalid; exact He).
  split; [eauto |]. rewrite Hs. cbn [state emitted driver_calls adapter].
  repeat apply conj; try reflexivity.
  - apply click_needs_commands.
  - apply request_from_id.
  - apply handleRunStep_sends_nothing.
Qed.

Lemma code_indicator_fails_before_driver_witness :
  let s := execute_step selenium_actions python_markers (Some tt) obliging
             login_step python_step in
  (exists m, validate selenium_actions python_markers
               (commands_raw python_step) = inl (CodeIndicator m))
  /\ state s = Failed
  /\ emitted s = [mkEvent 0 (stored_id python_step)
                    (ExecutionError (js "invalid command data"))]
  /\ driver_calls s = []
  /\ adapter s = None
  /\ (str_truthy (selenium_script_json step5) = false ->
      click_run_step here step5 initial = initial)
  /\ (id step5 = id step5 ->
      ws (handleRunStep here step5 initial)
      = ws (handleRunStep here step5 initial))
  /\ frames_sent (deliver_all (handleRunStep here step5 initial) [EvOpen]) = [].
Proof.
  apply (code_indicator_fails_before_driver selenium_actions python_markers
           unit (Some tt) obliging login_step python_step (js "def ")
           here step5 step5 initial [EvOpen]).
  - right; left.
  - vm_compute. reflexivity.
Defined.

(** C5, the statement as the specification has it, fails: a run sends
    no message at all. *)
Lemma run_sends_no_execute_step_message :
  ~ sends_execute_step running5 step5.
Proof.
  intros (frame & data & Hin & _). vm_compute in Hin. inversion Hin.
Qed.

(** C5, amended. To run one step the client opens a WebSocket whose
    URL ends in [/ws/execute-step/] followed by the step's id, on the
    page's host with port 5173 replaced by 8000, and sends no message
    on it.  For a target other than the login step the session's
    effective command sequence is the login step's commands followed by
    the target's own: the driver is handed a prefix of that sequence,
    and all of it when the session completes. *)
Theorem run_request_is_the_socket_url
    (recognized_actions code_indicators : list jstr) (Driver : Type)
    (acquire : option Driver)
    (dispatch : Command -> Driver -> Outcome * Driver)
    (login target : StoredStep) (prefix own : list Command)
    (loc : Location) (step : Step) (st : State) (evs : list ws_event) :
  is_login login target = false ->
  validate recognized_actions code_indicators (commands_raw login)
    = inr prefix ->
  validate recognized_actions code_indicators (commands_raw target)
    = inr own ->
  let s := execute_step recognized_actions code_indicators acquire dispatch
             login target in
  url <$> ws (handleRunStep loc step st)
    = Some ((if jstr_eqb (protocol loc) (js "https:")
             then js "wss:" else js "ws:")
            ++ js "//" ++ replace_first (js ":5173") (js ":8000") (host loc)
            ++ js "/ws/execute-step/" ++ Z_to_jstr (id step))
  /\ frames_sent (deliver_all (handleRunStep loc step st) evs) = []
  /\ effective_sequence recognized_actions code_indicators login target
     = inr (prefix ++ own)
  /\ driver_calls s `prefix_of` prefix ++ own
  /\ (state s = Completed -> driver_calls s = prefix ++ own).
Proof.
  intros Hlogin Hp Ho s.
  assert (He : effective_sequence recognized_actions code_indicators
                 login target = inr (prefix ++ own))
    by (unfold effective_sequence; rewrite Hlogin, Hp, Ho; reflexivity).
  split; [reflexivity |].
  split; [apply handleRunStep_sends_nothing |].
  split; [exact He |].
  apply execute_step_calls, He.
Qed.

Lemma run_request_is_the_socket_url_witness :
  let s := execute_step selenium_actions python_markers (Some tt) obliging
             login_step forecast_step in
  url <$> ws (handleRunStep here step5 initial)
    = Some ((if jstr_eqb (protocol here) (js "https:")
             then js "wss:" else js "ws:")
            ++ js "//" ++ replace_first (js ":5173") (js ":8000") (host here)
            ++ js "/ws/execute-step/" ++ Z_to_jstr (id step5))
  /\ frames_sent (deliver_all (handleRunStep here step5 initial) [EvOpen]) = []
  /\ effective_sequence selenium_actions python_markers login_step
       forecast_step = inr (login_commands ++ forecast_commands)
  /\ driver_calls s `prefix_of` login_commands ++ forecast_commands
  /\ (state s = Completed ->
      driver_calls s = login_commands ++ forecast_commands).
Proof.
  apply (run_request_is_the_socket_url selenium_actions python_markers unit
           (Some tt) obliging login_step forecast_step
           login_commands forecast_commands here step5 initial [EvOpen]).
  - reflexivity.
  - vm_compute. reflexivity.
  - vm_compute. reflexivity.
Defined.

Example wsUrl_step5 :
  wsUrl here step5 = js "ws://localhost:8000/ws/execute-step/5".
Proof. vm_compute. reflexivity. Qed.

Example forecast_run_events :
  map kind (emitted (execute_step selenium_actions python_markers (Some tt)
                       obliging login_step forecast_step))
  = [Progress (js "navigate"); Progress (js "type"); Progress (js "click");
     Progress (js "navigate"); Progress (js "screenshot");
     Screenshot (js "iVBORw0KGgo="); ExecutionComplete passed None].
Proof. vm_compute. reflexivity. Qed.

End ProtocolClaims.

(** ** [JSON.parse] reads back what [JSON.stringify] wrote *)

Section JsonStrings.
Import JSON.

Lemma hex_value_digit (n : N) : n < 16 -> hex_value (hex_digit n) = Some n.
Proof.
  intros Hn. unfold hex_value, hex_digit.
  destruct (N.ltb_spec n 10).
  - replace ((48 <=? 48 + n) && (48 + n <=? 57)) with true
      by (symmetry; apply andb_true_iff; split; apply N.leb_le; lia).
    f_equal. lia.
  - replace ((48 <=? 87 + n) && (87 + n <=? 57)) with false
      by (symmetry; apply andb_false_iff; right; apply N.leb_gt; lia).
    replace ((97 <=? 87 + n) && (87 + n <=? 102)) with true
      by (symmetry; apply andb_true_iff; split; apply N.leb_le; lia).
    f_equal. lia.
Qed.

Lemma hex4_escape (c : N) :
  c < 65536 ->
  hex4 (hex_digit (c / 4096 mod 16)) (hex_digit (c / 256 mod 16))
       (hex_digit (c / 16 mod 16)) (hex_digit (c mod 16)) = Some c.
Proof.
  intros Hc. unfold hex4.
  rewrite !hex_value_digit by (apply N.mod_lt; discriminate).
  f_equal.
  pose proof (N.div_mod c 16 ltac:(discriminate)).
  pose proof (N.div_mod (c / 16) 16 ltac:(discriminate)).
  pose proof (N.div_mod (c / 256) 16 ltac:(discriminate)).
  pose proof (N.div_mod (c / 4096) 16 ltac:(discriminate)).
  replace (c / 256) with (c / 16 / 16) in * by (rewrite N.Div0.div_div; reflexivity).
  replace (c / 4096) with (c / 16 / 16 / 16) in * by (rewrite !N.Div0.div_div; reflexivity).
  assert (c / 16 / 16 / 16 / 16 = 0).
  { rewrite !N.Div0.div_div. apply N.div_small. exact Hc. }
  lia.
Qed.

(** What the parser makes of the characters QuoteJSONString writes for
    one code unit. *)
Lemma parse_chars_escape (c : N) (t : jstr) :
  c < 65536 ->
  parse_chars (unicode_escape c ++ t) =
  match parse_chars t with
  | Some (r, rest) => Some (c :: r, rest)
  | None => None
  end.
Proof.
  intros Hc. unfold unicode_escape. cbn [app parse_chars].
  change (92 =? 34) with false. change (92 =? 92) with true.
  change (117 =? 117) with true. cbv iota.
  rewrite hex4_escape by exact Hc. reflexivity.
Qed.

Lemma parse_chars_literal (c : N) (t : jstr) :
  c <> 34 -> c <> 92 -> 32 <= c ->
  parse_chars (c :: t) =
  match parse_chars t with
  | Some (r, rest) => Some (c :: r, rest)
  | None => None
  end.
Proof.
  intros H1 H2 H3. cbn [parse_chars].
  apply N.eqb_neq in H1, H2. rewrite H1, H2.
  replace (c <? 32) with false by (symmetry; apply N.ltb_ge; exact H3).
  reflexivity.
Qed.

Lemma parse_chars_unit (c : N) (t : jstr) :
  is_high_surrogate c = false -> is_low_surrogate c = false ->
  parse_chars (escape_unit c ++ t) =
  match parse_chars t with
  | Some (r, rest) => Some (c :: r, rest)
  | None => None
  end.
Proof.
  intros Hh Hl. unfold escape_unit.
  destruct (N.eqb_spec c 8) as [-> | N8]; [reflexivity |].
  destruct (N.eqb_spec c 9) as [-> | N9]; [reflexivity |].
  destruct (N.eqb_spec c 10) as [-> | N10]; [reflexivity |].
  destruct (N.eqb_spec c 12) as [-> | N12]; [reflexivity |].
  destruct (N.eqb_spec c 13) as [-> | N13]; [reflexivity |].
  destruct (N.eqb_spec c 34) as [-> | N34]; [reflexivity |].
  destruct (N.eqb_spec c 92) as [-> | N92]; [reflexivity |].
  destruct (N.ltb_spec c 32) as [Hlt | Hge].
  - apply parse_chars_escape. lia.
  - apply parse_chars_literal; assumption.
Qed.

Lemma surrogate_range (c : N) :
  is_high_surrogate c = true \/ is_low_surrogate c = true ->
  c <> 34 /\ c <> 92 /\ 32 <= c /\ c < 65536.
Proof.
  unfold is_high_surrogate, is_low_surrogate.
  rewrite !andb_true_iff, !N.leb_le. lia.
Qed.

Lemma parse_chars_quote_body (n : nat) :
  forall (s rest : jstr), (length s <= n)%nat ->
    parse_chars (quote_body s ++ 34 :: rest) = Some (s, rest).
Proof.
  induction n as [| n IH]; intros s rest Hlen.
  - destruct s; [reflexivity | cbn in Hlen; lia].
  - destruct s as [| c s]; [reflexivity |].
    cbn in Hlen. cbn [quote_body].
    destruct (is_high_surrogate c) eqn:Hh.
    + destruct (surrogate_range c (or_introl Hh)) as (A & B & C & D).
      destruct s as [| d s].
      * rewrite parse_chars_escape by exact D. reflexivity.
      * destruct (is_low_surrogate d) eqn:Hl.
        -- destruct (surrogate_range d (or_intror Hl)) as (A' & B' & C' & D').
           cbn [app]. rewrite parse_chars_literal by assumption.
           rewrite parse_chars_literal by assumption.
           rewrite IH by (cbn in Hlen; lia). reflexivity.
        -- rewrite <- app_assoc, parse_chars_escape by exact D.
           rewrite IH by lia. reflexivity.
    + destruct (is_low_surrogate c) eqn:Hl.
      * destruct (surrogate_range c (or_intror Hl)) as (A & B & C & D).
        rewrite <- app_assoc, parse_chars_escape by exact D.
        rewrite IH by lia. reflexivity.
      * rewrite <- app_assoc, parse_chars_unit by assumption.
        rewrite IH by lia. reflexivity.
Qed.

Lemma parse_chars_quote (s rest : jstr) :
  parse_chars (quote_body s ++ 34 :: rest) = Some (s, rest).
Proof. apply (parse_chars_quote_body (length s)). lia. Qed.

End JsonStrings.
Section JsonNumbers.
Import JSON.

Lemma digit_cons_Some (c : N) (D : Decimal.uint -> Decimal.uint) :
  digit_cons c = Some D ->
  is_digit c /\ forall d, uint_chars (D d) = c :: uint_chars d.
Proof.
  unfold digit_cons, is_digit.
  repeat match goal with
         | |- context [?a =? ?b] =>
             destruct (N.eqb_spec a b) as [-> | ?];
             [intros [= <-]; split; [lia | reflexivity] |]
         end.
  discriminate.
Qed.

Lemma take_digits_inv (k : jstr) :
  forall d rest, take_digits k = (d, rest) -> k = uint_chars d ++ rest.
Proof.
  induction k as [| c k IH]; intros d rest; cbn [take_digits].
  - intros [= <- <-]. reflexivity.
  - destruct (digit_cons c) as [D |] eqn:E.
    + destruct (take_digits k) as [d' rest'] eqn:Ek. intros [= <- <-].
      destruct (digit_cons_Some c D E) as [_ HD]. rewrite HD. cbn.
      f_equal. apply IH. reflexivity.
    + intros [= <- <-]. reflexivity.
Qed.

Lemma nzhead_not_D0 (d d' : Decimal.uint) :
  Decimal.nzhead d <> Decimal.D0 d'.
Proof. induction d; cbn; try discriminate. exact IHd. Qed.

Lemma int_part_ok_unorm (d : Decimal.uint) :
  int_part_ok (Decimal.unorm d) = true.
Proof.
  unfold Decimal.unorm. pose proof (nzhead_not_D0 d) as H.
  destruct (Decimal.nzhead d); try reflexivity.
  exfalso. eapply H. reflexivity.
Qed.

Lemma to_uint_unorm (n : N) : Decimal.unorm (N.to_uint n) = N.to_uint n.
Proof.
  rewrite <- (Unsigned.of_to n) at 2. rewrite Unsigned.to_of. reflexivity.
Qed.

Lemma int_part_ok_to_uint (n : N) : int_part_ok (N.to_uint n) = true.
Proof. rewrite <- to_uint_unorm. apply int_part_ok_unorm. Qed.

Lemma int_part_ok_canonical (d : Decimal.uint) :
  int_part_ok d = true -> N.to_uint (N.of_uint d) = d.
Proof.
  intros H. rewrite Unsigned.to_of.
  destruct d; try reflexivity; try discriminate.
  destruct d; try discriminate. reflexivity.
Qed.

(** The decimal text of a number starts with a digit. *)
Lemma N_to_jstr_head (n : N) :
  exists c t, N_to_jstr n = c :: t /\ is_digit c.
Proof.
  unfold N_to_jstr. pose proof (int_part_ok_to_uint n) as H.
  destruct (N.to_uint n); try discriminate; cbn; eexists _, _;
    (split; [reflexivity | unfold is_digit; lia]).
Qed.

(** An integer-indexed key is the decimal text of its index. *)
Lemma array_index_canonical (k : jstr) (i : N) :
  array_index k = Some i -> k = N_to_jstr i.
Proof.
  unfold array_index. destruct (take_digits k) as [d rest] eqn:E.
  destruct rest; [| discriminate].
  destruct (int_part_ok d) eqn:Hok; [| discriminate].
  destruct (N.of_uint d <=? 4294967294); [| discriminate].
  cbn. intros [= <-]. apply take_digits_inv in E. rewrite app_nil_r in E.
  unfold N_to_jstr. rewrite int_part_ok_canonical by exact Hok. exact E.
Qed.

Lemma array_index_inj (a b : jstr) (i : N) :
  array_index a = Some i -> array_index b = Some i -> a = b.
Proof.
  intros Ha Hb. apply array_index_canonical in Ha, Hb. congruence.
Qed.

End JsonNumbers.

(** ** Numbers: rounding, and the text of a value read back *)

Section Rounding.
Local Open Scope Z_scope.

Lemma spacing_nonneg (u : Z) : 0 <= spacing u.
Proof. unfold spacing. lia. Qed.

Lemma pow2_pos (j : Z) : 0 <= j -> 0 < 2 ^ j.
Proof. intros. apply Z.pow_pos_nonneg; lia. Qed.

(** Rounding depends on the rational only. *)
Lemma round_units_scale (c num den : Z) :
  0 < c -> 0 < den -> round_units (c * num) (c * den) = round_units num den.
Proof.
  intros Hc Hden. unfold round_units.
  rewrite Z.div_mul_cancel_l by lia.
  set (j := spacing (num / den)).
  pose proof (pow2_pos j (spacing_nonneg _)) as Hj.
  replace (c * den * 2 ^ j) with (c * (den * 2 ^ j)) by ring.
  assert (Hd : 0 < den * 2 ^ j) by nia.
  rewrite Z.div_mul_cancel_l by lia.
  rewrite Z.mul_mod_distr_l by lia.
  set (d := den * 2 ^ j) in *. set (r := num mod d).
  replace (c * d <? 2 * (c * r)) with (d <? 2 * r)
    by (destruct (Z.ltb_spec d (2 * r)); symmetry;
        [apply Z.ltb_lt | apply Z.ltb_ge]; nia).
  replace (c * d =? 2 * (c * r)) with (d =? 2 * r)
    by (destruct (Z.eqb_spec d (2 * r)); symmetry;
        [apply Z.eqb_eq | apply Z.eqb_neq]; nia).
  reflexivity.
Qed.

Lemma round_units_same (num den num' den' : Z) :
  0 < den -> 0 < den' -> num * den' = num' * den ->
  round_units num den = round_units num' den'.
Proof.
  intros Hd Hd' E.
  rewrite <- (round_units_scale den' num den) by assumption.
  rewrite <- (round_units_scale den num' den') by assumption.
  f_equal; lia.
Qed.

(** A value of the format is rounded to itself. *)
Lemma round_units_exact (u den : Z) :
  representable u -> 0 < den -> round_units (u * den) den = u.
Proof.
  intros [Hu Hmod] Hden. unfold round_units.
  rewrite Z.div_mul by lia.
  set (j := spacing u) in *.
  pose proof (pow2_pos j (spacing_nonneg _)) as Hj.
  replace (u * den) with (den * u) by ring.
  rewrite Z.div_mul_cancel_l by lia.
  rewrite Z.mul_mod_distr_l by lia.
  rewrite Hmod, Z.mul_0_r.
  replace (den * 2 ^ j <? 2 * 0) with false
    by (symmetry; apply Z.ltb_ge; nia).
  replace (den * 2 ^ j =? 2 * 0) with false
    by (symmetry; apply Z.eqb_neq; nia).
  cbn [orb andb].
  pose proof (Z.div_mod u (2 ^ j) ltac:(lia)). lia.
Qed.

(** What rounding yields is a value of the format, or the overflow. *)
Lemma round_units_representable (num den : Z) :
  0 <= num -> 0 < den -> representable (round_units num den).
Proof.
  intros Hnum Hden. unfold round_units.
  set (x := num / den).
  set (j := spacing x).
  pose proof (spacing_nonneg x) as Hj0. fold j in Hj0.
  pose proof (pow2_pos j Hj0) as Hj.
  assert (Hx : 0 <= x) by (apply Z.div_pos; lia).
  assert (Hq : num / (den * 2 ^ j) = x / 2 ^ j)
    by (unfold x; rewrite Z.div_div by lia; reflexivity).
  rewrite Hq.
  assert (Hq0 : 0 <= x / 2 ^ j) by (apply Z.div_pos; lia).
  assert (Hq53 : x / 2 ^ j < 2 ^ 53).
  { destruct (Z.eq_dec x 0) as [-> | Hx0];
      [rewrite Z.div_0_l by lia; reflexivity |].
    pose proof (Z.log2_spec x ltac:(lia)) as [_ Hup].
    apply Z.div_lt_upper_bound; [lia |].
    unfold j, spacing in *.
    destruct (Z.max_spec 0 (Z.log2 x - 52)) as [[Hlt ->] | [Hge ->]].
    - rewrite <- Z.pow_add_r by lia.
      replace (Z.log2 x - 52 + 53) with (Z.succ (Z.log2 x)) by lia.
      exact Hup.
    - rewrite Z.pow_0_r, Z.mul_1_l.
      eapply Z.lt_le_trans; [exact Hup |].
      apply Z.pow_le_mono_r; lia. }
  match goal with
  | |- context [if ?c then ?a else ?b] => set (m := if c then a else b)
  end.
  assert (Hm : 0 <= m <= 2 ^ 53)
    by (unfold m; destruct (_ || _); lia).
  split; [nia |].
  destruct (Z.eq_dec m 0) as [-> | Hm0]; [reflexivity |].
  set (k := spacing (m * 2 ^ j)).
  pose proof (pow2_pos k (spacing_nonneg _)) as Hk.
  apply Z.mod_divide; [lia |].
  destruct (Z.eq_dec m (2 ^ 53)) as [E | Hm53].
  - assert (Hk' : k = j + 1).
    { unfold k, spacing. rewrite E, <- Z.pow_add_r by lia.
      rewrite Z.log2_pow2 by lia. lia. }
    exists (2 ^ 52). rewrite E, Hk', <- !Z.pow_add_r by lia. f_equal. lia.
  - assert (Hlog : Z.log2 (m * 2 ^ j) <= 52 + j).
    { rewrite Z.log2_mul_pow2 by lia.
      assert (Z.log2 m < 53) by (apply Z.log2_lt_pow2; lia). lia. }
    assert (Hkj : 0 <= k <= j) by (unfold k, spacing; lia).
    exists (m * 2 ^ (j - k)).
    replace (2 ^ j) with (2 ^ (j - k) * 2 ^ k)
      by (rewrite <- Z.pow_add_r by lia; f_equal; lia).
    ring.
Qed.

End Rounding.

Section Decimals.
Local Open Scope Z_scope.

Lemma decimal_units_same (s t s' t' : Z) :
  same_decimal s t s' t' -> decimal_units s t = decimal_units s' t'.
Proof.
  unfold same_decimal, decimal_units. intros E.
  apply round_units_same; try (apply Z.pow_pos_nonneg; lia).
  generalize dependent (2 ^ 1074). intros P.
  transitivity (s * 10 ^ Z.max 0 t * 10 ^ Z.max 0 (- t') * P); [ring |].
  rewrite E. ring.
Qed.

Lemma decimal_units_zero (t : Z) : decimal_units 0 t = 0.
Proof.
  unfold decimal_units. rewrite !Z.mul_0_l.
  rewrite <- (Z.mul_0_l (10 ^ Z.max 0 (- t))) at 1.
  apply round_units_exact; [split; [lia | reflexivity] |].
  apply Z.pow_pos_nonneg; lia.
Qed.

(** The exact decimal of a value denotes it. *)
Lemma exact_decimal_denotes (u : Z) :
  representable u ->
  decimal_units (fst (exact_decimal u)) (snd (exact_decimal u)) = u.
Proof.
  intros Hu. unfold exact_decimal, decimal_units. cbn [fst snd].
  change (Z.max 0 (-1074)) with 0. change (Z.max 0 (- -1074)) with 1074.
  rewrite Z.pow_0_r, Z.mul_1_r.
  replace (u * 5 ^ 1074 * 2 ^ 1074) with (u * 10 ^ 1074)
    by (change 10 with (5 * 2); rewrite Z.pow_mul_l; ring).
  apply round_units_exact; [exact Hu | apply Z.pow_pos_nonneg; lia].
Qed.

Lemma candidate_denotes (u k s t : Z) :
  candidate u k = Some (s, t) -> decimal_units s t = u.
Proof.
  unfold candidate.
  repeat match goal with
         | |- context [if ?c then _ else _] => destruct c eqn:?
         end;
    intros [= <- <-]; try discriminate;
    apply Z.eqb_eq; assumption.
Qed.

Lemma candidate_nonneg (u k s t : Z) :
  0 <= u -> candidate u k = Some (s, t) -> 0 <= s.
Proof.
  intros Hu. unfold candidate.
  set (den := 2 ^ 1074 * _). set (num := u * _).
  assert (0 < den)
    by (unfold den; apply Z.mul_pos_pos; apply Z.pow_pos_nonneg; lia).
  assert (0 <= num)
    by (unfold num; apply Z.mul_nonneg_nonneg;
        [lia | apply Z.pow_nonneg; lia]).
  assert (0 <= num / den) by (apply Z.div_pos; lia).
  repeat match goal with
         | |- context [if ?c then _ else _] => destruct c
         end;
    intros [= <- <-]; try discriminate; lia.
Qed.

Lemma shortest_from_positive (fuel : nat) (u : Z) :
  0 < u -> forall k, 0 < fst (shortest_from fuel k u).
Proof.
  intros Hpos. induction fuel as [| fuel IH]; intros k; cbn.
  - apply Z.mul_pos_pos; [lia | apply Z.pow_pos_nonneg; lia].
  - destruct (candidate u k) as [[s t] |] eqn:Ec; [| apply IH]. cbn.
    pose proof (candidate_denotes _ _ _ _ Ec) as H.
    pose proof (candidate_nonneg u k s t ltac:(lia) Ec) as H0.
    destruct (Z.eq_dec s 0) as [-> | ?]; [| lia].
    rewrite decimal_units_zero in H. lia.
Qed.

Lemma shortest_from_denotes (fuel : nat) (u : Z) :
  representable u ->
  forall k,
    decimal_units (fst (shortest_from fuel k u)) (snd (shortest_from fuel k u))
    = u.
Proof.
  intros Hu. induction fuel as [| fuel IH]; intros k; cbn.
  - apply exact_decimal_denotes, Hu.
  - destruct (candidate u k) as [[s t] |] eqn:Ec; [| apply IH].
    apply (candidate_denotes _ _ _ _ Ec).
Qed.

(** The integers of the safe range are values, and are read as such. *)
Lemma integer_representable (z : Z) :
  0 <= z < 2 ^ 53 -> representable (z * 2 ^ 1074).
Proof.
  intros Hz. split; [apply Z.mul_nonneg_nonneg; [lia | apply Z.pow_nonneg; lia] |].
  destruct (Z.eq_dec z 0) as [-> | Hz0]; [reflexivity |].
  assert (Hlog : Z.log2 z < 53) by (apply Z.log2_lt_pow2; lia).
  set (k := spacing (z * 2 ^ 1074)).
  assert (Hk : 0 <= k <= 1074).
  { unfold k, spacing. rewrite Z.log2_mul_pow2 by lia. lia. }
  apply Z.mod_divide; [pose proof (pow2_pos k); lia |].
  exists (z * 2 ^ (1074 - k)).
  replace (2 ^ 1074) with (2 ^ (1074 - k) * 2 ^ k)
    by (rewrite <- Z.pow_add_r by lia; f_equal; lia).
  ring.
Qed.

Lemma decimal_units_integer (z : Z) :
  0 <= z < 2 ^ 53 -> decimal_units z 0 = z * 2 ^ 1074.
Proof.
  intros Hz. unfold decimal_units.
  change (Z.max 0 0) with 0. change (Z.max 0 (- 0)) with 0.
  rewrite Z.pow_0_r, Z.mul_1_r.
  rewrite <- (Z.mul_1_r (z * 2 ^ 1074)) at 1.
  apply round_units_exact; [apply integer_representable, Hz | lia].
Qed.

Lemma safe_integer_integer (z : Z) :
  0 <= z <= 9007199254740991 -> safe_integer (z * 2 ^ 1074) = Some z.
Proof.
  intros Hz. unfold safe_integer.
  assert (0 < 2 ^ 1074) by (apply Z.pow_pos_nonneg; lia).
  rewrite Z.mod_mul, Z.div_mul by lia.
  replace (z <=? 9007199254740991) with true
    by (symmetry; apply Z.leb_le; lia).
  reflexivity.
Qed.

End Decimals.

Section DigitTexts.
Import JSON.

Lemma is_digit_char_spec (c : N) : is_digit_char c = true <-> 48 <= c <= 57.
Proof. unfold is_digit_char. rewrite andb_true_iff, !N.leb_le. reflexivity. Qed.

Lemma all_digits_app (a b : jstr) :
  all_digits (a ++ b) <-> all_digits a /\ all_digits b.
Proof. unfold all_digits. rewrite forallb_app, andb_true_iff. reflexivity. Qed.

Lemma all_digits_uint_chars (d : Decimal.uint) : all_digits (uint_chars d).
Proof. unfold all_digits. induction d; cbn; auto. Qed.

Lemma all_digits_replicate (z : nat) : all_digits (replicate z 48).
Proof. unfold all_digits. induction z; cbn; auto. Qed.

Lemma span_digits_app (ds rest : jstr) :
  all_digits ds -> digits_end rest -> span_digits (ds ++ rest) = (ds, rest).
Proof.
  unfold all_digits. intros Hds Hrest. induction ds as [| c ds IH]; cbn.
  - destruct rest as [| c rest]; [reflexivity |]. cbn in *.
    rewrite Hrest. reflexivity.
  - cbn in Hds. apply andb_true_iff in Hds as [Hc Hds].
    rewrite Hc, (IH Hds). reflexivity.
Qed.

Lemma fold_digits (ds : jstr) : forall acc : Z,
  fold_left (fun a c => (10 * a + Z.of_N (c - 48))%Z) ds acc
  = (acc * 10 ^ Z.of_nat (length ds) + digits_value ds)%Z.
Proof.
  unfold digits_value.
  induction ds as [| c ds IH]; intros acc; cbn [fold_left length].
  - cbn. lia.
  - rewrite IH, (IH (10 * 0 + _)%Z).
    rewrite Nat2Z.inj_succ, Z.pow_succ_r by lia. ring.
Qed.

Lemma digits_value_app (a b : jstr) :
  digits_value (a ++ b)
  = (digits_value a * 10 ^ Z.of_nat (length b) + digits_value b)%Z.
Proof.
  unfold digits_value at 1. rewrite fold_left_app.
  fold (digits_value a). apply fold_digits.
Qed.

Lemma digits_value_zeros (z : nat) : digits_value (replicate z 48) = 0%Z.
Proof.
  induction z as [| z IH]; [reflexivity |].
  change (replicate (S z) 48) with ([48] ++ replicate z 48).
  rewrite digits_value_app, IH. reflexivity.
Qed.

Lemma digits_value_acc (d : Decimal.uint) : forall acc : positive,
  fold_left (fun a c => (10 * a + Z.of_N (c - 48))%Z) (uint_chars d) (Zpos acc)
  = Zpos (Pos.of_uint_acc d acc).
Proof.
  induction d; intros acc; cbn [uint_chars fold_left Pos.of_uint_acc];
    [reflexivity | rewrite <- IHd; f_equal; lia ..].
Qed.

Lemma digits_value_uint (d : Decimal.uint) :
  digits_value (uint_chars d) = Z.of_N (N.of_uint d).
Proof.
  unfold digits_value, N.of_uint.
  induction d; cbn [uint_chars fold_left Pos.of_uint];
    [reflexivity | exact IHd | ..];
    match goal with
    | |- fold_left _ _ ?a = _ =>
        let p := eval cbv in a in
        change a with p; rewrite digits_value_acc; reflexivity
    end.
Qed.

Lemma digits_value_N (n : N) : digits_value (N_to_jstr n) = Z.of_N n.
Proof.
  unfold N_to_jstr. rewrite digits_value_uint, Unsigned.of_to. reflexivity.
Qed.

Lemma N_to_jstr_positive (n : N) :
  0 < n -> exists c ds, N_to_jstr n = c :: ds /\ c <> 48.
Proof.
  intros Hn. pose proof (digits_value_N n) as Hv.
  pose proof (Unsigned.to_of (N.to_uint n)) as Hcanon.
  rewrite Unsigned.of_to in Hcanon. unfold N_to_jstr in *.
  destruct (N.to_uint n) as [| d | d | d | d | d | d | d | d | d | d] eqn:E;
    cbn [uint_chars]; try (eexists _, _; split; [reflexivity | discriminate]).
  - cbn in Hv. lia.
  - exfalso. unfold Decimal.unorm in Hcanon. cbn [Decimal.nzhead] in Hcanon.
    destruct (Decimal.nzhead d) eqn:Ed; try discriminate Hcanon.
    + injection Hcanon as ->. cbn in Hv. lia.
    + clear -Ed.
      assert (H : forall x y, Decimal.nzhead x <> Decimal.D0 y)
        by (induction x; cbn; intros; try discriminate; auto).
      eapply H. exact Ed.
Qed.

Lemma strip_zeros_split (ds : jstr) :
  ds = strip_zeros ds
       ++ replicate (length ds - length (strip_zeros ds)) 48.
Proof.
  induction ds as [| c ds IH]; [reflexivity |]. cbn [strip_zeros].
  destruct (strip_zeros ds) as [| r rs] eqn:E.
  - cbn [length app] in IH. rewrite Nat.sub_0_r in IH.
    destruct (N.eqb_spec c 48) as [-> | Hc]; cbn [length app].
    + rewrite Nat.sub_0_r. cbn [replicate]. f_equal. exact IH.
    + replace (S (length ds) - 1)%nat with (length ds) by lia.
      f_equal. exact IH.
  - cbn [length app] in *. f_equal. exact IH.
Qed.

Lemma strip_zeros_head (c : N) (ds : jstr) :
  c <> 48 -> exists r, strip_zeros (c :: ds) = c :: r.
Proof.
  intros Hc. cbn [strip_zeros]. apply N.eqb_neq in Hc. rewrite Hc.
  destruct (strip_zeros ds); eauto.
Qed.

End DigitTexts.

Section NumberTexts.
Import JSON.

Lemma literal_ends_digits (rest : jstr) : literal_ends rest -> digits_end rest.
Proof. destruct rest; [trivial | intros [H _]; exact H]. Qed.

Lemma fraction_absent (s : jstr) :
  match s with c :: _ => c <> 46 | [] => True end ->
  fraction s = Some ([], s).
Proof.
  destruct s as [| c s]; [reflexivity |]. intros H. cbn.
  apply N.eqb_neq in H. rewrite H. reflexivity.
Qed.

Lemma exponent_absent (s : jstr) :
  match s with c :: _ => c <> 101 /\ c <> 69 | [] => True end ->
  exponent s = Some (0%Z, s).
Proof.
  destruct s as [| c s]; [reflexivity |]. intros [H1 H2]. cbn.
  apply N.eqb_neq in H1, H2. rewrite H1, H2. reflexivity.
Qed.

Lemma fraction_digits (fs rest : jstr) :
  all_digits fs -> fs <> [] -> digits_end rest ->
  fraction (46 :: fs ++ rest) = Some (fs, rest).
Proof.
  intros Hfs Hne Hrest. cbn [fraction]. change (46 =? 46) with true.
  cbv iota. rewrite (span_digits_app fs rest Hfs Hrest).
  destruct fs; [congruence | reflexivity].
Qed.

Lemma exponent_read (e : Z) (rest : jstr) :
  digits_end rest -> exponent (exponent_text e ++ rest) = Some (e, rest).
Proof.
  intros Hrest. unfold exponent_text. cbn [app exponent].
  change (101 =? 101) with true. cbn [orb].
  assert (Hspan : span_digits (N_to_jstr (Z.abs_N e) ++ rest)
                  = (N_to_jstr (Z.abs_N e), rest))
    by (apply span_digits_app; [apply all_digits_uint_chars | exact Hrest]).
  assert (Hne : exists c ds, N_to_jstr (Z.abs_N e) = c :: ds).
  { unfold N_to_jstr.
    pose proof (Unsigned.to_of (N.to_uint (Z.abs_N e))) as H.
    rewrite Unsigned.of_to in H.
    destruct (N.to_uint (Z.abs_N e)); cbn [uint_chars]; eauto.
    discriminate H. }
  destruct (Z.ltb_spec e 0) as [Hneg | Hpos]; cbn [exponent_sign].
  - change (45 =? 45) with true. cbv iota. rewrite Hspan.
    destruct Hne as (c & ds & Hne). rewrite Hne at 1.
    rewrite digits_value_N. do 2 f_equal. lia.
  - change (43 =? 45) with false. change (43 =? 43) with true. cbv iota.
    rewrite Hspan. destruct Hne as (c & ds & Hne). rewrite Hne at 1.
    rewrite digits_value_N. do 2 f_equal. lia.
Qed.

Lemma parse_unsigned_parts (s int s2 frac s3 rest : jstr) (e : Z) :
  span_digits s = (int, s2) -> int_digits_ok int = true ->
  fraction s2 = Some (frac, s3) -> exponent s3 = Some (e, rest) ->
  parse_unsigned s
  = Some (digits_value (int ++ frac), (e - Z.of_nat (length frac))%Z, rest).
Proof.
  intros H1 H2 H3 H4. unfold parse_unsigned. rewrite H1, H2, H3, H4.
  reflexivity.
Qed.

Lemma int_digits_ok_nonzero (c : N) (ds : jstr) :
  c <> 48 -> int_digits_ok (c :: ds) = true.
Proof.
  intros H. cbn. destruct ds; [reflexivity |].
  apply N.eqb_neq in H. rewrite H. reflexivity.
Qed.

Lemma same_decimal_refl (s t : Z) : same_decimal s t s t.
Proof. reflexivity. Qed.

Lemma digits_end_exponent_text (e : Z) (rest : jstr) :
  digits_end (exponent_text e ++ rest).
Proof. reflexivity. Qed.

(** The text of steps 6 to 10 is a number literal for the decimal it
    was made from. *)
Lemma parse_unsigned_format (c : N) (ds0 rest : jstr) (n : Z) :
  c <> 48 -> all_digits (c :: ds0) -> literal_ends rest ->
  exists m t,
    parse_unsigned (format_digits (c :: ds0) n ++ rest) = Some (m, t, rest)
    /\ same_decimal m t (digits_value (c :: ds0))
         (n - Z.of_nat (length (c :: ds0))).
Proof.
  intros Hc Hds Hrest.
  pose proof (literal_ends_digits rest Hrest) as Hend.
  assert (Hfrac : fraction rest = Some ([], rest))
    by (apply fraction_absent; destruct rest; [trivial | apply Hrest]).
  assert (Hexp : exponent rest = Some (0%Z, rest))
    by (apply exponent_absent; destruct rest; [trivial |];
        split; apply Hrest).
  remember (c :: ds0) as ds eqn:Eds.
  set (k := Z.of_nat (length ds)).
  assert (Hk : (1 <= k)%Z) by (unfold k; subst ds; cbn [length]; lia).
  unfold format_digits. fold k.
  destruct ((k <=? n) && (n <=? 21))%Z eqn:EA.
  { apply andb_true_iff in EA as [H1 H2]. apply Z.leb_le in H1, H2.
    eexists _, _. split.
    - eapply parse_unsigned_parts; [| | exact Hfrac | exact Hexp].
      + apply span_digits_app; [| exact Hend].
        apply all_digits_app. split; [exact Hds | apply all_digits_replicate].
      + subst ds. apply int_digits_ok_nonzero, Hc.
    - rewrite app_nil_r, digits_value_app, digits_value_zeros,
        length_replicate.
      change (0 - Z.of_nat (length (@nil N)))%Z with 0%Z.
      unfold same_decimal. rewrite Z2Nat.id by lia.
      change (Z.max 0 0) with 0%Z. change (Z.max 0 (- 0)) with 0%Z.
      rewrite (Z.max_l 0 (- (n - k))) by lia.
      rewrite (Z.max_r 0 (n - k)) by lia. ring. }
  destruct ((0 <? n) && (n <=? 21))%Z eqn:EB.
  { apply andb_true_iff in EB as [H1 H2].
    apply Z.ltb_lt in H1. apply Z.leb_le in H2.
    apply andb_false_iff in EA as [EA | EA];
      [apply Z.leb_gt in EA | apply Z.leb_gt in EA; lia].
    set (j := Z.to_nat n).
    assert (Hj : (0 < j < length ds)%nat) by (unfold j; lia).
    pose proof (take_drop j ds) as Hsplit.
    assert (Hboth : all_digits (take j ds) /\ all_digits (drop j ds))
      by (apply all_digits_app; rewrite Hsplit; exact Hds).
    destruct Hboth as [Ht Hd].
    assert (Hdne : drop j ds <> [])
      by (intros E; apply (f_equal length) in E;
          rewrite length_drop in E; cbn in E; lia).
    eexists _, _. split.
    - rewrite <- !app_assoc.
      eapply parse_unsigned_parts; [| | | exact Hexp].
      + apply span_digits_app; [exact Ht | reflexivity].
      + subst ds. destruct j as [| j']; [lia |].
        cbn [take]. apply int_digits_ok_nonzero, Hc.
      + cbn [app]. apply fraction_digits; assumption.
    - rewrite Hsplit, length_drop. unfold k, j.
      replace (0 - Z.of_nat (length ds - Z.to_nat n))%Z
        with (n - Z.of_nat (length ds))%Z by lia.
      apply same_decimal_refl. }
  destruct ((-6 <? n) && (n <=? 0))%Z eqn:EC.
  { apply andb_true_iff in EC as [H1 H2].
    apply Z.ltb_lt in H1. apply Z.leb_le in H2.
    eexists _, _. split.
    - replace (([48; 46] ++ replicate (Z.to_nat (- n)) 48 ++ ds) ++ rest)
        with (48 :: 46 :: (replicate (Z.to_nat (- n)) 48 ++ ds) ++ rest)
        by (cbn [app]; rewrite <- app_assoc; reflexivity).
      eapply parse_unsigned_parts
        with (int := [48])
             (s2 := 46 :: (replicate (Z.to_nat (- n)) 48 ++ ds) ++ rest);
        [| | | exact Hexp].
      + reflexivity.
      + reflexivity.
      + apply fraction_digits.
        * apply all_digits_app. split; [apply all_digits_replicate | exact Hds].
        * subst ds. destruct (replicate _ _); discriminate.
        * exact Hend.
    - rewrite (digits_value_app [48]), (digits_value_app (replicate _ _)),
        digits_value_zeros.
      change (digits_value [48]) with 0%Z.
      rewrite length_app, length_replicate. unfold k.
      replace (0 - Z.of_nat (Z.to_nat (- n) + length ds))%Z
        with (n - Z.of_nat (length ds))%Z by lia.
      rewrite !Z.mul_0_l, !Z.add_0_l. apply same_decimal_refl. }
  assert (Hn : (n <= -6 \/ 21 < n)%Z).
  { apply andb_false_iff in EB, EC.
    rewrite Z.ltb_ge, Z.leb_gt in EB, EC. lia. }
  destruct (Z.eqb_spec k 1) as [Hk1 | Hk1].
  { assert (Hds0 : ds0 = []).
    { subst ds. unfold k in Hk1. cbn [length] in Hk1.
      destruct ds0; [reflexivity | cbn [length] in Hk1; lia]. }
    eexists _, _. split.
    - rewrite <- !app_assoc.
      eapply parse_unsigned_parts.
      + apply span_digits_app; [exact Hds | apply digits_end_exponent_text].
      + subst ds. apply int_digits_ok_nonzero, Hc.
      + apply fraction_absent. unfold exponent_text. cbn [app]. discriminate.
      + apply exponent_read, Hend.
    - rewrite app_nil_r. cbn [length].
      replace (n - 1 - Z.of_nat 0)%Z with (n - k)%Z by lia.
      apply same_decimal_refl. }
  { assert (Hlen : (2 <= length ds)%nat) by lia.
    pose proof (take_drop 1 ds) as Hsplit.
    assert (Hboth : all_digits (take 1 ds) /\ all_digits (drop 1 ds))
      by (apply all_digits_app; rewrite Hsplit; exact Hds).
    destruct Hboth as [Ht Hd].
    assert (Hdne : drop 1 ds <> [])
      by (intros E; apply (f_equal length) in E;
          rewrite length_drop in E; cbn in E; lia).
    eexists _, _. split.
    - rewrite <- !app_assoc.
      eapply parse_unsigned_parts.
      + apply span_digits_app; [exact Ht | reflexivity].
      + subst ds. cbn [take]. apply int_digits_ok_nonzero, Hc.
      + cbn [app]. apply fraction_digits;
          [exact Hd | exact Hdne | apply digits_end_exponent_text].
      + apply exponent_read, Hend.
    - rewrite Hsplit, length_drop.
      replace (n - 1 - Z.of_nat (length ds - 1))%Z with (n - k)%Z
        by (unfold k; lia).
      apply same_decimal_refl. }
Qed.

End NumberTexts.

Section NumberRoundTrip.
Import JSON.

Lemma format_digits_head (c : N) (ds0 : jstr) (n : Z) :
  is_digit_char c = true ->
  exists d x, format_digits (c :: ds0) n = d :: x /\ is_digit_char d = true.
Proof.
  intros Hc. unfold format_digits.
  repeat match goal with
         | |- context [if ?b then _ else _] => destruct b eqn:?
         end; cbn [app take]; eauto.
  apply andb_true_iff in Heqb0 as [H _]. apply Z.ltb_lt in H.
  destruct (Z.to_nat n) eqn:E; [lia |]. cbn [take app]. eauto.
Qed.

Lemma minus_sign_digit_char (c : N) (t : jstr) :
  is_digit_char c = true -> minus_sign (c :: t) = (false, c :: t).
Proof.
  intros H. apply is_digit_char_spec in H. unfold minus_sign.
  destruct (N.eqb_spec c 45); [lia | reflexivity].
Qed.

Lemma same_decimal_shift (v t : Z) (z : nat) :
  same_decimal v (t + Z.of_nat z) (v * 10 ^ Z.of_nat z) t.
Proof.
  unfold same_decimal.
  rewrite <- !Z.mul_assoc, <- !Z.pow_add_r by lia. do 2 f_equal. lia.
Qed.

(** The digits [Number::toString] writes for a value, and the decimal
    they stand for. *)
Lemma units_digits (u : Z) :
  (0 < u)%Z ->
  exists c r n,
    units_to_string u = format_digits (c :: r) n
    /\ c <> 48 /\ all_digits (c :: r)
    /\ decimal_units (digits_value (c :: r))
         (n - Z.of_nat (length (c :: r)))
       = decimal_units (fst (shortest u)) (snd (shortest u)).
Proof.
  intros Hpos. unfold units_to_string.
  pose proof (shortest_from_positive 17 u Hpos 1%Z) as Hs. fold (shortest u) in Hs.
  destruct (shortest u) as [s t]. cbn [fst snd] in *.
  destruct (N_to_jstr_positive (Z.to_N s) ltac:(lia)) as (c & ds & Eds & Hc).
  rewrite Eds.
  destruct (strip_zeros_head c ds Hc) as [r Er]. rewrite Er.
  exists c, r, (Z.of_nat (length (c :: ds)) + t)%Z.
  pose proof (strip_zeros_split (c :: ds)) as Hsplit. rewrite Er in Hsplit.
  pose proof (all_digits_uint_chars (N.to_uint (Z.to_N s))) as Hall.
  fold (N_to_jstr (Z.to_N s)) in Hall. rewrite Eds in Hall.
  split; [reflexivity |]. split; [exact Hc |]. split.
  - rewrite Hsplit in Hall. apply all_digits_app in Hall. apply Hall.
  - set (z := (length (c :: ds) - length (c :: r))%nat) in *.
    assert (Hlen : length (c :: ds) = (length (c :: r) + z)%nat)
      by (rewrite Hsplit at 1; rewrite length_app, length_replicate;
          reflexivity).
    assert (Hval : s = (digits_value (c :: r) * 10 ^ Z.of_nat z)%Z).
    { pose proof (digits_value_N (Z.to_N s)) as Hv. rewrite Eds in Hv.
      rewrite Hsplit, digits_value_app, digits_value_zeros,
        length_replicate in Hv. lia. }
    rewrite Hlen.
    replace (decimal_units s t)
      with (decimal_units (digits_value (c :: r) * 10 ^ Z.of_nat z) t)
      by (rewrite <- Hval; reflexivity).
    replace (Z.of_nat (length (c :: r) + z) + t - Z.of_nat (length (c :: r)))%Z
      with (t + Z.of_nat z)%Z by lia.
    apply decimal_units_same, same_decimal_shift.
Qed.

(** The text of a finite value starts with a digit. *)
Lemma units_to_string_head (u : Z) :
  (0 < u)%Z ->
  exists d x, units_to_string u = d :: x /\ is_digit_char d = true.
Proof.
  intros Hpos.
  destruct (units_digits u Hpos) as (c & r & n & -> & _ & Hall & _).
  apply format_digits_head.
  unfold all_digits in Hall. cbn in Hall. apply andb_true_iff in Hall.
  apply Hall.
Qed.

(** The text of a finite value is a number literal whose decimal is
    rounded to the value. *)
Lemma parse_decimal_units (neg : bool) (u : Z) (rest : jstr) :
  representable u -> (0 < u)%Z -> literal_ends rest ->
  exists m t,
    parse_decimal ((if neg then [45] else []) ++ units_to_string u ++ rest)
    = Some (neg, m, t, rest)
    /\ decimal_units m t = u.
Proof.
  intros Hu Hpos Hrest.
  destruct (units_digits u Hpos) as (c & r & n & -> & Hc & Hall & Hden).
  unfold shortest in Hden. rewrite (shortest_from_denotes 17 u Hu 1%Z) in Hden.
  destruct (parse_unsigned_format c r rest n Hc Hall Hrest)
    as (m & t & Hparse & Hsame).
  exists m, t. split.
  - unfold parse_decimal. destruct neg; cbn [app].
    + cbn [minus_sign]. change (45 =? 45) with true. cbv iota.
      rewrite Hparse. reflexivity.
    + assert (Hcd : is_digit_char c = true)
        by (unfold all_digits in Hall; cbn in Hall;
            apply andb_true_iff in Hall; apply Hall).
      destruct (format_digits_head c r n Hcd) as (d & x & Ed & Hd).
      rewrite Ed in *. cbn [app] in *.
      rewrite (minus_sign_digit_char d _ Hd), Hparse. reflexivity.
  - rewrite <- Hden. apply decimal_units_same, Hsame.
Qed.

(** The text of a safe integer is a number literal for it. *)
Lemma parse_decimal_integer (z : Z) (rest : jstr) :
  literal_ends rest ->
  parse_decimal (Z_to_jstr z ++ rest)
  = Some (bool_decide (z < 0)%Z, Z.abs z, 0%Z, rest).
Proof.
  intros Hrest.
  pose proof (literal_ends_digits rest Hrest) as Hend.
  assert (Hfrac : fraction rest = Some ([], rest))
    by (apply fraction_absent; destruct rest; [trivial | apply Hrest]).
  assert (Hexp : exponent rest = Some (0%Z, rest))
    by (apply exponent_absent; destruct rest; [trivial |];
        split; apply Hrest).
  assert (Hnat : forall n : N,
            parse_unsigned (N_to_jstr n ++ rest) = Some (Z.of_N n, 0%Z, rest)).
  { intros n.
    erewrite parse_unsigned_parts;
      [| apply span_digits_app; [apply all_digits_uint_chars | exact Hend]
       | | exact Hfrac | exact Hexp].
    - rewrite app_nil_r, digits_value_N. reflexivity.
    - destruct (N.eq_dec n 0) as [-> | Hn]; [reflexivity |].
      destruct (N_to_jstr_positive n ltac:(lia)) as (c & ds & -> & Hc).
      apply int_digits_ok_nonzero, Hc. }
  unfold parse_decimal. destruct z as [| p | p]; cbn [Z_to_jstr app].
  - cbn [minus_sign]. change (48 =? 45) with false. cbv iota.
    change (48 :: rest) with (N_to_jstr 0 ++ rest). rewrite (Hnat 0).
    reflexivity.
  - destruct (N_to_jstr_positive (Npos p) ltac:(lia)) as (c & ds & E & Hc).
    pose proof (all_digits_uint_chars (N.to_uint (Npos p))) as Hall.
    fold (N_to_jstr (Npos p)) in Hall. rewrite E in Hall.
    unfold all_digits in Hall. cbn in Hall. apply andb_true_iff in Hall.
    specialize (Hnat (Npos p)). rewrite E in *. cbn [app] in *.
    rewrite (minus_sign_digit_char c _ (proj1 Hall)), Hnat. reflexivity.
  - cbn [minus_sign]. change (45 =? 45) with true. cbv iota.
    rewrite (Hnat (Npos p)). reflexivity.
Qed.

End NumberRoundTrip.

Section JsonNumberValues.
Import JSON.

Lemma digits_value_nonneg (ds : jstr) : (0 <= digits_value ds)%Z.
Proof.
  induction ds as [| c ds IH] using rev_ind; [reflexivity |].
  rewrite digits_value_app.
  change (digits_value [c]) with (10 * 0 + Z.of_N (c - 48))%Z.
  change (10 ^ Z.of_nat (length [c]))%Z with 10%Z. lia.
Qed.

Lemma parse_decimal_nonneg (s rest : jstr) (neg : bool) (m t : Z) :
  parse_decimal s = Some (neg, m, t, rest) -> (0 <= m)%Z.
Proof.
  unfold parse_decimal, parse_unsigned.
  destruct (minus_sign s) as [sg s1].
  destruct (span_digits s1) as [int s2].
  destruct (negb (int_digits_ok int)); [discriminate |].
  destruct (fraction s2) as [[frac s3] |]; [| discriminate].
  destruct (exponent s3) as [[e s4] |]; [| discriminate].
  intros [= _ <- _ _]. apply digits_value_nonneg.
Qed.

Lemma decimal_units_representable (m t : Z) :
  (0 <= m)%Z -> representable (decimal_units m t).
Proof.
  intros Hm. unfold decimal_units. apply round_units_representable.
  - repeat apply Z.mul_nonneg_nonneg; try apply Z.pow_nonneg; lia.
  - apply Z.pow_pos_nonneg; lia.
Qed.

Lemma safe_integer_nonneg (u z : Z) :
  (0 <= u)%Z -> safe_integer u = Some z -> (0 <= z <= 9007199254740991)%Z.
Proof.
  intros Hu E. unfold safe_integer in E.
  destruct (_ && _) eqn:Hc; [| discriminate]. injection E as <-.
  apply andb_true_iff in Hc as [_ Hle]. apply Z.leb_le in Hle.
  split; [| exact Hle]. apply Z.div_pos; [exact Hu |].
  apply Z.pow_pos_nonneg; lia.
Qed.

(** What the parser makes of a literal is a Number in its one
    representation. *)
Lemma number_of_units_well_formed (neg : bool) (u : Z) :
  representable u -> well_formed (number_of_units neg u).
Proof.
  intros Hrep. pose proof Hrep as [Hu _]. unfold number_of_units.
  destruct (Z.eqb_spec u 0) as [-> | Hne].
  { destruct neg; constructor; [exact I | unfold safe; cbn; lia]. }
  destruct (Z.leb_spec overflow_units u) as [| Hlt];
    [constructor; exact I |].
  destruct (safe_integer u) as [z |] eqn:E.
  - apply (safe_integer_nonneg u z Hu) in E. constructor. unfold safe.
    destruct neg; lia.
  - constructor. cbn [proper]. rewrite Z2Pos.id by lia. auto.
Qed.

Lemma parse_number_well_formed (s rest : jstr) (v : json) :
  parse_number s = Some (v, rest) -> well_formed v.
Proof.
  unfold parse_number.
  destruct (parse_decimal s) as [[[[neg m] t] r] |] eqn:E; [| discriminate].
  intros [= <- _]. apply number_of_units_well_formed.
  apply decimal_units_representable. eapply parse_decimal_nonneg, E.
Qed.

Lemma follows_literal_ends (rest : jstr) : follows rest -> literal_ends rest.
Proof.
  destruct rest as [| c rest]; [trivial |].
  intros [-> | ->]; repeat split; discriminate.
Qed.

(** The text of a safe integer is read back as the integer. *)
Lemma parse_number_integer (z : Z) (rest : jstr) :
  safe z -> literal_ends rest ->
  parse_number (Z_to_jstr z ++ rest) = Some (JNum z, rest).
Proof.
  unfold safe. intros Hz Hrest. unfold parse_number.
  rewrite (parse_decimal_integer z rest Hrest). f_equal. f_equal.
  unfold number_of_decimal.
  assert (H53 : (0 <= Z.abs z < 2 ^ 53)%Z)
    by (change (2 ^ 53)%Z with 9007199254740992%Z; lia).
  rewrite (decimal_units_integer _ H53). unfold number_of_units.
  assert (HP : (0 < 2 ^ 1074)%Z) by (apply Z.pow_pos_nonneg; lia).
  destruct (Z.eqb_spec (Z.abs z * 2 ^ 1074) 0) as [E | Hne].
  { assert (z = 0%Z) by nia. subst z. reflexivity. }
  replace (overflow_units <=? Z.abs z * 2 ^ 1074)%Z with false.
  2:{ symmetry. apply Z.leb_gt. unfold overflow_units.
      change 2098%Z with (1024 + 1074)%Z. rewrite Z.pow_add_r by lia.
      apply Z.mul_lt_mono_pos_r; [exact HP |].
      eapply Z.lt_le_trans; [apply H53 |].
      apply Z.pow_le_mono_r; lia. }
  rewrite safe_integer_integer by lia. f_equal.
  destruct (bool_decide_reflect (z < 0)%Z); lia.
Qed.

(** The text of any other finite value is read back as the value. *)
Lemma parse_number_double (neg : bool) (u : positive) (rest : jstr) :
  proper (Finite neg u) -> literal_ends rest ->
  parse_number (double_to_string (Finite neg u) ++ rest)
  = Some (JDbl (Finite neg u), rest).
Proof.
  intros (Hrep & Hlt & Hns) Hrest.
  destruct (parse_decimal_units neg (Zpos u) rest Hrep ltac:(lia) Hrest)
    as (m & t & Hp & Hd).
  unfold parse_number.
  replace (double_to_string (Finite neg u) ++ rest)
    with ((if neg then [45] else []) ++ units_to_string (Zpos u) ++ rest)
    by (destruct neg; reflexivity).
  rewrite Hp. unfold number_of_decimal. rewrite Hd. unfold number_of_units.
  change (Zpos u =? 0)%Z with false. cbv iota.
  replace (overflow_units <=? Zpos u)%Z with false
    by (symmetry; apply Z.leb_gt; exact Hlt).
  rewrite Hns. reflexivity.
Qed.

End JsonNumberValues.
Section JsonObjects.
Import JSON.

Lemma has_key_spec (k : jstr) (ms : list (jstr * json)) :
  has_key k ms = true <-> k ∈ member_keys ms.
Proof.
  unfold member_keys. induction ms as [| [k' v'] ms IH]; cbn.
  - split; [discriminate | intros H; inversion H].
  - rewrite orb_true_iff, IH, elem_of_cons, jstr_eqb_true. reflexivity.
Qed.

Lemma has_key_false (k : jstr) (ms : list (jstr * json)) :
  has_key k ms = false <-> k ∉ member_keys ms.
Proof.
  rewrite <- has_key_spec. destruct (has_key k ms).
  - split; [discriminate | intros H; exfalso; apply H; reflexivity].
  - split; [intros _ H; discriminate H | reflexivity].
Qed.

Lemma keys_replace_value k v ms : member_keys (replace_value k v ms) = member_keys ms.
Proof.
  unfold member_keys. induction ms as [| [k' v'] ms IH]; cbn; [reflexivity |].
  destruct (jstr_eqb k k'); cbn; [reflexivity | rewrite IH; reflexivity].
Qed.

Lemma values_replace_value (P : json -> Prop) k v ms :
  P v -> Forall P (map snd ms) -> Forall P (map snd (replace_value k v ms)).
Proof.
  intros Hv. induction ms as [| [k' v'] ms IH]; cbn; [constructor |].
  intros H. apply Forall_cons in H as [H1 H2].
  destruct (jstr_eqb k k'); cbn; constructor; auto.
Qed.

Lemma keys_insert_index i k v ms :
  member_keys (insert_index i k v ms) ≡ₚ k :: member_keys ms.
Proof.
  unfold member_keys. induction ms as [| [k' v'] ms IH]; cbn; [reflexivity |].
  destruct (array_index k') as [j |]; [| reflexivity].
  destruct (j <? i); [| reflexivity].
  cbn. rewrite IH. apply Permutation_swap.
Qed.

Lemma values_insert_index (P : json -> Prop) i k v ms :
  P v -> Forall P (map snd ms) -> Forall P (map snd (insert_index i k v ms)).
Proof.
  intros Hv. induction ms as [| [k' v'] ms IH]; cbn.
  - constructor; auto.
  - intros H. pose proof H as H'. apply Forall_cons in H as [H1 H2].
    destruct (array_index k') as [j |]; [| constructor; auto].
    destruct (j <? i); cbn; constructor; auto.
Qed.

Lemma sorted_insert_index i k v ms :
  array_index k = Some i -> k ∉ member_keys ms ->
  StronglySorted key_before (member_keys ms) ->
  StronglySorted key_before (member_keys (insert_index i k v ms)).
Proof.
  intros Hk. induction ms as [| [k' v'] ms IH]; cbn; intros Hnin Hs.
  - repeat constructor.
  - apply not_elem_of_cons in Hnin as [Hne Hnin].
    apply StronglySorted_inv in Hs as [Hs Hall].
    assert (Hfrom : forall x, key_before k' x ->
                              (exists j, array_index k' = Some j /\ i < j)
                              \/ array_index k' = None ->
                              key_before k x).
    { intros x Hx Hcase. unfold key_before in *. rewrite Hk.
      destruct Hcase as [(j & Hj & Hij) | Hnone].
      - rewrite Hj in Hx. destruct (array_index x); [lia | exact I].
      - rewrite Hnone in Hx. destruct (array_index x); [contradiction | exact I]. }
    destruct (array_index k') as [j |] eqn:Hj.
    + destruct (N.ltb_spec j i) as [Hlt | Hge]; cbn.
      * constructor; [apply IH; assumption |].
        fold (member_keys (insert_index i k v ms)).
        rewrite keys_insert_index. constructor; [| exact Hall].
        unfold key_before. rewrite Hj, Hk. exact Hlt.
      * assert (Hij : i < j).
        { destruct (N.eq_dec i j) as [-> | Hne']; [| lia].
          exfalso. apply Hne. eapply array_index_inj; eassumption. }
        constructor; [constructor; assumption |].
        constructor.
        -- unfold key_before. rewrite Hk, Hj. exact Hij.
        -- eapply Forall_impl; [exact Hall |]. intros x Hx.
           apply Hfrom; [exact Hx | left; eauto].
    + cbn. constructor; [constructor; assumption |].
      constructor.
      * unfold key_before. rewrite Hk, Hj. exact I.
      * eapply Forall_impl; [exact Hall |]. intros x Hx.
        apply Hfrom; [exact Hx | right; reflexivity].
Qed.

Lemma obj_set_ordered (ms : list (jstr * json)) (kv : jstr * json) :
  ordered ms -> ordered (obj_set ms kv).
Proof.
  destruct kv as [k v]. intros [Hs Hnd]. unfold obj_set, ordered.
  destruct (has_key k ms) eqn:Hk.
  - rewrite keys_replace_value. auto.
  - apply has_key_false in Hk. destruct (array_index k) as [i |] eqn:Hi.
    + split; [apply sorted_insert_index; assumption |].
      rewrite keys_insert_index. apply NoDup_cons. auto.
    + unfold member_keys. rewrite map_app. cbn. split.
      * apply StronglySorted_app_2; [| exact Hs | repeat constructor].
        intros x1 x2 _ H2. apply list_elem_of_singleton in H2 as ->.
        unfold key_before. rewrite Hi. destruct (array_index x1); exact I.
      * apply NoDup_app. repeat split; [exact Hnd | | apply NoDup_singleton].
        intros x Hx Hx'. apply list_elem_of_singleton in Hx' as ->. auto.
Qed.

Lemma obj_set_values (P : json -> Prop) ms kv :
  P (snd kv) -> Forall P (map snd ms) -> Forall P (map snd (obj_set ms kv)).
Proof.
  destruct kv as [k v]. cbn. intros Hv H. unfold obj_set.
  destruct (has_key k ms); [apply values_replace_value; auto |].
  destruct (array_index k); [apply values_insert_index; auto |].
  rewrite map_app. apply Forall_app. split; [exact H |]. repeat constructor.
  exact Hv.
Qed.

Lemma fold_obj_set_ordered raw : forall acc,
  ordered acc -> ordered (fold_left obj_set raw acc).
Proof.
  induction raw as [| kv raw IH]; intros acc H; cbn; [exact H |].
  apply IH, obj_set_ordered, H.
Qed.

Lemma fold_obj_set_values (P : json -> Prop) raw : forall acc,
  Forall P (map snd raw) -> Forall P (map snd acc) ->
  Forall P (map snd (fold_left obj_set raw acc)).
Proof.
  induction raw as [| kv raw IH]; intros acc Hr Ha; cbn; [exact Ha |].
  cbn in Hr. apply Forall_cons in Hr as [H1 H2].
  apply IH; [exact H2 |]. apply obj_set_values; assumption.
Qed.

Lemma build_object_ordered raw : ordered (build_object raw).
Proof. apply fold_obj_set_ordered. split; constructor. Qed.

Lemma build_object_values (P : json -> Prop) raw :
  Forall P (map snd raw) -> Forall P (map snd (build_object raw)).
Proof. intros H. apply fold_obj_set_values; [exact H | constructor]. Qed.

Lemma insert_index_end i k v ms :
  array_index k = Some i ->
  Forall (fun x => key_before x k) (member_keys ms) ->
  insert_index i k v ms = ms ++ [(k, v)].
Proof.
  intros Hk. induction ms as [| [k' v'] ms IH]; cbn; [reflexivity |].
  intros H. apply Forall_cons in H as [H1 H2].
  unfold key_before in H1. rewrite Hk in H1.
  destruct (array_index k') as [j |]; [| contradiction].
  replace (j <? i) with true by (symmetry; apply N.ltb_lt; exact H1).
  rewrite IH by exact H2. reflexivity.
Qed.

Lemma obj_set_next acc kv rest :
  ordered (acc ++ kv :: rest) -> obj_set acc kv = acc ++ [kv].
Proof.
  destruct kv as [k v]. intros [Hs Hnd]. unfold member_keys in *.
  rewrite map_app in Hs, Hnd. cbn in Hs, Hnd. unfold obj_set.
  assert (Hnin : k ∉ member_keys acc).
  { apply NoDup_app in Hnd as (_ & Hd & _). intros Hin.
    apply (Hd k Hin). left. }
  apply has_key_false in Hnin. rewrite Hnin.
  destruct (array_index k) as [i |] eqn:Hi; [| reflexivity].
  apply insert_index_end; [exact Hi |].
  apply Forall_forall. intros x Hx.
  eapply StronglySorted_app_1_elem_of; [exact Hs | exact Hx | left].
Qed.

Lemma fold_obj_set_ordered_id rest : forall acc,
  ordered (acc ++ rest) -> fold_left obj_set rest acc = acc ++ rest.
Proof.
  induction rest as [| kv rest IH]; intros acc H; cbn.
  - rewrite app_nil_r. reflexivity.
  - rewrite (obj_set_next acc kv rest H).
    rewrite IH; rewrite <- app_assoc; [reflexivity | exact H].
Qed.

(** A member list in property order denotes itself. *)
Lemma build_object_id ms : ordered ms -> build_object ms = ms.
Proof. intros H. apply (fold_obj_set_ordered_id ms []). exact H. Qed.

End JsonObjects.


Section JsonValues.
Import JSON.

Section json_induction.
Variable P : json -> Prop.
Hypothesis Hnull : P JNull.
Hypothesis Hbool : forall b, P (JBool b).
Hypothesis Hnum : forall n, P (JNum n).
Hypothesis Hdbl : forall x, P (JDbl x).
Hypothesis Hstr : forall s, P (JStr s).
Hypothesis Harr : forall items, Forall P items -> P (JArr items).
Hypothesis Hobj : forall ms, Forall P (map snd ms) -> P (JObj ms).

Fixpoint json_nested_ind (v : json) : P v :=
  match v with
  | JNull => Hnull
  | JBool b => Hbool b
  | JNum n => Hnum n
  | JDbl x => Hdbl x
  | JStr s => Hstr s
  | JArr items =>
      Harr items
        ((fix go (l : list json) : Forall P l :=
            match l with
            | [] => @List.Forall_nil _ P
            | x :: l' => @List.Forall_cons _ P x l' (json_nested_ind x) (go l')
            end) items)
  | JObj ms =>
      Hobj ms
        ((fix go (l : list (jstr * json)) : Forall P (map snd l) :=
            match l with
            | [] => @List.Forall_nil _ P
            | (k, x) :: l' =>
                @List.Forall_cons _ P x (map snd l') (json_nested_ind x) (go l')
            end) ms)
  end.
End json_induction.

Lemma literal_value w v s v' rest : literal w v s = Some (v', rest) -> v' = v.
Proof.
  unfold literal. destruct (strip_prefix w s); [| discriminate].
  intros [= <- _]. reflexivity.
Qed.

Ltac split_match H :=
  match type of H with
  | context [match ?x with _ => _ end] => destruct x eqn:?; try discriminate H
  end.

(** The parser yields values in property order, every number in its
    one representation. *)
Lemma parse_well_formed (fuel : nat) :
  (forall s v rest, parse_value fuel s = Some (v, rest) -> well_formed v)
  /\ (forall s vs rest, parse_elements fuel s = Some (vs, rest) -> Forall well_formed vs)
  /\ (forall s ms rest, parse_members fuel s = Some (ms, rest) ->
      Forall well_formed (map snd ms)).
Proof.
  induction fuel as [| fuel (IHv & IHe & IHm)];
    [repeat split; intros; discriminate |].
  repeat apply conj.
  - intros s v rest H. cbn [parse_value] in H.
    destruct s as [| c s']; [discriminate |].
    repeat split_match H; try (injection H as <- _); try constructor.
    + constructor.
    + eapply IHe; eassumption.
    + split; constructor.
    + constructor.
    + apply build_object_ordered.
    + apply build_object_values. eapply IHm; eassumption.
    + apply literal_value in H as ->. constructor.
    + apply literal_value in H as ->. constructor.
    + apply literal_value in H as ->. constructor.
    + eapply parse_number_well_formed; eassumption.
  - intros s vs rest H. cbn [parse_elements] in H.
    repeat split_match H; injection H as <- _.
    + constructor; [eapply IHv | eapply IHe]; eassumption.
    + constructor; [eapply IHv; eassumption | constructor].
  - intros s ms rest H. cbn [parse_members] in H.
    destruct s as [| q s']; [discriminate |].
    repeat split_match H; injection H as <- _; cbn.
    + constructor; [eapply IHv | eapply IHm]; eassumption.
    + constructor; [eapply IHv; eassumption | constructor].
Qed.

(** *** Reading back what [JSON.stringify] wrote *)

Lemma skip_ws_spaces indent t : spaces indent -> skip_ws (indent ++ t) = skip_ws t.
Proof. induction 1 as [| c l -> _ IH]; cbn; [reflexivity | exact IH]. Qed.

Lemma skip_ws_value t : starts_value t -> skip_ws t = t.
Proof. intros (c & t' & -> & Hc & _). cbn. rewrite Hc. reflexivity. Qed.

Lemma starts_value_app t r : starts_value t -> starts_value (t ++ r).
Proof. intros (c & t' & -> & H). exists c, (t' ++ r). split; [reflexivity | exact H]. Qed.

Lemma Z_to_jstr_head (z : Z) :
  exists c t, Z_to_jstr z = c :: t /\ (is_digit c \/ c = 45).
Proof.
  destruct z as [| p | p]; cbn [Z_to_jstr].
  - exists 48, []. split; [reflexivity | left; unfold is_digit; lia].
  - destruct (N_to_jstr_head (Npos p)) as (c & t & -> & Hc). eauto.
  - eauto.
Qed.

Lemma number_start_not_ws c : is_digit c \/ c = 45 ->
  is_ws c = false /\ c <> 93 /\ c <> 125.
Proof.
  unfold is_digit, is_ws. intros H.
  repeat split; try lia.
  repeat (apply orb_false_iff; split); apply N.eqb_neq; lia.
Qed.

Lemma double_text_head (x : double) :
  exists c t, double_to_string x = c :: t /\ (is_digit c \/ c = 45 \/ c = 73).
Proof.
  destruct x as [[|] u | | [|]]; cbn [double_to_string].
  - exists 45, (units_to_string (Zpos u)). auto.
  - destruct (units_to_string_head (Zpos u) ltac:(lia)) as (d & t & -> & Hd).
    apply is_digit_char_spec in Hd. eauto.
  - exists 48, []. split; [reflexivity | left; unfold is_digit; lia].
  - exists 45, (js "Infinity"). auto.
  - exists 73, (js "nfinity"). auto.
Qed.

Lemma stringify_starts gap indent v : starts_value (stringify_at gap indent v).
Proof.
  unfold starts_value.
  destruct v as [| [|] | n | x | s | [| x items] | [| kv ms]];
    cbn [stringify_at];
    try (eexists _, _; split; [reflexivity | repeat split; discriminate]).
  - destruct (Z_to_jstr_head n) as (c & t & -> & Hc).
    exists c, t. split; [reflexivity | apply number_start_not_ws, Hc].
  - destruct x as [neg u | | neg];
      try (eexists _, _; split; [reflexivity | repeat split; discriminate]).
    destruct (double_text_head (Finite neg u)) as (c & t & -> & Hc).
    exists c, t. split; [reflexivity |].
    destruct Hc as [Hc | [-> | ->]];
      [apply number_start_not_ws; auto | apply number_start_not_ws; auto |].
    repeat split; discriminate.
Qed.

Lemma parse_value_number fuel c t :
  is_digit c \/ c = 45 ->
  parse_value (S fuel) (c :: t) = parse_number (c :: t).
Proof.
  unfold is_digit. intros H. cbn [parse_value].
  repeat match goal with
         | |- context [c =? ?b] =>
             destruct (N.eqb_spec c b); [exfalso; lia |]
         end.
  reflexivity.
Qed.

Lemma join_with_cons sep p q ps :
  join_with sep (p :: q :: ps) = p ++ sep ++ join_with sep (q :: ps).
Proof. cbn. rewrite <- !app_assoc. reflexivity. Qed.

Lemma join_with_starts sep p ps :
  starts_value p -> starts_value (join_with sep (p :: ps)).
Proof. intros H. cbn. apply starts_value_app, H. Qed.

(** The parser's steps, one lemma per production. *)

Lemma parse_elements_more fuel s v t vs rest :
  parse_value fuel s = Some (v, 44 :: t) ->
  parse_elements fuel (skip_ws t) = Some (vs, rest) ->
  parse_elements (S fuel) s = Some (v :: vs, rest).
Proof. intros H1 H2. cbn [parse_elements]. rewrite H1. cbn. rewrite H2. reflexivity. Qed.

Lemma parse_elements_last fuel s v t rest :
  parse_value fuel s = Some (v, t) -> skip_ws t = 93 :: rest ->
  parse_elements (S fuel) s = Some ([v], rest).
Proof. intros H1 H2. cbn [parse_elements]. rewrite H1, H2. reflexivity. Qed.

Lemma parse_members_more fuel s k s1 v t ms rest :
  parse_chars s = Some (k, 58 :: s1) ->
  parse_value fuel (skip_ws s1) = Some (v, 44 :: t) ->
  parse_members fuel (skip_ws t) = Some (ms, rest) ->
  parse_members (S fuel) (34 :: s) = Some ((k, v) :: ms, rest).
Proof.
  intros H1 H2 H3. cbn [parse_members]. change (34 =? 34) with true.
  cbv iota. rewrite H1. cbn. rewrite H2. cbn. rewrite H3. reflexivity.
Qed.

Lemma parse_members_last fuel s k s1 v t rest :
  parse_chars s = Some (k, 58 :: s1) ->
  parse_value fuel (skip_ws s1) = Some (v, t) ->
  skip_ws t = 125 :: rest ->
  parse_members (S fuel) (34 :: s) = Some ([(k, v)], rest).
Proof.
  intros H1 H2 H3. cbn [parse_members]. change (34 =? 34) with true.
  cbv iota. rewrite H1. cbn. rewrite H2, H3. reflexivity.
Qed.

Lemma parse_value_array fuel t c t' items rest :
  skip_ws t = c :: t' -> c <> 93 ->
  parse_elements fuel (c :: t') = Some (items, rest) ->
  parse_value (S fuel) (91 :: t) = Some (JArr items, rest).
Proof.
  intros H1 H2 H3. cbn [parse_value]. change (91 =? 34) with false.
  change (91 =? 91) with true. cbv iota. rewrite H1.
  apply N.eqb_neq in H2. rewrite H2, H3. reflexivity.
Qed.

Lemma parse_value_object fuel t c t' raw rest :
  skip_ws t = c :: t' -> c <> 125 ->
  parse_members fuel (c :: t') = Some (raw, rest) ->
  parse_value (S fuel) (123 :: t) = Some (JObj (build_object raw), rest).
Proof.
  intros H1 H2 H3. cbn [parse_value]. change (123 =? 34) with false.
  change (123 =? 91) with false. change (123 =? 123) with true.
  cbv iota. rewrite H1.
  apply N.eqb_neq in H2. rewrite H2, H3. reflexivity.
Qed.

Lemma parse_value_string fuel s str rest :
  parse_chars s = Some (str, rest) ->
  parse_value (S fuel) (34 :: s) = Some (JStr str, rest).
Proof.
  intros H. cbn [parse_value]. change (34 =? 34) with true. cbv iota.
  rewrite H. reflexivity.
Qed.

Lemma skip_ws_space t : skip_ws (32 :: t) = skip_ws t.
Proof. reflexivity. Qed.

Lemma skip_ws_break indent t :
  spaces indent -> skip_ws (10 :: indent ++ t) = skip_ws t.
Proof. intros H. cbn. apply skip_ws_spaces, H. Qed.

Lemma parse_elements_join (items : list json) :
  Forall reads_back items -> items <> [] ->
  forall inner indent rest fuel,
    spaces inner -> spaces indent ->
    (length (join_with (separator inner)
               (map (stringify_at gap2 inner) items)) + 1 < fuel)%nat ->
    parse_elements fuel
      (join_with (separator inner) (map (stringify_at gap2 inner) items)
       ++ 10 :: indent ++ 93 :: rest)
    = Some (map written items, rest).
Proof.
  induction 1 as [| v vs Hv Hvs IH]; [congruence |].
  intros _ inner indent rest fuel Hinner Hindent Hfuel.
  destruct fuel as [| fuel]; [lia |].
  destruct vs as [| v' vs'].
  - cbn [map join_with concat] in *. rewrite app_nil_r in *.
    eapply parse_elements_last.
    + apply (Hv inner (10 :: indent ++ 93 :: rest) fuel Hinner);
        [right; reflexivity | lia].
    + rewrite skip_ws_break by exact Hindent. reflexivity.
  - cbn [map] in *. rewrite join_with_cons in *.
    rewrite !length_app in Hfuel. unfold separator in Hfuel at 1.
    cbn [length] in Hfuel. rewrite <- !app_assoc.
    eapply parse_elements_more.
    + apply (Hv inner _ fuel Hinner); [left; reflexivity | lia].
    + rewrite skip_ws_break by exact Hinner.
      rewrite skip_ws_value
        by (apply starts_value_app, join_with_starts, stringify_starts).
      apply (IH ltac:(discriminate) inner indent rest fuel Hinner Hindent).
      cbn [map]. lia.
Qed.

Lemma member_text_starts inner kv : starts_value (member_text inner kv).
Proof.
  unfold member_text, quote. eexists _, _.
  split; [reflexivity | repeat split; discriminate].
Qed.

Lemma member_text_eq inner k v :
  member_text inner (k, v)
  = 34 :: quote_body k ++ [34] ++ [58; 32] ++ stringify_at gap2 inner v.
Proof. unfold member_text, quote. cbn. rewrite <- app_assoc. reflexivity. Qed.

Lemma parse_member_key (k : jstr) (t : jstr) :
  parse_chars (quote_body k ++ [34] ++ [58; 32] ++ t) = Some (k, 58 :: 32 :: t).
Proof. apply parse_chars_quote. Qed.

Lemma parse_members_join (ms : list (jstr * json)) :
  Forall reads_back (map snd ms) -> ms <> [] ->
  forall inner indent rest fuel,
    spaces inner -> spaces indent ->
    (length (join_with (separator inner) (map (member_text inner) ms)) + 1
     < fuel)%nat ->
    parse_members fuel
      (join_with (separator inner) (map (member_text inner) ms)
       ++ 10 :: indent ++ 125 :: rest)
    = Some (map (fun kv => (fst kv, written (snd kv))) ms, rest).
Proof.
  induction ms as [| [k v] ms IH]; [congruence |].
  intros Hall _ inner indent rest fuel Hinner Hindent Hfuel.
  cbn [map snd] in Hall. apply Forall_cons in Hall as [Hv Hall].
  destruct fuel as [| fuel]; [lia |].
  destruct ms as [| kv' ms'].
  - cbn [map join_with concat] in *. rewrite app_nil_r in *.
    rewrite member_text_eq in *.
    cbn [length] in Hfuel. rewrite !length_app in Hfuel. cbn [length] in Hfuel.
    rewrite <- !app_comm_cons, <- !app_assoc.
    eapply parse_members_last.
    + apply parse_member_key.
    + rewrite skip_ws_space, skip_ws_value
        by (apply starts_value_app, stringify_starts).
      apply (Hv inner (10 :: indent ++ 125 :: rest) fuel Hinner);
        [right; reflexivity | lia].
    + rewrite skip_ws_break by exact Hindent. reflexivity.
  - cbn [map] in *. rewrite join_with_cons in *.
    rewrite (member_text_eq inner k v) in *.
    rewrite !length_app in Hfuel. unfold separator in Hfuel at 1.
    cbn [length] in Hfuel. rewrite !length_app in Hfuel.
    cbn [length] in Hfuel.
    rewrite <- !app_comm_cons, <- !app_assoc.
    eapply parse_members_more.
    + apply parse_member_key.
    + rewrite skip_ws_space, skip_ws_value
        by (apply starts_value_app, stringify_starts).
      apply (Hv inner _ fuel Hinner); [left; reflexivity | lia].
    + rewrite skip_ws_break by exact Hinner.
      rewrite skip_ws_value
        by (apply starts_value_app, join_with_starts, member_text_starts).
      apply (IH Hall ltac:(discriminate) inner indent rest fuel Hinner Hindent).
      cbn [map]. lia.
Qed.

Lemma stringify_array indent x items :
  stringify_at gap2 indent (JArr (x :: items))
  = 91 :: 10 :: (indent ++ gap2)
    ++ join_with (separator (indent ++ gap2))
         (map (stringify_at gap2 (indent ++ gap2)) (x :: items))
    ++ 10 :: indent ++ [93].
Proof. reflexivity. Qed.

Lemma stringify_object indent kv ms :
  stringify_at gap2 indent (JObj (kv :: ms))
  = 123 :: 10 :: (indent ++ gap2)
    ++ join_with (separator (indent ++ gap2))
         (map (member_text (indent ++ gap2)) (kv :: ms))
    ++ 10 :: indent ++ [125].
Proof. reflexivity. Qed.

Lemma bracket_text (opening closing : N) (inner body indent rest : jstr) :
  (opening :: 10 :: inner ++ body ++ 10 :: indent ++ [closing]) ++ rest
  = opening :: 10 :: inner ++ body ++ 10 :: indent ++ closing :: rest.
Proof.
  cbn [app]. do 2 f_equal. rewrite <- !app_assoc. do 2 f_equal.
  cbn [app]. f_equal. rewrite <- app_assoc. reflexivity.
Qed.

Lemma spaces_inner indent : spaces indent -> spaces (indent ++ gap2).
Proof. intros H. apply Forall_app. split; [exact H | repeat constructor]. Qed.

Lemma Forall_modus_ponens {A} (P Q : A -> Prop) (l : list A) :
  Forall (fun x => P x -> Q x) l -> Forall P l -> Forall Q l.
Proof.
  induction 1 as [| x l Hx _ IH]; intros H; [constructor |].
  apply Forall_cons in H as [H1 H2]. constructor; auto.
Qed.

Lemma written_keys (ms : list (jstr * json)) :
  member_keys (map (fun kv => (fst kv, written (snd kv))) ms)
  = member_keys ms.
Proof.
  unfold member_keys. rewrite map_map. apply map_ext. reflexivity.
Qed.

(** Every value as the parser produces it is read back from its own
    text as what the text holds of it. *)
Lemma well_formed_reads_back (v : json) : well_formed v -> reads_back v.
Proof.
  induction v as [| b | n | x | s | items IH | ms IH] using json_nested_ind;
    intros Hwf indent rest fuel Hindent Hfollows Hfuel;
    (destruct fuel as [| fuel]; [lia |]).
  - reflexivity.
  - destruct b; reflexivity.
  - inversion Hwf as [| | ? Hsafe | | | |]; subst.
    cbn [stringify_at written].
    destruct (Z_to_jstr_head n) as (c & t & E & Hc).
    rewrite E. cbn [app]. rewrite parse_value_number by exact Hc.
    change (c :: t ++ rest) with ((c :: t) ++ rest). rewrite <- E.
    apply parse_number_integer; auto using follows_literal_ends.
  - inversion Hwf as [| | | ? Hproper | | |]; subst.
    destruct x as [neg u | | neg]; cbn [stringify_at written].
    + destruct (double_text_head (Finite neg u)) as (c & t & E & Hc).
      assert (Hc' : is_digit c \/ c = 45).
      { destruct Hc as [Hc | [Hc | ->]]; auto.
        destruct neg; cbn [double_to_string] in E; [discriminate E |].
        destruct (units_to_string_head (Zpos u) ltac:(lia))
          as (d & t' & E' & Hd).
        rewrite E' in E. injection E as <- _.
        apply is_digit_char_spec in Hd. unfold is_digit in *. lia. }
      rewrite E. cbn [app]. rewrite parse_value_number by exact Hc'.
      change (c :: t ++ rest) with ((c :: t) ++ rest). rewrite <- E.
      apply parse_number_double; auto using follows_literal_ends.
    + cbn [double_to_string app]. rewrite parse_value_number
        by (left; unfold is_digit; lia).
      apply (parse_number_integer 0 rest);
        [unfold safe; cbn; lia | auto using follows_literal_ends].
    + reflexivity.
  - cbn [stringify_at]. unfold quote. cbn [app].
    apply parse_value_string. rewrite <- app_assoc. apply parse_chars_quote.
  - inversion Hwf as [| | | | | ? Hitems |]; subst.
    pose proof (Forall_modus_ponens _ _ _ IH Hitems) as Hread.
    destruct items as [| x items]; [reflexivity |].
    rewrite stringify_array in *.
    set (inner := indent ++ gap2) in *.
    set (body := join_with (separator inner)
                   (map (stringify_at gap2 inner) (x :: items))) in *.
    assert (Hstart : starts_value (body ++ 10 :: indent ++ 93 :: rest))
      by (apply starts_value_app, join_with_starts, stringify_starts).
    destruct Hstart as (c & t & E & _ & H93 & _).
    cbn [length] in Hfuel. rewrite !length_app in Hfuel.
    cbn [length] in Hfuel. rewrite length_app in Hfuel.
    rewrite bracket_text.
    apply (parse_value_array fuel _ c t).
    + rewrite skip_ws_break by (apply spaces_inner, Hindent).
      rewrite skip_ws_value; [exact E |].
      apply starts_value_app, join_with_starts, stringify_starts.
    + exact H93.
    + rewrite <- E.
      apply parse_elements_join;
        [exact Hread | discriminate | apply spaces_inner, Hindent
        | exact Hindent | fold body; lia].
  - inversion Hwf as [| | | | | | ? Hord Hvals]; subst.
    pose proof (Forall_modus_ponens _ _ _ IH Hvals) as Hread.
    destruct ms as [| kv ms]; [reflexivity |].
    rewrite stringify_object in *.
    set (inner := indent ++ gap2) in *.
    set (body := join_with (separator inner)
                   (map (member_text inner) (kv :: ms))) in *.
    assert (Hstart : starts_value (body ++ 10 :: indent ++ 125 :: rest))
      by (apply starts_value_app, join_with_starts, member_text_starts).
    destruct Hstart as (c & t & E & _ & _ & H125).
    cbn [length] in Hfuel. rewrite !length_app in Hfuel.
    cbn [length] in Hfuel. rewrite length_app in Hfuel.
    rewrite bracket_text.
    replace (written (JObj (kv :: ms)))
      with (JObj (build_object
                    (map (fun kv => (fst kv, written (snd kv))) (kv :: ms))))
      by (rewrite build_object_id; [reflexivity |];
          unfold ordered; rewrite written_keys; exact Hord).
    apply (parse_value_object fuel _ c t).
    + rewrite skip_ws_break by (apply spaces_inner, Hindent).
      rewrite skip_ws_value; [exact E |].
      apply starts_value_app, join_with_starts, member_text_starts.
    + exact H125.
    + rewrite <- E.
      apply parse_members_join;
        [exact Hread | discriminate | apply spaces_inner, Hindent
        | exact Hindent | fold body; lia].
Qed.

Lemma parse_stringify2 (v : json) :
  well_formed v -> parse (stringify2 v) = Some (written v).
Proof.
  intros Hwf. unfold parse, stringify2.
  rewrite skip_ws_value by apply stringify_starts.
  pose proof (well_formed_reads_back v Hwf [] [] (S (length (stringify_at gap2 [] v)))
                ltac:(constructor) I ltac:(lia)) as H.
  rewrite app_nil_r in H. rewrite H. reflexivity.
Qed.

Lemma parse_is_well_formed (text : jstr) (v : json) : parse text = Some v -> well_formed v.
Proof.
  unfold parse.
  destruct (parse_value (S (length text)) (skip_ws text)) as [[v' rest] |] eqn:E;
    [| discriminate].
  destruct (skip_ws rest); [| discriminate]. intros [= <-].
  eapply (proj1 (parse_well_formed _)), E.
Qed.

Theorem parse_stringify_parse (text : jstr) (v : json) :
  parse text = Some v -> parse (stringify2 v) = Some (written v).
Proof. intros H. apply parse_stringify2. eapply parse_is_well_formed, H. Qed.

Lemma map_fixed {A} (f : A -> A) (g : A -> bool) (l : list A) :
  Forall (fun x => f x = x <-> g x = true) l ->
  map f l = l <-> forallb g l = true.
Proof.
  induction 1 as [| x l Hx _ IH]; cbn; [split; reflexivity |].
  rewrite andb_true_iff, <- Hx, <- IH. split.
  - intros [= E1 E2]. auto.
  - intros [E1 E2]. rewrite E1, E2. reflexivity.
Qed.

Lemma map_agree {A B} (f g : A -> B) (h : A -> bool) (l : list A) :
  Forall (fun x => h x = true -> f x = g x) l ->
  forallb h l = true -> map f l = map g l.
Proof.
  induction 1 as [| x l Hx _ IH]; cbn; [reflexivity |].
  intros H. apply andb_true_iff in H as [H1 H2].
  rewrite (Hx H1), (IH H2). reflexivity.
Qed.

(** The text holds a value without an infinity up to the sign of its
    zeros. *)
Lemma written_finite (v : json) :
  finite v = true -> written v = unsigned_zeros v.
Proof.
  induction v as [| b | n | x | s | items IH | ms IH] using json_nested_ind;
    cbn [written finite unsigned_zeros]; try reflexivity.
  - destruct x as [neg u | | neg]; [reflexivity | reflexivity | discriminate].
  - intros H. f_equal. apply (map_agree _ _ finite); assumption.
  - intros H. f_equal. apply List.Forall_map in IH.
    apply (map_agree _ _ (fun kv => finite (snd kv))); [| exact H].
    eapply Forall_impl; [exact IH |]. intros [k w] Hw Hf. cbn in *.
    rewrite (Hw Hf). reflexivity.
Qed.

(** The text holds all of a value exactly when the value has no
    infinity and no negative zero in it. *)
Lemma written_exact (v : json) : written v = v <-> exact v = true.
Proof.
  induction v as [| b | n | x | s | items IH | ms IH] using json_nested_ind;
    cbn [written exact]; try (split; reflexivity).
  - destruct x as [neg u | | neg]; split; try reflexivity; discriminate.
  - rewrite <- (map_fixed written exact items IH). split.
    + intros [= E]. exact E.
    + intros ->. reflexivity.
  - apply List.Forall_map in IH.
    rewrite <- (map_fixed (fun kv => (fst kv, written (snd kv)))
                  (fun kv => exact (snd kv)) ms).
    + split; [intros [= E]; exact E | intros ->; reflexivity].
    + eapply Forall_impl; [exact IH |]. intros [k w] Hw. cbn in *.
      rewrite <- Hw. split; [intros [= E]; exact E | intros ->; reflexivity].
Qed.

End JsonValues.

(** ** The exported command file *)

Section ExportedCommands.
Import Api ViewScriptModal.

Lemma parse_empty : JSON.parse [] = None.
Proof. reflexivity. Qed.

Lemma jsonCommands_parsed (step : Step) (payload : jstr) (v : json) :
  selenium_script_json step = Some payload ->
  JSON.parse payload = Some v ->
  jsonCommands step = (v, false).
Proof.
  intros Hjson Hparse. unfold jsonCommands. rewrite Hjson.
  assert (Hne : payload <> []) by (intros ->; discriminate Hparse).
  apply str_truthy_Some in Hne. rewrite Hne.
  change (default [] (Some payload)) with payload. rewrite Hparse.
  reflexivity.
Qed.

(** C8, as amended. A command array obtained by parsing a step's stored
    [selenium_script_json], serialized by [JSON.stringify(_, null, 2)] (the
    text the modal exports, which it offers whenever the array is not
    empty) and parsed again, is the array element for element, members
    of every command in the same order, with every number kept (the
    fractions among them) except an infinity, which comes back as
    [null], and the negative zero, which comes back as [0].  So an array
    without an infinity comes back equal up to the sign of its zeros,
    which [===] does not tell apart, and the array comes back identical
    exactly when it holds no infinity and no negative zero. *)
Theorem exported_commands_round_trip
    (step : Step) (payload : jstr) (commands : list json) :
  selenium_script_json step = Some payload ->
  JSON.parse payload = Some (JArr commands) ->
  JSON.parse (JSON.stringify2 (JArr commands))
  = Some (JArr (map written commands))
  /\ JSON.parse (handleExportJson step) = Some (JArr (map written commands))
  /\ (forallb finite commands = true ->
      JSON.parse (handleExportJson step)
      = Some (JArr (map unsigned_zeros commands)))
  /\ (JSON.parse (handleExportJson step) = Some (JArr commands)
      <-> forallb exact commands = true)
  /\ (commands <> [] -> export_enabled step = true).
Proof.
  intros Hjson Hparse.
  assert (Hrt : JSON.parse (JSON.stringify2 (JArr commands))
                = Some (JArr (map written commands)))
    by (apply (parse_stringify_parse payload (JArr commands) Hparse)).
  split; [exact Hrt |].
  unfold handleExportJson, export_enabled.
  rewrite (jsonCommands_parsed step payload _ Hjson Hparse). cbn [fst].
  split; [exact Hrt |]. split; [| split].
  - intros Hfin. rewrite Hrt.
    pose proof (written_finite (JArr commands) Hfin) as E.
    cbn [written unsigned_zeros] in E. rewrite E. reflexivity.
  - rewrite Hrt. rewrite <- (written_exact (JArr commands)).
    cbn [written]. split; [intros [= E] | intros [= E]]; congruence.
  - destruct commands; [congruence | reflexivity].
Qed.

Lemma exported_commands_round_trip_witness :
  JSON.parse (JSON.stringify2 (JArr timed_commands))
  = Some (JArr (map written timed_commands))
  /\ JSON.parse (handleExportJson timed_step)
     = Some (JArr (map written timed_commands))
  /\ (forallb finite timed_commands = true ->
      JSON.parse (handleExportJson timed_step)
      = Some (JArr (map unsigned_zeros timed_commands)))
  /\ (JSON.parse (handleExportJson timed_step) = Some (JArr timed_commands)
      <-> forallb exact timed_commands = true)
  /\ (timed_commands <> [] -> export_enabled timed_step = true).
Proof.
  apply (exported_commands_round_trip timed_step timed_commands_text
           timed_commands).
  - reflexivity.
  - vm_compute. reflexivity.
Defined.

(** C8, the statement as the specification has it, fails: a number of
    the payload that is too large for the Number type is parsed as
    [Infinity], which [JSON.stringify] writes as [null]; the array read
    from the exported text has [null] in its place. *)
Lemma overflowing_number_comes_back_null :
  ~ (forall payload commands,
       JSON.parse payload = Some (JArr commands) ->
       JSON.parse (JSON.stringify2 (JArr commands)) = Some (JArr commands)).
Proof.
  intros H.
  assert (Hp : JSON.parse overflow_commands_text
               = Some (JArr overflow_commands))
    by (vm_compute; reflexivity).
  specialize (H _ _ Hp). vm_compute in H. discriminate H.
Qed.

(** Fractions and exponents are numbers of the payload like the
    integers: they are parsed, exported in the shortest form that
    denotes them, and read back; only the negative zero is not. *)
Example timed_commands_parsed :
  timed_commands
  = [JObj [(js "action", JStr (js "wait")); (js "value", JDbl half)];
     JObj [(js "action", JStr (js "scroll"));
           (js "value",
            JDbl (Finite true (Z.to_pos (decimal_units 225 (-5)))));
           (js "limit", JDbl sextillion);
           (js "offset", JDbl NegZero)]]
  /\ map written timed_commands
     = [JObj [(js "action", JStr (js "wait")); (js "value", JDbl half)];
        JObj [(js "action", JStr (js "scroll"));
              (js "value",
               JDbl (Finite true (Z.to_pos (decimal_units 225 (-5)))));
              (js "limit", JDbl sextillion);
              (js "offset", JNum 0)]]
  /\ map JSON.stringify2
       [JDbl half; JDbl sextillion; JDbl NegZero; JDbl (Infinite true)]
     = [js "0.5"; js "1e+21"; js "0"; js "null"].
Proof. repeat split; vm_compute; reflexivity. Qed.

(** The parsed array is not empty, and the first command keeps its
    integer-like keys in front, as JavaScript enumerates them. *)
Example parsed_commands_first :
  head parsed_commands
  = Some (JObj [(js "0", JNum (-12)); (js "1", JNum 0);
                (js "action", JStr (js "type"));
                (js "target", JStr (js "#username"));
                (js "value", JStr (js "test" ++ [233] ++ jsq " 'user'"))]).
Proof. vm_compute. reflexivity. Qed.

(** A member list that is not in property order is not what
    [JSON.parse] returns, and it does not come back as it was. *)
Example unordered_members_come_back_ordered :
  JSON.parse (JSON.stringify2 (JObj [(js "b", JNum 1); (js "1", JNum 2)]))
  = Some (JObj [(js "1", JNum 2); (js "b", JNum 1)]).
Proof. vm_compute. reflexivity. Qed.

End ExportedCommands.

(** ** The name of the exported file *)

Section ExportFileFacts.
Import Api ExportFile.

Lemma starts_with_underscore (s : jstr) :
  starts_with [95] s = match s with c :: _ => c =? 95 | [] => false end.
Proof.
  destruct s as [| c s]; [reflexivity |]. cbn [starts_with].
  rewrite andb_true_r. apply N.eqb_sym.
Qed.

Lemma includes_double_underscore (s : jstr) :
  includes s (js "__") =
  match s with
  | c :: s' => (c =? 95) && starts_with [95] s' || includes s' (js "__")
  | [] => false
  end.
Proof.
  destruct s as [| c s]; [reflexivity |].
  change (js "__") with [95; 95].
  change (includes (c :: s) [95; 95])
    with (starts_with [95; 95] (c :: s) || includes s [95; 95]).
  f_equal.
  change (starts_with [95; 95] (c :: s))
    with ((95 =? c) && starts_with [95] s).
  rewrite (N.eqb_sym 95 c). reflexivity.
Qed.

Ltac units_lia :=
  rewrite ?orb_true_iff, ?andb_true_iff, ?orb_false_iff, ?andb_false_iff,
    ?N.leb_le, ?N.leb_gt, ?N.eqb_eq, ?N.eqb_neq in *;
  lia.

Lemma name_unit_lower (c : N) :
  name_unit (lower_unit (if is_alnum c then c else 95)) = true.
Proof.
  destruct (is_alnum c) eqn:E; [| reflexivity].
  unfold name_unit, is_lower_alnum, lower_unit, is_alnum in *.
  destruct ((65 <=? c) && (c <=? 90)) eqn:F; units_lia.
Qed.

Lemma lower_unit_underscore (c : N) :
  (lower_unit c =? 95) = (c =? 95).
Proof.
  unfold lower_unit.
  destruct ((65 <=? c) && (c <=? 90)) eqn:F; [| reflexivity].
  destruct (N.eqb_spec c 95) as [-> | H]; [discriminate F |].
  apply N.eqb_neq. units_lia.
Qed.

Lemma lower_unit_name (c : N) : name_unit c = true -> lower_unit c = c.
Proof.
  unfold name_unit, is_lower_alnum, lower_unit. intros H.
  destruct ((65 <=? c) && (c <=? 90)) eqn:F; [| reflexivity].
  units_lia.
Qed.

Lemma is_alnum_name (c : N) :
  name_unit c = true -> (if is_alnum c then c else 95) = c.
Proof.
  intros H. destruct (is_alnum c) eqn:F; [reflexivity |].
  unfold name_unit, is_lower_alnum, is_alnum in *. units_lia.
Qed.

(** The two replacements leave ASCII characters only. *)
Lemma collapsed_ascii (str : jstr) :
  Forall (fun c => c < 128) (collapse_underscores (replace_non_alnum str)).
Proof.
  induction str as [| c str IH]; [constructor |].
  cbn [replace_non_alnum map collapse_underscores].
  fold (replace_non_alnum str).
  destruct ((_ =? 95) && _); [exact IH |].
  constructor; [| exact IH].
  destruct (is_alnum c) eqn:E; [| lia].
  unfold is_alnum in E. units_lia.
Qed.

Lemma starts_with_lower (s : jstr) :
  starts_with [95] (toLowerCase s) = starts_with [95] s.
Proof.
  rewrite !starts_with_underscore. destruct s as [| c s]; [reflexivity |].
  cbn. apply lower_unit_underscore.
Qed.

Lemma starts_with_collapse (s : jstr) :
  starts_with [95] (collapse_underscores s) = starts_with [95] s.
Proof.
  rewrite !starts_with_underscore.
  induction s as [| c s IH]; [reflexivity |].
  cbn [collapse_underscores].
  destruct (N.eqb_spec c 95) as [-> | Hc]; cbn [andb].
  - rewrite starts_with_underscore.
    destruct s as [| d s]; [reflexivity |].
    destruct (N.eqb_spec d 95) as [-> | Hd]; [| reflexivity].
    rewrite IH. reflexivity.
  - apply N.eqb_neq in Hc. exact Hc.
Qed.

Lemma collapse_no_double (s : jstr) :
  includes (collapse_underscores s) (js "__") = false.
Proof.
  induction s as [| c s IH]; [reflexivity |].
  cbn [collapse_underscores].
  destruct ((c =? 95) && starts_with [95] s) eqn:E; [exact IH |].
  rewrite includes_double_underscore, starts_with_collapse, E, IH.
  reflexivity.
Qed.

Lemma lower_no_double (s : jstr) :
  includes (toLowerCase s) (js "__") = includes s (js "__").
Proof.
  induction s as [| c s IH]; [reflexivity |].
  rewrite (includes_double_underscore (c :: s)).
  change (toLowerCase (c :: s)) with (lower_unit c :: toLowerCase s).
  rewrite includes_double_underscore, starts_with_lower, IH,
    lower_unit_underscore.
  reflexivity.
Qed.

Lemma collapse_length (s : jstr) :
  (length (collapse_underscores s) <= length s)%nat.
Proof.
  induction s as [| c s IH]; [reflexivity |].
  cbn [collapse_underscores]. destruct (_ && _); cbn [length]; lia.
Qed.

Lemma collapse_nonempty (s : jstr) :
  s <> [] -> collapse_underscores s <> [].
Proof.
  induction s as [| c s IH]; [congruence |]. intros _.
  cbn [collapse_underscores].
  destruct ((c =? 95) && starts_with [95] s) eqn:E; [| discriminate].
  apply IH. intros ->. rewrite andb_false_r in E. discriminate.
Qed.

Lemma collapse_fixed (s : jstr) :
  includes s (js "__") = false -> collapse_underscores s = s.
Proof.
  induction s as [| c s IH]; [reflexivity |].
  rewrite includes_double_underscore. intros H.
  apply orb_false_iff in H as [H1 H2].
  cbn [collapse_underscores]. rewrite H1, IH by exact H2. reflexivity.
Qed.

Lemma sanitize_units (str : jstr) :
  forallb name_unit (sanitizeFilename str) = true.
Proof.
  unfold sanitizeFilename, toLowerCase.
  induction str as [| c str IH]; [reflexivity |].
  cbn [replace_non_alnum map collapse_underscores].
  fold (replace_non_alnum str).
  destruct ((_ =? 95) && _); [exact IH |].
  cbn [map forallb]. rewrite name_unit_lower. exact IH.
Qed.

Lemma sanitize_clean (str : jstr) : clean (sanitizeFilename str).
Proof.
  split; [apply sanitize_units |].
  unfold sanitizeFilename. rewrite lower_no_double. apply collapse_no_double.
Qed.

Lemma sanitize_length (str : jstr) :
  (length (sanitizeFilename str) <= length str)%nat.
Proof.
  unfold sanitizeFilename, toLowerCase, replace_non_alnum.
  rewrite length_map.
  etransitivity; [apply collapse_length |]. rewrite length_map. reflexivity.
Qed.

Lemma sanitize_nonempty (str : jstr) :
  str <> [] -> sanitizeFilename str <> [].
Proof.
  intros Hne. unfold sanitizeFilename, toLowerCase.
  intros H. apply fmap_nil_inv in H. revert H. apply collapse_nonempty.
  intros H. apply fmap_nil_inv in H. contradiction.
Qed.

Lemma sanitize_fixed (s : jstr) : clean s -> sanitizeFilename s = s.
Proof.
  intros [Hunits Hdouble]. unfold sanitizeFilename.
  assert (Hrep : replace_non_alnum s = s).
  { clear Hdouble. induction s as [| c s IH]; [reflexivity |].
    cbn [forallb] in Hunits. apply andb_true_iff in Hunits as [Hc Hs].
    cbn [replace_non_alnum map]. fold (replace_non_alnum s).
    rewrite is_alnum_name, IH by assumption. reflexivity. }
  rewrite Hrep, collapse_fixed by exact Hdouble.
  clear Hrep Hdouble. induction s as [| c s IH]; [reflexivity |].
  cbn [forallb] in Hunits. apply andb_true_iff in Hunits as [Hc Hs].
  cbn [toLowerCase map]. fold (toLowerCase s).
  rewrite lower_unit_name, IH by assumption. reflexivity.
Qed.

(** X1. Whatever the description, [sanitizeFilename] returns a name of
    lower-case ASCII letters, digits and underscores with no two
    underscores in a row; the name is not longer than the description and
    is empty only for the empty description. *)
Theorem sanitizeFilename_clean (str : jstr) :
  clean (sanitizeFilename str)
  /\ (length (sanitizeFilename str) <= length str)%nat
  /\ (sanitizeFilename str = [] <-> str = []).
Proof.
  split; [apply sanitize_clean |]. split; [apply sanitize_length |].
  split.
  - intros H. destruct str as [| c str]; [reflexivity |].
    exfalso. revert H. apply sanitize_nonempty. discriminate.
  - intros ->. reflexivity.
Qed.

(** X2. The names [sanitizeFilename] leaves as they are are exactly the
    sanitized names; in particular sanitizing twice is sanitizing once. *)
Theorem sanitizeFilename_fixed_points (str : jstr) :
  (sanitizeFilename str = str <-> clean str)
  /\ sanitizeFilename (sanitizeFilename str) = sanitizeFilename str.
Proof.
  split.
  - split; [| apply sanitize_fixed].
    intros <-. apply sanitize_clean.
  - apply sanitize_fixed, sanitize_clean.
Qed.









End ExportFileFacts.

(** ** The fields of a command in the modal *)

Section CommandFields.
Import Api ExportFile.

Lemma well_formed_entries (command : json) (entries : list (jstr * json)) :
  well_formed command ->
  Object_entries command = Some entries ->
  Forall well_formed (map snd entries).
Proof.
  intros Hwf. destruct command as [| b | n | x | s | items | ms]; cbn;
    intros [= <-]; try constructor.
  - apply Forall_forall. intros v Hv.
    apply list_elem_of_fmap in Hv as [[k v'] [-> Hin]].
    apply elem_of_lookup_imap in Hin as (i & c & [= _ ->] & _).
    constructor.
  - inversion Hwf as [| | | | | items' Hitems |]; subst.
    apply Forall_forall. intros v Hv.
    apply list_elem_of_fmap in Hv as [[k v'] [-> Hin]].
    apply elem_of_lookup_imap in Hin as (i & y & [= _ ->] & Hx).
    eapply Forall_forall in Hitems; [exact Hitems |].
    eapply list_elem_of_lookup_2, Hx.
  - inversion Hwf; subst. assumption.
Qed.

(** X4. In the modal, a field of a command of the stored script is shown
    blank when its value is [null], [false], a zero or the empty string;
    any other number (a fraction or an infinity too), boolean or string
    is shown as [String] prints it; and an object or an array is shown
    as indented JSON text that parses back to the value with every
    infinity in it replaced by [null] and every negative zero by [0],
    hence to the value itself exactly when it holds neither. *)
Theorem field_value_shown
    (payload : jstr) (commands : list json) (command : json)
    (entries : list (jstr * json)) (key : jstr) (value : json) :
  JSON.parse payload = Some (JArr commands) ->
  command ∈ commands ->
  Object_entries command = Some entries ->
  (key, value) ∈ entries ->
  (is_structure value = true ->
   JSON.parse (field_value value) = Some (written value)
   /\ (JSON.parse (field_value value) = Some value <-> exact value = true))
  /\ (is_structure value = false -> truthy (Some value) = true ->
      field_value value = json_to_string value)
  /\ (truthy (Some value) = false -> field_value value = []).
Proof.
  intros Hparse Hcommand Hentries Hfield.
  assert (Hwf : well_formed value).
  { apply parse_is_well_formed in Hparse.
    inversion Hparse as [| | | | | items Hitems |]; subst.
    eapply Forall_forall in Hitems; [| exact Hcommand].
    pose proof (well_formed_entries _ _ Hitems Hentries) as Hall.
    eapply Forall_forall in Hall; [exact Hall |].
    apply list_elem_of_fmap. exists (key, value). split; [reflexivity | exact Hfield]. }
  split; [| split].
  - intros Hs.
    assert (Hrt : JSON.parse (field_value value) = Some (written value))
      by (destruct value; try discriminate Hs; cbn [field_value];
          apply parse_stringify2, Hwf).
    split; [exact Hrt |]. rewrite Hrt, <- written_exact.
    split; [intros [= E]; exact E | intros ->; reflexivity].
  - intros Hs Ht. destruct value; try discriminate Hs; cbn [field_value];
      unfold js_or; rewrite Ht; reflexivity.
  - intros Ht. destruct value; try discriminate Ht; cbn [field_value];
      unfold js_or; rewrite Ht; reflexivity.
Qed.

Lemma field_value_shown_witness :
  (is_structure opts_value = true ->
   JSON.parse (field_value opts_value) = Some (written opts_value)
   /\ (JSON.parse (field_value opts_value) = Some opts_value
       <-> exact opts_value = true))
  /\ (is_structure opts_value = false -> truthy (Some opts_value) = true ->
      field_value opts_value = json_to_string opts_value)
  /\ (truthy (Some opts_value) = false -> field_value opts_value = []).
Proof.
  apply (field_value_shown stored_commands parsed_commands wait_command
           (default [] (Object_entries wait_command)) (js "opts")).
  - vm_compute. reflexivity.
  - apply list_elem_of_lookup_2 with 2%nat. reflexivity.
  - reflexivity.
  - apply list_elem_of_lookup_2 with 3%nat. reflexivity.
Defined.

(** Falsy values are blank, also the number zero and [false]. *)
Example field_value_blank :
  field_value (JNum 0) = [] /\ field_value (JBool false) = []
  /\ field_value JNull = [] /\ field_value (JNum 30) = js "30"
  /\ field_value (JBool true) = js "true".
Proof. repeat split. Qed.

(** A fraction is shown in its shortest form, an infinity by its name,
    the negative zero not at all; inside an array an infinity is shown
    as [null]. *)
Example field_value_numbers :
  field_value (JDbl half) = js "0.5"
  /\ field_value (JDbl sextillion) = js "1e+21"
  /\ field_value (JDbl (Infinite true)) = js "-Infinity"
  /\ field_value (JDbl NegZero) = []
  /\ field_value (JArr [JDbl (Infinite false)])
     = [91; 10] ++ js "  null" ++ [10; 93].
Proof. repeat split; vm_compute; reflexivity. Qed.

End CommandFields.

(** ** Status labels *)

Section StatusLabelFacts.
Import StatusLabel.

Variable toUpperCase : jstr -> jstr.

Lemma split_on_cons (sep : N) (s : jstr) :
  exists w ws, split_on sep s = w :: ws.
Proof.
  induction s as [| c s (w & ws & IH)]; [by eexists _, _ |].
  cbn. destruct (c =? sep); [by eexists _, _ |].
  rewrite IH. by eexists _, _.
Qed.

Lemma words_title (s : jstr) :
  upper_on_ascii toUpperCase ->
  forallb status_unit s = true ->
  forall w ws, split_on 95 s = w :: ws ->
    w ++ concat (map (fun q => [32] ++ q) (map (capitalize toUpperCase) ws))
    = title false s
    /\ capitalize toUpperCase w
       ++ concat (map (fun q => [32] ++ q) (map (capitalize toUpperCase) ws))
       = title true s.
Proof.
  intros [Hnil Hup]. induction s as [| c s IH]; intros Hs w ws E.
  - injection E as <- <-. unfold capitalize. cbn. by rewrite Hnil.
  - cbn [forallb] in Hs. apply andb_true_iff in Hs as [Hc Hs].
    destruct (split_on_cons 95 s) as (w' & ws' & E').
    specialize (IH Hs w' ws' E') as [IH1 IH2].
    cbn [split_on] in E. cbn [title].
    destruct (N.eqb_spec c 95) as [-> | Hne].
    + injection E as <- <-. rewrite E'. cbn [map concat].
      rewrite <- IH2. replace (capitalize toUpperCase []) with (@nil N)
        by (unfold capitalize; change (take 1 (@nil N)) with (@nil N);
            by rewrite Hnil).
      rewrite <- !app_assoc. auto.
    + rewrite E' in E. injection E as <- <-.
      unfold status_unit in Hc. apply orb_true_iff in Hc as [Hc | Hc];
        [| apply N.eqb_eq in Hc; contradiction].
      replace (capitalize toUpperCase (c :: w')) with ((c - 32) :: w')
        by (unfold capitalize; change (take 1 (c :: w')) with [c];
            change (drop 1 (c :: w')) with w'; by rewrite (Hup c Hc)).
      rewrite <- !app_comm_cons, IH1. auto.
Qed.

Lemma words_capitalized_title (s : jstr) :
  upper_on_ascii toUpperCase ->
  forallb status_unit s = true ->
  words_capitalized toUpperCase s = title true s.
Proof.
  intros Hup Hs. unfold words_capitalized.
  destruct (split_on_cons 95 s) as (w & ws & E). rewrite E.
  cbn [map join_with]. eapply words_title; eassumption.
Qed.

Lemma title_length (start : bool) (s : jstr) :
  length (title start s) = length s.
Proof.
  revert start. induction s as [| c s IH]; intros start; [reflexivity |].
  cbn [title]. destruct (c =? 95); cbn [length]; by rewrite IH.
Qed.

Lemma title_lookup (s : jstr) : forall (start : bool) (i : nat) (c : N),
  s !! i = Some c ->
  title start s !! i
  = Some (if c =? 95 then 32
          else if match i with
                  | O => start
                  | S j => bool_decide (s !! j = Some 95)
                  end
               then c - 32 else c).
Proof.
  induction s as [| d s IH]; intros start i c Hi; [discriminate |].
  destruct i as [| i].
  - injection Hi as ->. cbn [title]. by destruct (c =? 95).
  - cbn [lookup list_lookup] in Hi.
    assert (Hrec : forall b, title b (d :: s) !! S i
                             = title (d =? 95) s !! i).
    { intros b. cbn [title]. by destruct (d =? 95). }
    rewrite Hrec, (IH _ i c Hi).
    destruct i as [| i]; [| reflexivity].
    cbn [lookup list_lookup].
    destruct (N.eqb_spec d 95) as [-> | Hd].
    + by rewrite bool_decide_eq_true_2.
    + rewrite bool_decide_eq_false_2; [reflexivity |]. congruence.
Qed.

End StatusLabelFacts.

Section StatusLabelTheorems.
Import StatusLabel.

(** X5. For a status written with lower-case letters and underscores, as
    all statuses of the back end are, the label [formatStatus] shows has
    the length of the status and, position by position, a space where the
    status has an underscore, the capital of the letter at the start of
    every word, and the letter itself elsewhere. *)
Theorem formatStatus_title_case
    (toUpperCase : jstr -> jstr) (status : jstr) :
  upper_on_ascii toUpperCase ->
  status <> [] ->
  forallb status_unit status = true ->
  length (formatStatus toUpperCase (Some status)) = length status
  /\ forall (i : nat) (c : N),
       status !! i = Some c ->
       formatStatus toUpperCase (Some status) !! i
       = Some (shown status i c).
Proof.
  intros Hup Hne Hs. unfold formatStatus.
  apply str_truthy_Some in Hne. rewrite Hne.
  change (default [] (Some status)) with status.
  rewrite (words_capitalized_title toUpperCase status Hup Hs).
  split; [apply title_length |].
  intros i c Hi. rewrite (title_lookup status true i c Hi).
  unfold shown, starts_word. by destruct i.
Qed.

Lemma formatStatus_title_case_witness :
  upper_on_ascii ascii_upper
  /\ formatStatus ascii_upper (Some (js "not_run")) = js "Not Run"
  /\ length (formatStatus ascii_upper (Some (js "not_run"))) = 7%nat.
Proof.
  assert (Hup : upper_on_ascii ascii_upper).
  { split; [reflexivity |]. intros c Hc. cbn. by rewrite Hc. }
  split; [exact Hup |]. split; [reflexivity |].
  apply (formatStatus_title_case ascii_upper (js "not_run") Hup);
    [discriminate | reflexivity].
Defined.

(** X6. The two [formatStatus] functions show the same label for every
    status that is not empty.  They differ where there is none: the step
    executor's shows [Not Run] for a missing and for an empty status, the
    test-case page's throws a TypeError on a missing status. *)
Theorem formatStatus_versions
    (toUpperCase : jstr -> jstr) (status : jstr) :
  (status <> [] ->
   formatStatus_of_case toUpperCase (Some status)
   = Some (formatStatus toUpperCase (Some status)))
  /\ formatStatus toUpperCase None = js "Not Run"
  /\ formatStatus toUpperCase (Some []) = js "Not Run"
  /\ formatStatus_of_case toUpperCase None = None.
Proof.
  split; [| by repeat split].
  intros Hne. unfold formatStatus.
  apply str_truthy_Some in Hne. by rewrite Hne.
Qed.

End StatusLabelTheorems.

(** ** Generating a script *)

Section ScriptGeneration.
Import Api TestStepExecutor StepEditor.

Lemma includes_prefix (p s : jstr) : includes (p ++ s) p = true.
Proof.
  assert (H : starts_with p (p ++ s) = true).
  { induction p as [| a p IH]; [reflexivity |].
    cbn [app starts_with]. by rewrite N.eqb_refl, IH. }
  destruct (p ++ s) eqn:E; cbn [includes]; by rewrite H.
Qed.

Lemma error_line_class (m : jstr) :
  progress_class (js "Error: " ++ m) = Some red.
Proof.
  unfold progress_class.
  replace (jstr_eqb (js "Error: " ++ m) []) with false
    by (symmetry; by apply jstr_eqb_false).
  replace (includes (js "Error: " ++ m) (js "Error")) with true; [done |].
  symmetry. change (js "Error: " ++ m) with (js "Error" ++ (js ": " ++ m)).
  apply includes_prefix.
Qed.

Lemma cannot_connect_nonempty env : cannot_connect env <> [].
Proof. discriminate. Qed.

Lemma generate_error_message_nonempty env e :
  generate_error_message env e <> [].
Proof.
  destruct e as [| m resp]; cbn [generate_error_message];
    [apply cannot_connect_nonempty |].
  destruct (jstr_eqb m (js "Failed to fetch"));
    [apply cannot_connect_nonempty |].
  destruct (includes m (js "NetworkError") || includes m (js "network"));
    [discriminate |].
  destruct (jstr_eqb m []) eqn:E; [discriminate |].
  by apply jstr_eqb_false.
Qed.

Lemma generate_failed_shows env e c : shows_error (generate_failed env e c).
Proof.
  exists (generate_error_message env e).
  split; [apply generate_error_message_nonempty |].
  split; [reflexivity | apply error_line_class].
Qed.

Lemma read_reply_adopts (r : Reply) (script : jstr) (commands : json) :
  read_reply r = inr (script, commands) -> adopts r script.
Proof.
  destruct r as [| ok text [data |]]; cbn [read_reply]; try discriminate.
  destruct data as [| b | n | x | s | items | ms]; try discriminate;
    destruct ok; cbn [negb]; try discriminate;
    cbn [prop undefined truthy negb]; try discriminate.
  destruct (assoc (js "selenium_script") ms) as [v |] eqn:E;
    [| discriminate].
  destruct v as [| b | n | x | s | items | ms'];
    try (destruct (negb _); discriminate).
  cbn [truthy]. destruct (jstr_eqb s []) eqn:Hs; cbn [negb];
    [discriminate |].
  intros [= <- _]. exists text, ms. repeat split; [exact E |].
  by apply jstr_eqb_false.
Qed.

(** X7. A click on "Generate Script" while a generation is under way does
    nothing at all; otherwise it makes exactly one request, a POST to
    [<API_BASE_URL>/api/test-steps/<step.id>/generate-selenium], and
    marks the component as generating. *)
Theorem handleGenerateScript_single_flight
    (env : option jstr) (props : Props) (c : Component) :
  (isGenerating c = true -> handleGenerateScript env props c = c)
  /\ (isGenerating c = false ->
      isGenerating (handleGenerateScript env props c) = true
      /\ requests (handleGenerateScript env props c)
         = requests c
           ++ [mkRequest (js "POST")
                 (API_BASE_URL env ++ js "/api/test-steps/"
                  ++ Z_to_jstr (id (step props)) ++ js "/generate-selenium")
                 None]
      /\ script_state (handleGenerateScript env props c) = script_state c)
  /\ handleGenerateScript env props (handleGenerateScript env props c)
     = handleGenerateScript env props c.
Proof.
  unfold handleGenerateScript.
  destruct (isGenerating c) eqn:E.
  - rewrite E. repeat split; discriminate.
  - repeat split; discriminate.
Qed.

(** X8. Whenever the reply does not adopt a script (the request is
    rejected, the body is not JSON, the response is not OK, the script is
    missing, empty or not a string), the generation ends with the
    script, the commands and the script panel as they were, without a
    call of [onStatusUpdate] or [onRefresh], with the generating flag
    cleared and with an error line in the red class that a timer clears
    after ten seconds. *)
Theorem generation_failure_keeps_script
    (env : option jstr) (props : Props) (r : Reply)
    (refreshed : option Thrown) (c : Component) :
  (forall script, ~ adopts r script) ->
  let c' := generate_settled env props r refreshed c in
  script_state c' = script_state c
  /\ statusUpdates (run c') = statusUpdates (run c)
  /\ refreshes c' = refreshes c
  /\ isGenerating c' = false
  /\ shows_error c'
  /\ timers c' = timers c ++ [10000].
Proof.
  intros Hbad. cbn zeta. unfold generate_settled.
  destruct (read_reply r) as [e | [script commands]] eqn:E.
  - repeat split. apply generate_failed_shows.
  - exfalso. eapply Hbad, read_reply_adopts, E.
Qed.

Lemma generation_failure_keeps_script_witness :
  let c' := generate_settled None props5
              (Replied false (js "{}") (Some (JObj []))) None
              (mount props5) in
  script_state c' = script_state (mount props5)
  /\ statusUpdates (run c') = statusUpdates (run (mount props5))
  /\ refreshes c' = refreshes (mount props5)
  /\ isGenerating c' = false
  /\ shows_error c'
  /\ timers c' = timers (mount props5) ++ [10000].
Proof.
  apply (generation_failure_keeps_script None props5
           (Replied false (js "{}") (Some (JObj []))) None (mount props5)).
  intros script (text & ms & Heq & _). discriminate Heq.
Defined.

(** X9. When the reply adopts a script and the refresh of the page
    resolves, the generation stores the script and the commands of the
    reply (the empty string for missing commands), opens the script
    panel, shows the success line in the green class, calls [onRefresh]
    and then [onStatusUpdate('script_generated')] once each when they are
    given, sets a three-second timer and clears the generating flag. *)
Theorem generation_success_adopts_script
    (env : option jstr) (props : Props) (r : Reply) (script : jstr)
    (c : Component) :
  adopts r script ->
  let c' := generate_settled env props r None c in
  editedScript c' = script
  /\ (exists text members,
        r = Replied true text (Some (JObj members))
        /\ Some (editedScriptJson c')
           = js_or (assoc (js "selenium_script_json") members)
                   (Some (JStr [])))
  /\ showScript c' = true
  /\ isGenerating c' = false
  /\ progress_text_of c'
     = Some (check_mark :: js " Script generated successfully!")
  /\ progress_class (check_mark :: js " Script generated successfully!")
     = Some green
  /\ refreshes c'
     = (if onRefresh_given props then S (refreshes c) else refreshes c)
  /\ statusUpdates (run c')
     = statusUpdates (run c)
       ++ (if onStatusUpdate_given props
           then [Some (JStr (js "script_generated"))] else [])
  /\ timers c' = timers c ++ [3000].
Proof.
  intros (text & ms & -> & E & Hne). cbn zeta.
  unfold generate_settled. cbn [read_reply negb prop]. rewrite E.
  apply str_truthy_Some in Hne. cbn [str_truthy] in Hne.
  cbn [truthy]. rewrite Hne. cbn [negb].
  destruct (onRefresh_given props), (onStatusUpdate_given props);
    (repeat split; try reflexivity; try (by rewrite app_nil_r));
    exists text, ms; (split; [reflexivity |]);
    unfold js_or; destruct (truthy _) eqn:Ht; try reflexivity;
    destruct (assoc (js "selenium_script_json") ms); try reflexivity;
    discriminate Ht.
Qed.

Lemma generation_success_adopts_script_witness :
  adopts script_reply (js "driver.get(url)")
  /\ editedScript
       (generate_settled None props5 script_reply None (mount props5))
     = js "driver.get(url)".
Proof.
  assert (H : adopts script_reply (js "driver.get(url)")).
  { exists [], [(js "selenium_script", JStr (js "driver.get(url)"));
                (js "selenium_script_json", JStr (js "[]"))].
    repeat split. discriminate. }
  split; [exact H |].
  apply (generation_success_adopts_script None props5 script_reply
           (js "driver.get(url)") (mount props5) H).
Defined.

(** X10. A reply that did arrive is reported as a failure to connect,
    with the very line shown when the request is rejected, when its body
    is the JSON value [null] or when the response is OK and its
    [selenium_script] is a number other than zero, [true], an array or an
    object. *)
Theorem reply_reported_as_no_connection
    (env : option jstr) (props : Props) (r : Reply)
    (refreshed : option Thrown) (c : Component) :
  (exists ok text, r = Replied ok text (Some JNull))
  \/ (exists text members v,
        r = Replied true text (Some (JObj members))
        /\ assoc (js "selenium_script") members = Some v
        /\ truthy (Some v) = true
        /\ forall s, v <> JStr s) ->
  generate_settled env props r refreshed c
  = generate_settled env props Rejected refreshed c
  /\ progress_text_of (generate_settled env props r refreshed c)
     = Some (js "Error: Cannot connect to backend server. Make sure the backend is running on "
             ++ API_BASE_URL env).
Proof.
  intros [(ok & text & ->) | (text & ms & v & -> & E & Ht & Hv)].
  - split; reflexivity.
  - unfold generate_settled. cbn [read_reply negb prop]. rewrite E, Ht.
    cbn [negb].
    destruct v as [| b | n | x | s | items | ms']; try (split; reflexivity).
    exfalso. by eapply Hv.
Qed.

Lemma reply_reported_as_no_connection_witness :
  progress_text_of
    (generate_settled None props5
       (Replied true (js "null") (Some JNull)) None (mount props5))
  = Some (js "Error: Cannot connect to backend server. Make sure the backend is running on http://localhost:8000").
Proof.
  apply (reply_reported_as_no_connection None props5
           (Replied true (js "null") (Some JNull)) None (mount props5)).
  left. by eexists _, _.
Defined.



End ScriptGeneration.

(** ** Editing a step *)

Section StepEditing.
Import Api TestStepExecutor StepEditor.


(** X13. A successful save leaves edit mode, keeps the saved texts in the
    editor, refreshes the page once when [onRefresh] is given, and clears
    the saving flag; [handleCancelEdit] leaves edit mode too, but puts the
    step's own description and expected result back into the editor (the
    empty string for a missing one), whatever the user had typed. *)
Theorem save_and_cancel_leave_edit_mode
    (env : option jstr) (props : Props) (edits : list Edit)
    (c : Component) :
  let typed_in := fold_left edit edits c in
  let saved := save_settled env props Updated None typed_in in
  let cancelled := handleCancelEdit props typed_in in
  isEditing (run saved) = false
  /\ typed saved = typed typed_in
  /\ isSaving saved = false
  /\ refreshes saved
     = (if onRefresh_given props then S (refreshes typed_in)
        else refreshes typed_in)
  /\ isEditing (run cancelled) = false
  /\ typed cancelled
     = (or_empty (description (step props)),
        or_empty (expected_result props))
  /\ cancelled = handleCancelEdit props c.
Proof.
  cbn zeta. unfold save_settled.
  assert (Hrest : forall c0,
            handleCancelEdit props (fold_left edit edits c0)
            = handleCancelEdit props c0).
  { induction edits as [| e es IH]; intros c0; [reflexivity |].
    cbn [fold_left]. rewrite IH. by destruct e. }
  destruct (onRefresh_given props); repeat split; apply Hrest.
Qed.

End StepEditing.

(** ** Generating a test case *)

Section TestCaseGeneration.
Import CreateTestCase.

Lemma trim_start_white (s : jstr) :
  forallb is_white_space s = true -> trim_start s = [].
Proof.
  induction s as [| c s IH]; [reflexivity |]. cbn [forallb trim_start].
  intros H. apply andb_true_iff in H as [-> H]. apply IH, H.
Qed.

Lemma trim_start_head (s : jstr) :
  match trim_start s with
  | c :: _ => is_white_space c = false
  | [] => forallb is_white_space s = true
  end.
Proof.
  induction s as [| c s IH]; [reflexivity |]. cbn [trim_start forallb].
  destruct (is_white_space c) eqn:E; [| exact E].
  destruct (trim_start s); [exact IH | exact IH].
Qed.

Lemma trim_start_suffix (s : jstr) : exists p,
  s = p ++ trim_start s /\ forallb is_white_space p = true.
Proof.
  induction s as [| c s (p & IH & Hp)]; [by exists [] |].
  cbn [trim_start]. destruct (is_white_space c) eqn:E.
  - exists (c :: p). cbn [forallb app]. rewrite E, Hp. by rewrite <- IH.
  - by exists [].
Qed.

Lemma forallb_reverse {A} (f : A -> bool) (l : list A) :
  forallb f (reverse l) = forallb f l.
Proof.
  induction l as [| x l IH]; [reflexivity |].
  rewrite reverse_cons, forallb_app, IH. cbn. rewrite andb_true_r.
  apply andb_comm.
Qed.

(** A prompt is blank exactly when it consists of white space. *)
Lemma blank_white (s : jstr) :
  blank s = true <-> forallb is_white_space s = true.
Proof.
  unfold blank, trim. rewrite jstr_eqb_true. split.
  - intros H. apply (f_equal reverse) in H.
    rewrite reverse_involutive in H. change (reverse []) with (@nil N) in H.
    pose proof (trim_start_head (reverse (trim_start s))) as Hh.
    rewrite H in Hh. rewrite forallb_reverse in Hh.
    destruct (trim_start_suffix s) as (p & E & Hp).
    rewrite E, forallb_app, Hp, Hh. reflexivity.
  - intros H. rewrite (trim_start_white s H). reflexivity.
Qed.

(** The trimmed prompt neither starts nor ends with white space. *)
Lemma trim_ends (s : jstr) :
  match trim s with
  | [] => True
  | c :: _ => is_white_space c = false
  end
  /\ match reverse (trim s) with
     | [] => True
     | c :: _ => is_white_space c = false
     end.
Proof.
  unfold trim. rewrite reverse_involutive. split.
  - destruct (trim_start_suffix (reverse (trim_start s))) as (p & E & Hp).
    pose proof (trim_start_head s) as Hs.
    pose proof (trim_start_head (reverse (trim_start s))) as Hr.
    set (t := trim_start (reverse (trim_start s))) in *.
    apply (f_equal reverse) in E.
    rewrite reverse_involutive, reverse_app in E.
    destruct (reverse t) as [| c u] eqn:Et; [exact I |].
    rewrite E in Hs. cbn [app] in Hs. exact Hs.
  - pose proof (trim_start_head (reverse (trim_start s))) as Hr.
    destruct (trim_start (reverse (trim_start s))); [exact I | exact Hr].
Qed.

Lemma request_text (k s : jstr) :
  stringify (JObj [(k, JStr s)])
  = 123 :: 34 :: JSON.quote_body k
    ++ 34 :: 58 :: 34 :: JSON.quote_body s ++ [34; 125].
Proof.
  cbn [stringify map join_with concat fst snd]. unfold JSON.quote.
  rewrite app_nil_r. cbn [app]. rewrite <- !app_assoc. cbn [app].
  rewrite <- !app_assoc. reflexivity.
Qed.

Lemma request_parses (typed : jstr) :
  JSON.parse (generation_request typed)
  = Some (JObj [(js "description", JStr (trim typed))]).
Proof.
  unfold generation_request, JSON.parse.
  set (s := trim typed). rewrite request_text.
  set (body := JSON.quote_body (js "description")
               ++ 34 :: 58 :: 34 :: JSON.quote_body s ++ [34; 125]).
  change (JSON.skip_ws (123 :: 34 :: body)) with (123 :: 34 :: body).
  assert (Hv : JSON.parse_value (S (S (S (length body))))
                 (123 :: 34 :: body)
               = Some (JObj (JSON.build_object [(js "description", JStr s)]),
                       [])).
  { apply parse_value_object with (c := 34) (t' := body);
      [reflexivity | discriminate |].
    eapply parse_members_last with (t := [125]);
      [apply parse_chars_quote | | reflexivity].
    change (JSON.skip_ws (34 :: JSON.quote_body s ++ [34; 125]))
      with (34 :: JSON.quote_body s ++ [34; 125]).
    apply parse_value_string. apply (parse_chars_quote s [125]). }
  cbn [length]. rewrite Hv. reflexivity.
Qed.

Ltac form_simpl :=
  cbn [socket loading error progress navigations fallbacks posted prompt
       progressMessage currentStep totalSteps setLoading setError
       setProgress setProgressMessage setCurrentStep setTotalSteps
       set_socket navigate_after fallback_after_500 post websocket_send
       websocket_close set_ready onopen onerror fmap option_fmap option_map
       TestStepExecutor.readyState TestStepExecutor.sent
       TestStepExecutor.closeCalls TestStepExecutor.url
       TestStepExecutor.close_socket TestStepExecutor.ready_eqb
       frames socket_ready close_count default from_option onmessage] in *;
  cbv beta delta [Datatypes.id] in *.

Lemma message_handled (data : json) (f : Form) :
  default f (onmessage data f) = f
  \/ default f (onmessage data f) = dispatch_message data f.
Proof. destruct data; auto. Qed.

Ltac dispatch_cases :=
  unfold dispatch_message;
  repeat match goal with
         | |- context [if ?b then _ else _] => destruct b
         end;
  form_simpl.

Lemma dispatch_socket (data : json) (f : Form) :
  socket (dispatch_message data f) = socket f
  \/ socket (dispatch_message data f)
     = TestStepExecutor.close_socket <$> socket f.
Proof. dispatch_cases; auto. Qed.

Lemma close_socket_ready (w : option TestStepExecutor.WebSocket) :
  TestStepExecutor.readyState <$> w <> Some TestStepExecutor.CONNECTING ->
  TestStepExecutor.readyState <$> (TestStepExecutor.close_socket <$> w)
  <> Some TestStepExecutor.CONNECTING.
Proof.
  destruct w as [w |]; [| done]. cbn [fmap option_fmap option_map].
  cbn [TestStepExecutor.close_socket TestStepExecutor.readyState].
  destruct (TestStepExecutor.readyState w); congruence.
Qed.

Lemma deliver_frames (seen f f' : Form) (ev : TestStepExecutor.ws_event) :
  deliver seen f ev = Some f' ->
  frames f' = frames f
  \/ (ev = TestStepExecutor.EvOpen
      /\ socket_ready f = Some TestStepExecutor.CONNECTING
      /\ frames f' = frames f ++ [generation_request (prompt seen)]).
Proof.
  unfold deliver, frames, socket_ready.
  destruct (socket f) as [w |] eqn:Ew; [| intros [= <-]; left; by rewrite Ew].
  destruct ev as [| [data |] | |]; cbn [fmap option_fmap option_map].
  - destruct (TestStepExecutor.readyState w) eqn:Er; form_simpl;
      intros [= <-]; form_simpl; rewrite ?Ew; form_simpl; auto.
  - destruct (TestStepExecutor.ready_eqb _ _); intros [= <-];
      [| left; by rewrite Ew].
    left. destruct (message_handled data f) as [-> | ->]; [by rewrite Ew |].
    destruct (dispatch_socket data f) as [-> | ->]; rewrite Ew; reflexivity.
  - destruct (TestStepExecutor.ready_eqb _ _); intros [= <-];
      left; by rewrite Ew.
  - destruct (TestStepExecutor.ready_eqb _ _); intros [= <-];
      left; form_simpl; rewrite Ew; reflexivity.
  - destruct (TestStepExecutor.ready_eqb _ _); [intros [= <-]; left; by rewrite Ew |].
    unfold onclose. destruct (loading seen);
      [destruct (below_100 (progress seen)) as [[|] |] |];
      intros [= <-]; left; form_simpl; rewrite Ew; reflexivity.
Qed.

Lemma deliver_not_connecting (seen f f' : Form)
    (ev : TestStepExecutor.ws_event) :
  socket_ready f <> Some TestStepExecutor.CONNECTING ->
  deliver seen f ev = Some f' ->
  socket_ready f' <> Some TestStepExecutor.CONNECTING.
Proof.
  unfold deliver, socket_ready.
  destruct (socket f) as [w |] eqn:Ew; [| intros H [= <-]; by rewrite Ew].
  cbn [fmap option_fmap option_map]. intros Hr.
  destruct ev as [| [data |] | |].
  - destruct (TestStepExecutor.readyState w) eqn:Er; form_simpl;
      intros [= <-]; form_simpl; rewrite ?Ew; form_simpl; congruence.
  - destruct (TestStepExecutor.ready_eqb _ _); intros [= <-];
      [| rewrite Ew; form_simpl; congruence].
    destruct (message_handled data f) as [-> | ->];
      [rewrite Ew; form_simpl; congruence |].
    destruct (dispatch_socket data f) as [-> | ->].
    + rewrite Ew. form_simpl. congruence.
    + apply close_socket_ready. rewrite Ew. form_simpl. congruence.
  - destruct (TestStepExecutor.ready_eqb _ _); intros [= <-];
      rewrite Ew; form_simpl; congruence.
  - destruct (TestStepExecutor.ready_eqb _ _); intros [= <-];
      form_simpl; rewrite Ew; form_simpl; [congruence |].
    destruct (TestStepExecutor.readyState w); form_simpl; congruence.
  - destruct (TestStepExecutor.ready_eqb _ _);
      [intros [= <-]; rewrite Ew; form_simpl; congruence |].
    unfold onclose. destruct (loading seen);
      [destruct (below_100 (progress seen)) as [[|] |] |];
      intros [= <-]; form_simpl; rewrite Ew; form_simpl; congruence.
Qed.

Lemma deliver_all_frames (seen : Form) (evs : list TestStepExecutor.ws_event) :
  forall f f',
    socket_ready f <> Some TestStepExecutor.CONNECTING ->
    deliver_all seen f evs = Some f' ->
    frames f' = frames f.
Proof.
  induction evs as [| ev evs IH]; intros f f' Hr; cbn [deliver_all].
  - by intros [= <-].
  - destruct (deliver seen f ev) as [f1 |] eqn:E; [| discriminate].
    intros H. rewrite (IH f1 f' (deliver_not_connecting _ _ _ _ Hr E) H).
    destruct (deliver_frames _ _ _ _ E) as [-> | (_ & Hc & _)];
      [reflexivity | contradiction].
Qed.

Lemma deliver_total (seen f : Form) (ev : TestStepExecutor.ws_event) :
  loading seen = false -> exists f', deliver seen f ev = Some f'.
Proof.
  intros Hl. unfold deliver. destruct (socket f) as [w |]; [| eauto].
  destruct ev as [| [data |] | |];
    try (destruct (TestStepExecutor.ready_eqb _ _); eauto).
  unfold onclose. rewrite Hl. eauto.
Qed.

Lemma deliver_all_total (seen : Form) (evs : list TestStepExecutor.ws_event) :
  loading seen = false -> forall f, exists f', deliver_all seen f evs = Some f'.
Proof.
  intros Hl. induction evs as [| ev evs IH]; intros f; cbn [deliver_all];
    [eauto |].
  destruct (deliver_total seen f ev Hl) as (f1 & ->). apply IH.
Qed.

Lemma deliver_all_app (seen : Form) (evs1 evs2 : list TestStepExecutor.ws_event) :
  forall f,
    deliver_all seen f (evs1 ++ evs2)
    = match deliver_all seen f evs1 with
      | Some f1 => deliver_all seen f1 evs2
      | None => None
      end.
Proof.
  induction evs1 as [| ev evs1 IH]; intros f; [reflexivity |].
  cbn [app deliver_all]. destruct (deliver seen f ev); [apply IH | reflexivity].
Qed.

(** X14. A prompt that is empty or consists of white space only is
    refused: [handleGenerateWebSocket] and [handleGenerateREST] set the
    error text and do nothing else (no socket is opened, nothing is
    posted, the form does not start loading), and the submit button,
    being disabled, does nothing at all. *)
Theorem blank_prompt_is_refused
    (loc : TestStepExecutor.Location) (f : Form) :
  forallb is_white_space (prompt f) = true ->
  handleGenerateWebSocket loc f
  = setError (text "Please enter a test case description") f
  /\ handleGenerateREST (prompt f) f
     = setError (text "Please enter a test case description") f
  /\ handleGenerate loc f
     = setError (text "Please enter a test case description") f
  /\ submit loc f = f.
Proof.
  intros H. apply blank_white in H.
  unfold submit, handleGenerate, handleGenerateWebSocket, handleGenerateREST.
  rewrite H, orb_true_r. by repeat split.
Qed.

Lemma blank_prompt_is_refused_witness :
  submit here (form_with (js "   ")) = form_with (js "   ").
Proof.
  apply (blank_prompt_is_refused here (form_with (js "   "))).
  reflexivity.
Defined.

(** X15. For a prompt that is not blank, the client sends its request
    when the socket opens and at no other time: before the socket opens
    nothing has been sent, and after it has opened, whatever events
    follow, exactly one frame has been sent.  The frame is JSON for an
    object whose only member, [description], is the prompt without the
    white space around it. *)
Theorem generation_request_sent_on_open
    (loc : TestStepExecutor.Location) (f : Form)
    (evs : list TestStepExecutor.ws_event) :
  loading f = false ->
  blank (prompt f) = false ->
  frames (handleGenerateWebSocket loc f) = []
  /\ (exists f',
        deliver_all f (handleGenerateWebSocket loc f)
          (TestStepExecutor.EvOpen :: evs) = Some f'
        /\ frames f' = [generation_request (prompt f)])
  /\ JSON.parse (generation_request (prompt f))
     = Some (JObj [(js "description", JStr (trim (prompt f)))])
  /\ trim (prompt f) <> []
  /\ (forall c, head (trim (prompt f)) = Some c -> is_white_space c = false)
  /\ (forall c, last (trim (prompt f)) = Some c -> is_white_space c = false).
Proof.
  intros Hl Hb.
  assert (Hstart : handleGenerateWebSocket loc f
                   = set_socket
                       (Some (TestStepExecutor.mkWebSocket (wsUrl loc)
                                TestStepExecutor.CONNECTING [] 0))
                       (setTotalSteps (number 0)
                          (setCurrentStep (number 0)
                             (setProgressMessage (text "Connecting...")
                                (setProgress (number 0)
                                   (setError (Some (JStr []))
                                      (setLoading true f))))))).
  { unfold handleGenerateWebSocket. by rewrite Hb. }
  split; [by rewrite Hstart |]. split; [| split; [apply request_parses |]].
  - rewrite Hstart. cbn [deliver_all].
    set (f0 := set_socket _ _).
    assert (E : deliver f f0 TestStepExecutor.EvOpen
                = Some (onopen f (set_ready TestStepExecutor.OPEN f0)))
      by reflexivity.
    rewrite E.
    destruct (deliver_all_total f evs Hl
                (onopen f (set_ready TestStepExecutor.OPEN f0))) as (f' & E').
    exists f'. split; [exact E' |].
    rewrite (deliver_all_frames f evs
               (onopen f (set_ready TestStepExecutor.OPEN f0)) f');
      [reflexivity | discriminate | exact E'].
  - split; [apply jstr_eqb_false; exact Hb |].
    destruct (trim_ends (prompt f)) as [Hhead Hlast].
    rewrite <- head_reverse. split; intros c Hc.
    + destruct (trim (prompt f)); [discriminate |]. by injection Hc as ->.
    + destruct (reverse (trim (prompt f))); [discriminate |].
      by injection Hc as ->.
Qed.

Lemma generation_request_sent_on_open_witness :
  generation_request sample_prompt
  = jsq "{'description':'Test the BOM page'}"
  /\ JSON.parse (generation_request sample_prompt)
     = Some (JObj [(js "description", JStr (js "Test the BOM page"))]).
Proof.
  split; [reflexivity |].
  apply (generation_request_sent_on_open here (form_with sample_prompt) []);
    reflexivity.
Defined.

Lemma dispatch_not_final (data : json) (f : Form) :
  not_final data = true ->
  socket (dispatch_message data f) = socket f
  /\ loading (dispatch_message data f) = loading f
  /\ error (dispatch_message data f) = error f
  /\ navigations (dispatch_message data f) = navigations f
  /\ fallbacks (dispatch_message data f) = fallbacks f
  /\ posted (dispatch_message data f) = posted f.
Proof.
  unfold not_final. intros H. apply andb_true_iff in H as [H1 H2].
  apply negb_true_iff in H1, H2.
  unfold dispatch_message. rewrite H1, H2.
  destruct (is_string _ (js "generation_progress")); form_simpl;
    by repeat split.
Qed.

Lemma goes_on_keeps (seen f f' : Form) (ev : TestStepExecutor.ws_event) :
  goes_on ev = true ->
  deliver seen f ev = Some f' ->
  (socket_ready f = Some TestStepExecutor.CONNECTING
   \/ socket_ready f = Some TestStepExecutor.OPEN) ->
  (socket_ready f' = Some TestStepExecutor.CONNECTING
   \/ socket_ready f' = Some TestStepExecutor.OPEN)
  /\ loading f' = loading f /\ error f' = error f
  /\ navigations f' = navigations f /\ fallbacks f' = fallbacks f
  /\ posted f' = posted f.
Proof.
  unfold deliver, socket_ready.
  destruct (socket f) as [w |] eqn:Ew;
    [| intros _ _ [H | H]; discriminate H].
  cbn [fmap option_fmap option_map].
  destruct ev as [| [data |] | |]; try discriminate; intros Hg.
  - destruct (TestStepExecutor.readyState w) eqn:Er; form_simpl;
      intros [= <-] Hr; form_simpl; rewrite ?Ew; form_simpl;
      repeat split; try tauto; rewrite Er; tauto.
  - destruct (TestStepExecutor.ready_eqb _ _); intros [= <-] Hr;
      [| rewrite Ew; by repeat split].
    destruct (message_handled data f) as [-> | ->];
      [rewrite Ew; by repeat split |].
    destruct (dispatch_not_final data f Hg) as (-> & -> & -> & -> & -> & ->).
    rewrite Ew. by repeat split.
  - destruct (TestStepExecutor.ready_eqb _ _); intros [= <-] Hr;
      rewrite Ew; by repeat split.
Qed.

(** X16. [onclose] tests the [loading] flag of the render that created
    it, and the form can only be submitted from a render in which it is
    not loading.  So when the server closes the socket without a final
    message, after any number of progress messages, nothing is reported:
    the form stays in its loading state, without an error text, without
    a navigation and without a fall-back to REST. *)
Theorem silent_close_leaves_form_loading
    (loc : TestStepExecutor.Location) (f : Form)
    (evs : list TestStepExecutor.ws_event) :
  loading f = false ->
  blank (prompt f) = false ->
  forallb goes_on evs = true ->
  exists f',
    deliver_all f (submit loc f) (evs ++ [TestStepExecutor.EvClose])
    = Some f'
    /\ socket_ready f' = Some TestStepExecutor.CLOSED
    /\ loading f' = true
    /\ error f' = Some (JStr [])
    /\ navigations f' = navigations f
    /\ fallbacks f' = fallbacks f
    /\ posted f' = posted f.
Proof.
  intros Hl Hb Hevs.
  assert (Hstart : submit loc f
                   = set_socket
                       (Some (TestStepExecutor.mkWebSocket (wsUrl loc)
                                TestStepExecutor.CONNECTING [] 0))
                       (setTotalSteps (number 0)
                          (setCurrentStep (number 0)
                             (setProgressMessage (text "Connecting...")
                                (setProgress (number 0)
                                   (setError (Some (JStr []))
                                      (setLoading true f))))))).
  { unfold submit, handleGenerate, handleGenerateWebSocket.
    by rewrite Hl, Hb. }
  rewrite Hstart. set (f0 := set_socket _ _).
  assert (Hinv : forall evs g,
            forallb goes_on evs = true ->
            (socket_ready g = Some TestStepExecutor.CONNECTING
             \/ socket_ready g = Some TestStepExecutor.OPEN) ->
            exists g',
              deliver_all f g evs = Some g'
              /\ (socket_ready g' = Some TestStepExecutor.CONNECTING
                  \/ socket_ready g' = Some TestStepExecutor.OPEN)
              /\ loading g' = loading g /\ error g' = error g
              /\ navigations g' = navigations g
              /\ fallbacks g' = fallbacks g /\ posted g' = posted g).
  { clear evs Hevs. induction evs as [| ev evs IH]; intros g Hg Hr.
    - exists g. by repeat split.
    - cbn [forallb] in Hg. apply andb_true_iff in Hg as [Hev Hg].
      destruct (deliver_total f g ev Hl) as (g1 & E1).
      destruct (goes_on_keeps f g g1 ev Hev E1 Hr)
        as (Hr1 & H1 & H2 & H3 & H4 & H5).
      destruct (IH g1 Hg Hr1) as (g' & E' & Hr' & K1 & K2 & K3 & K4 & K5).
      exists g'. cbn [deliver_all]. rewrite E1.
      repeat split; try assumption; congruence. }
  destruct (Hinv evs f0 Hevs (or_introl eq_refl))
    as (g & E & Hr & K1 & K2 & K3 & K4 & K5).
  rewrite deliver_all_app, E. cbn [deliver_all].
  unfold deliver. unfold socket_ready in Hr.
  destruct (socket g) as [w |] eqn:Ew; [| destruct Hr; discriminate].
  form_simpl.
  assert (Hc : TestStepExecutor.ready_eqb (TestStepExecutor.readyState w)
                 TestStepExecutor.CLOSED = false)
    by (destruct Hr as [[= ->] | [= ->]]; reflexivity).
  rewrite Hc. unfold onclose. rewrite Hl.
  eexists. split; [reflexivity |].
  unfold socket_ready. form_simpl. rewrite Ew. form_simpl.
  repeat split; try assumption.
Qed.

Lemma silent_close_leaves_form_loading_witness :
  exists f',
    deliver_all (form_with sample_prompt) (submit here (form_with sample_prompt))
      ([TestStepExecutor.EvOpen;
        TestStepExecutor.EvMessage
          (Some (JObj [(js "type", JStr (js "generation_progress"));
                       (js "progress", JNum 40)]))]
       ++ [TestStepExecutor.EvClose])
    = Some f'
    /\ socket_ready f' = Some TestStepExecutor.CLOSED
    /\ loading f' = true
    /\ error f' = Some (JStr [])
    /\ navigations f' = navigations (form_with sample_prompt)
    /\ fallbacks f' = fallbacks (form_with sample_prompt)
    /\ posted f' = posted (form_with sample_prompt).
Proof.
  apply (silent_close_leaves_form_loading here (form_with sample_prompt));
    reflexivity.
Defined.



(** X18. An error of the socket, before it is closed, shows the
    fall-back text, stops loading, closes the socket and sets the timer
    of the REST fall-back, once.  When the timer runs, the handler posts
    the prompt to the REST API as it was typed, white space included
    (the request on the socket carries it trimmed), and the form loads
    again without an error text. *)
Theorem socket_error_falls_back_to_rest
    (seen f : Form) (r : TestStepExecutor.ReadyState) :
  socket_ready f = Some r ->
  r <> TestStepExecutor.CLOSED ->
  blank (prompt seen) = false ->
  exists f1,
    deliver seen f TestStepExecutor.EvError = Some f1
    /\ error f1
       = text "WebSocket connection error. Falling back to REST API..."
    /\ loading f1 = false
    /\ fallbacks f1 = S (fallbacks f)
    /\ close_count f1 = S (close_count f)
    /\ posted f1 = posted f
    /\ posted (handleGenerateREST (prompt seen) f1)
       = posted f ++ [JObj [(js "prompt", JStr (prompt seen))]]
    /\ loading (handleGenerateREST (prompt seen) f1) = true
    /\ error (handleGenerateREST (prompt seen) f1) = Some (JStr []).
Proof.
  unfold socket_ready, deliver, close_count. intros Hr Hc Hb.
  destruct (socket f) as [w |] eqn:Ew; [| discriminate].
  form_simpl. injection Hr as Hr. rewrite Hr.
  replace (TestStepExecutor.ready_eqb r TestStepExecutor.CLOSED) with false
    by (by destruct r).
  eexists. split; [reflexivity |].
  unfold handleGenerateREST. rewrite Hb.
  form_simpl. rewrite Ew. form_simpl. by repeat split.
Qed.

Lemma socket_error_falls_back_to_rest_witness :
  exists f1,
    deliver (form_with sample_prompt) (submit here (form_with sample_prompt))
      TestStepExecutor.EvError = Some f1
    /\ posted (handleGenerateREST sample_prompt f1)
       = [JObj [(js "prompt", JStr sample_prompt)]].
Proof.
  destruct (socket_error_falls_back_to_rest (form_with sample_prompt)
              (submit here (form_with sample_prompt))
              TestStepExecutor.CONNECTING eq_refl ltac:(discriminate)
              eq_refl)
    as (f1 & E & _ & _ & _ & _ & _ & H & _).
  exists f1. split; [exact E | exact H].
Defined.









(** X20. When the request of the REST path ends, the form is in one of
    two states, whatever the server answered and however the request
    failed: either exactly one navigation is scheduled, half a second
    later, and the form keeps loading with the error text it had (the
    empty one the handler set), or no navigation is scheduled, the form
    has stopped loading and shows an error text that is not empty.  A
    navigation goes to the test case only for a reply that carries an
    id: [test_case_id] with [success], or else [id] or [test_case.id]. *)
Theorem rest_ends_in_navigation_or_error
    (engine_message : jstr) (r : Generated) (f : Form) :
  let f' := rest_settled engine_message r f in
  ((exists target, navigations f' = navigations f ++ [(500, target)])
   /\ loading f' = loading f /\ error f' = error f
   /\ exists response,
        r = Resolved response
        /\ (truthy (prop response (js "success"))
            && truthy (prop response (js "test_case_id"))
            || truthy (prop response (js "id"))
            || truthy (optional (prop response (js "test_case")) (js "id"))
            = true))
  \/ (navigations f' = navigations f
      /\ loading f' = false
      /\ truthy (error f') = true
      /\ posted f' = posted f).
Proof.
  cbn zeta.
  assert (Hfail : forall code message data,
            navigations (rest_failed code message data f) = navigations f
            /\ loading (rest_failed code message data f) = false
            /\ truthy (error (rest_failed code message data f)) = true
            /\ posted (rest_failed code message data f) = posted f).
  { intros code message data. unfold rest_failed. form_simpl.
    repeat split.
    destruct (_ || _); [reflexivity |].
    destruct (truthy (optional data (js "detail"))) eqn:E1; [exact E1 |].
    destruct (truthy (optional data (js "error"))) eqn:E2; [exact E2 |].
    destruct message as [m |]; [| reflexivity]. cbn [str_truthy].
    destruct (negb (jstr_eqb m [])) eqn:E3; [exact E3 | reflexivity]. }
  destruct r as [response | code message data]; [| right; apply Hfail].
  destruct response as [| b | n | x | s | items | ms];
    try (right; apply Hfail).
  all: unfold rest_settled.
  all: destruct (truthy (prop _ (js "success")) && _) eqn:E1;
    [left; form_simpl; split; [eauto |]; repeat split; eexists;
     (split; [reflexivity |]); by rewrite E1 |].
  all: unfold js_or.
  all: destruct (truthy (prop _ (js "id"))) eqn:E2;
    [rewrite E2; left; form_simpl; split; [eauto |]; repeat split; eexists;
     (split; [reflexivity |]); rewrite E1, E2; reflexivity |].
  all: destruct (truthy (optional _ (js "id"))) eqn:E3;
    [left; form_simpl; split; [eauto |]; repeat split; eexists;
     (split; [reflexivity |]); rewrite E1, E2, E3; reflexivity |].
  all: right; form_simpl; by repeat split.
Qed.

End TestCaseGeneration.

(** ** The session of the mock site *)

Section MockSession.
Import MockSite MockPages.

Lemma checkAuth_display (w : Browser) (el : Element) (u : jstr) :
  str_truthy (getItem (js "o9-logged-in") w) = true ->
  getElementById (js "username-display") w = Some el ->
  getItem (js "o9-username") w = Some u ->
  u <> [] ->
  getElementById (js "username-display") (checkAuth w)
  = Some (mkElement (value el) u (style_display el)).
Proof.
  intros Hin Hel Hu Hne. unfold checkAuth. rewrite Hin. cbn [negb andb].
  rewrite Hu, Hel. apply str_truthy_Some in Hne. rewrite Hne.
  unfold getElementById, set_element. cbn [document].
  apply lookup_insert_eq.
Qed.

(** X21. After a successful login, the session storage lets every page
    of the site load without a redirect, whatever its path, and a page
    that has the element [username-display] shows the name that was
    typed into the login form. *)
Theorem login_opens_every_page
    (w : Browser) (ue pe : Element) (path : jstr)
    (doc : gmap jstr Element) :
  getElementById (js "username") w = Some ue ->
  getElementById (js "password") w = Some pe ->
  value ue <> [] -> value pe <> [] ->
  let store := sessionStorage (world_of (handleLogin w)) in
  href (page_load path store doc) = None
  /\ sessionStorage (page_load path store doc) = store
  /\ forall el,
       doc !! js "username-display" = Some el ->
       textContent
         <$> getElementById (js "username-display") (page_load path store doc)
       = Some (value ue).
Proof.
  intros Hu Hp Hne1 Hne2.
  rewrite (handleLogin_accepts w ue pe Hu Hp Hne1 Hne2).
  cbn [world_of set_href setItem sessionStorage]. cbn zeta.
  set (store := <[js "o9-logged-in" := js "true"]> _).
  assert (Hin : str_truthy
                  (getItem (js "o9-logged-in") (mkBrowser path None store doc))
                = true).
  { unfold getItem. cbn [sessionStorage]. unfold store.
    rewrite lookup_insert_eq. reflexivity. }
  unfold page_load, onDOMContentLoaded.
  split; [| split].
  - rewrite (checkAuth_logged_in_stays _ Hin). reflexivity.
  - apply checkAuth_storage.
  - intros el Hel.
    rewrite (checkAuth_display _ el (value ue) Hin); [reflexivity | exact Hel | | exact Hne1].
    unfold getItem. cbn [sessionStorage]. unfold store.
    rewrite lookup_insert_ne by discriminate. apply lookup_insert_eq.
Qed.

Lemma login_opens_every_page_witness :
  let store :=
    sessionStorage
      (world_of (handleLogin (login_form (js "testuser") (js "secret")))) in
  href (page_load (js "/inventory.html") store dashboard_doc) = None
  /\ sessionStorage (page_load (js "/inventory.html") store dashboard_doc)
     = store
  /\ forall el,
       dashboard_doc !! js "username-display" = Some el ->
       textContent
         <$> getElementById (js "username-display")
               (page_load (js "/inventory.html") store dashboard_doc)
       = Some (js "testuser").
Proof.
  exact (login_opens_every_page (login_form (js "testuser") (js "secret"))
           (mkElement (js "testuser") [] []) (mkElement (js "secret") [] [])
           (js "/inventory.html") dashboard_doc
           eq_refl eq_refl ltac:(discriminate) ltac:(discriminate)).
Defined.

(** X22. [handleLogout] removes the two keys of the login from the
    session storage, leaves every other key and the document alone, and
    navigates to [index.html]; with the storage it leaves, every
    protected page redirects to the login page.  On a storage that held
    neither key before the login, logging in and out again restores the
    storage exactly. *)
Theorem logout_ends_the_session
    (w : Browser) (ue pe : Element) (path : jstr)
    (doc : gmap jstr Element) :
  getElementById (js "username") w = Some ue ->
  getElementById (js "password") w = Some pe ->
  value ue <> [] -> value pe <> [] ->
  protected path ->
  let out := handleLogout (world_of (handleLogin w)) in
  logged_out (sessionStorage out)
  /\ (forall k, k <> js "o9-username" -> k <> js "o9-logged-in" ->
                sessionStorage out !! k = sessionStorage w !! k)
  /\ href out = Some (js "index.html")
  /\ document out = document w
  /\ href (page_load path (sessionStorage out) doc) = Some (js "index.html")
  /\ (logged_out (sessionStorage w) ->
      sessionStorage out = sessionStorage w).
Proof.
  intros Hu Hp Hne1 Hne2 [Hpath Hroot].
  rewrite (handleLogin_accepts w ue pe Hu Hp Hne1 Hne2).
  cbn [world_of]. cbn zeta. unfold handleLogout, logged_out.
  cbn [set_href setItem removeItem sessionStorage href document].
  set (store := delete _ (delete _ _)).
  assert (H1 : store !! js "o9-username" = None).
  { unfold store. rewrite lookup_delete_ne by discriminate.
    apply lookup_delete_eq. }
  assert (H2 : store !! js "o9-logged-in" = None)
    by (unfold store; apply lookup_delete_eq).
  split; [by split |]. split; [| split; [reflexivity | split; [reflexivity |]]].
  - intros k K1 K2. unfold store.
    rewrite !lookup_delete_ne, !lookup_insert_ne by congruence. reflexivity.
  - split.
    + unfold page_load, onDOMContentLoaded. rewrite checkAuth_href.
      unfold getItem. cbn [sessionStorage pathname]. rewrite H2, Hpath.
      cbn [str_truthy negb andb].
      apply jstr_eqb_false in Hroot. rewrite Hroot. reflexivity.
    + intros [K1 K2]. apply map_eq. intros k.
      destruct (decide (k = js "o9-username")) as [-> | N1];
        [by rewrite H1, K1 |].
      destruct (decide (k = js "o9-logged-in")) as [-> | N2];
        [by rewrite H2, K2 |].
      unfold store.
      rewrite !lookup_delete_ne, !lookup_insert_ne by congruence.
      reflexivity.
Qed.

Lemma logout_ends_the_session_witness :
  let out :=
    handleLogout
      (world_of (handleLogin (login_form (js "testuser") (js "secret")))) in
  sessionStorage out = ∅
  /\ href (page_load (js "/dashboard.html") (sessionStorage out) dashboard_doc)
     = Some (js "index.html").
Proof.
  assert (Hp : protected (js "/dashboard.html"))
    by (split; [vm_compute; reflexivity | discriminate]).
  destruct (logout_ends_the_session
              (login_form (js "testuser") (js "secret"))
              (mkElement (js "testuser") [] [])
              (mkElement (js "secret") [] [])
              (js "/dashboard.html") dashboard_doc
              eq_refl eq_refl ltac:(discriminate) ltac:(discriminate) Hp)
    as (_ & _ & _ & _ & Hredirect & Hrestore).
  split; [| exact Hredirect].
  apply Hrestore. split; reflexivity.
Defined.

(** X23. [handleLogin] ends with a TypeError exactly when the page lacks
    the username or the password field, or lacks the error message while
    one of the two values is empty; it has then changed nothing: no key
    is stored, no navigation is requested and no element is touched. *)
Theorem handleLogin_throws_on_missing_element (w : Browser) :
  ((exists w', handleLogin w = Throw w')
   <-> (getElementById (js "username") w = None
        \/ getElementById (js "password") w = None
        \/ (getElementById (js "error-message") w = None
            /\ exists ue pe,
                 getElementById (js "username") w = Some ue
                 /\ getElementById (js "password") w = Some pe
                 /\ (value ue = [] \/ value pe = []))))
  /\ (forall w', handleLogin w = Throw w' -> w' = w).
Proof.
  unfold handleLogin.
  destruct (getElementById (js "username") w) as [ue |] eqn:Hu;
    [| split; [split; eauto | by intros w' [= <-]]].
  destruct (getElementById (js "password") w) as [pe |] eqn:Hp;
    [| split; [split; eauto | by intros w' [= <-]]].
  destruct (str_truthy (Some (value ue)) && str_truthy (Some (value pe)))
    eqn:Hboth.
  - split; [| discriminate]. split; [intros [w' H]; discriminate H |].
    intros [H | [H | (_ & ue' & pe' & [= <-] & [= <-] & Hempty)]];
      try discriminate H.
    apply andb_true_iff in Hboth as [H1 H2].
    apply str_truthy_Some in H1, H2. destruct Hempty; contradiction.
  - assert (Hempty : value ue = [] \/ value pe = []).
    { apply andb_false_iff in Hboth as [H | H]; [left | right];
        cbn [str_truthy] in H; apply negb_false_iff in H;
        by apply jstr_eqb_true in H. }
    destruct (getElementById (js "error-message") w) as [ee |] eqn:He.
    + split; [| discriminate]. split; [intros [w' H]; discriminate H |].
      intros [H | [H | (H & _)]]; discriminate H.
    + split; [| by intros w' [= <-]]. split; [| eauto].
      intros _. right. right. split; [reflexivity |]. eauto 6.
Qed.

(** X24. [toggleSubmenu] is its own inverse as far as membership goes:
    after two calls every element has the classes it had, and after one
    call the submenu has the class [active] exactly if it did not have
    it before; the classes of the other elements, and all classes when
    no element has the id, stay as they are. *)
Theorem toggleSubmenu_twice
    (menuId : jstr) (classes : gmap jstr (list jstr)) :
  (forall id cl,
     toggleSubmenu menuId (toggleSubmenu menuId classes) !! id = Some cl ->
     exists cl0, classes !! id = Some cl0 /\ forall t, t ∈ cl <-> t ∈ cl0)
  /\ (forall submenu,
        classes !! menuId = Some submenu ->
        exists cl, toggleSubmenu menuId classes !! menuId = Some cl
                   /\ (js "active" ∈ cl <-> js "active" ∉ submenu)
                   /\ forall t, t <> js "active" -> (t ∈ cl <-> t ∈ submenu))
  /\ (forall id, id <> menuId ->
                 toggleSubmenu menuId classes !! id = classes !! id)
  /\ (classes !! menuId = None -> toggleSubmenu menuId classes = classes).
Proof.
  assert (Htoggle : forall submenu t,
            t ∈ classList_toggle (js "active") submenu
            <-> (t = js "active" /\ js "active" ∉ submenu)
                \/ (t <> js "active" /\ t ∈ submenu)).
  { intros submenu t. unfold classList_toggle.
    destruct (bool_decide_reflect (js "active" ∈ submenu)) as [Hin | Hout].
    - rewrite list_elem_of_filter. split.
      + intros [Hne Ht]. right. by split.
      + intros [[_ Hno] | [Hne Ht]]; [contradiction | by split].
    - rewrite elem_of_app, list_elem_of_singleton. split.
      + intros [Ht | ->]; [right | left]; split; try done.
        intros ->. contradiction.
      + intros [[-> _] | [_ Ht]]; auto. }
  split; [| split; [| split]].
  - intros id cl. unfold toggleSubmenu.
    destruct (classes !! menuId) as [submenu |] eqn:E.
    + rewrite lookup_insert_eq, insert_insert_eq.
      destruct (decide (id = menuId)) as [-> | Hne].
      * rewrite lookup_insert_eq. intros [= <-]. exists submenu.
        split; [exact E |]. intros t. rewrite !Htoggle.
        destruct (decide (t = js "active")) as [-> | Ht];
          destruct (decide (js "active" ∈ submenu)); tauto.
      * rewrite lookup_insert_ne by done. intros H. exists cl. by split.
    + rewrite E. intros H. exists cl. by split.
  - intros submenu E. unfold toggleSubmenu. rewrite E.
    exists (classList_toggle (js "active") submenu).
    split; [apply lookup_insert_eq |]. split.
    + rewrite Htoggle. split; [intros [[_ H] | [H _]]; done | by left].
    + intros t Ht. rewrite Htoggle. split; [intros [[H _] | [_ H]]; done |].
      by right.
  - intros id Hne. unfold toggleSubmenu.
    destruct (classes !! menuId); [by rewrite lookup_insert_ne | done].
  - intros E. unfold toggleSubmenu. by rewrite E.
Qed.

End MockSession.

(** ** The inventory page *)

Section InventoryPage.
Import MockPages.

Lemma selected_all (checked : bool) (rows : list bool) :
  length (filter (fun b => b = true) (map (fun _ => checked) rows))
  = if checked then length rows else 0%nat.
Proof.
  induction rows as [| r rows IH]; [by destruct checked |].
  cbn [map]. destruct checked.
  - rewrite filter_cons_True by done. cbn [length]. by rewrite IH.
  - rewrite filter_cons_False by done. exact IH.
Qed.

(** X25. After [selectAll] with the box checked, [openBulkUpdate]
    announces the update for as many items as the table has rows, or
    asks to select items when the table is empty; after [selectAll] with
    the box unchecked it always asks to select items.  Neither call
    changes the number of rows, and [openBulkUpdate] changes no check
    box. *)
Theorem select_all_then_bulk_update (p : Page) (checked : bool) :
  let p' := openBulkUpdate (selectAll checked p) in
  alerts p'
  = alerts p
    ++ [if checked && negb (Nat.eqb (length (row_checkboxes p)) 0)
        then js "Opening bulk update for "
             ++ N_to_jstr (N.of_nat (length (row_checkboxes p)))
             ++ js " items"
        else js "Please select items to update"]
  /\ row_checkboxes p' = map (fun _ => checked) (row_checkboxes p)
  /\ length (row_checkboxes p') = length (row_checkboxes p)
  /\ row_checkboxes (openBulkUpdate p) = row_checkboxes p
  /\ values p' = values p.
Proof.
  cbn zeta. unfold openBulkUpdate, selected.
  cbn [selectAll row_checkboxes]. rewrite selected_all.
  assert (Hrows : forall text q, row_checkboxes (alert text q)
                                 = row_checkboxes q) by reflexivity.
  destruct (Nat.eqb (length (filter (fun b => b = true) (row_checkboxes p))) 0);
    destruct checked; cbn [andb];
    try destruct (Nat.eqb (length (row_checkboxes p)) 0);
    cbn [negb alert selectAll alerts row_checkboxes values Nat.eqb];
    rewrite ?length_map; by repeat split.
Qed.

Lemma resetFilters_done (p : Page) (v1 v2 v3 : jstr) :
  values p !! js "warehouse" = Some v1 ->
  values p !! js "inventory-status" = Some v2 ->
  values p !! js "product-category" = Some v3 ->
  resetFilters p
  = Done (mkPage
            (<[js "product-category" := []]>
               (<[js "inventory-status" := []]>
                  (<[js "warehouse" := []]> (values p))))
            (row_checkboxes p)
            (alerts p ++ [js "Filters have been reset!"])
            (console p ++ [js "Filters reset"])).
Proof.
  intros H1 H2 H3. unfold resetFilters, set_value. rewrite H1. cbn [values].
  rewrite lookup_insert_ne, H2 by discriminate. cbn [values].
  rewrite !lookup_insert_ne, H3 by discriminate. reflexivity.
Qed.

(** X26. When all three filters are on the page, [resetFilters] empties
    them, logs [Filters reset] on the console and reports the reset
    with an alert, once each, and leaves every other value and the check
    boxes alone; a second call changes no value.  When a filter is
    missing it ends with a TypeError at the first missing one, in the
    order warehouse, status, category: nothing is logged and nothing is
    reported, the filters before the missing one have been emptied, and
    the missing one, the filters after it and every other value are as
    they were. *)
Theorem resetFilters_clears_or_stops (p : Page) :
  ((forall id, id ∈ inventory_filters -> is_Some (values p !! id)) ->
   exists p',
     resetFilters p = Done p'
     /\ (forall id, id ∈ inventory_filters -> values p' !! id = Some [])
     /\ (forall id, id ∉ inventory_filters ->
                    values p' !! id = values p !! id)
     /\ console p' = console p ++ [js "Filters reset"]
     /\ alerts p' = alerts p ++ [js "Filters have been reset!"]
     /\ row_checkboxes p' = row_checkboxes p
     /\ exists p'', resetFilters p' = Done p'' /\ values p'' = values p')
  /\ (forall (i : nat) (id : jstr),
        inventory_filters !! i = Some id ->
        values p !! id = None ->
        (forall (j : nat) (id' : jstr),
            (j < i)%nat -> inventory_filters !! j = Some id' ->
            is_Some (values p !! id')) ->
        exists p',
          resetFilters p = Threw p'
          /\ console p' = console p
          /\ alerts p' = alerts p
          /\ row_checkboxes p' = row_checkboxes p
          /\ (forall (j : nat) (id' : jstr),
                inventory_filters !! j = Some id' ->
                values p' !! id'
                = if (j <? i)%nat then Some [] else values p !! id')
          /\ (forall id', id' ∉ inventory_filters ->
                          values p' !! id' = values p !! id')).
Proof.
  unfold inventory_filters. split.
  - intros Hall.
    destruct (Hall (js "warehouse")) as [v1 H1]; [set_solver |].
    destruct (Hall (js "inventory-status")) as [v2 H2]; [set_solver |].
    destruct (Hall (js "product-category")) as [v3 H3]; [set_solver |].
    rewrite (resetFilters_done p v1 v2 v3 H1 H2 H3).
    eexists. split; [reflexivity |]. cbn [values alerts console row_checkboxes].
    assert (K1 : <[js "product-category" := []]>
                   (<[js "inventory-status" := []]>
                      (<[js "warehouse" := []]> (values p)))
                 !! js "warehouse" = Some (@nil N))
      by (by rewrite !lookup_insert_ne, lookup_insert_eq by discriminate).
    assert (K2 : <[js "product-category" := []]>
                   (<[js "inventory-status" := []]>
                      (<[js "warehouse" := []]> (values p)))
                 !! js "inventory-status" = Some (@nil N))
      by (by rewrite lookup_insert_ne, lookup_insert_eq by discriminate).
    assert (K3 : <[js "product-category" := []]>
                   (<[js "inventory-status" := []]>
                      (<[js "warehouse" := []]> (values p)))
                 !! js "product-category" = Some (@nil N))
      by apply lookup_insert_eq.
    split; [| split; [| do 3 (split; [reflexivity |])]].
    + intros id Hid.
      apply elem_of_cons in Hid as [-> | Hid]; [exact K1 |].
      apply elem_of_cons in Hid as [-> | Hid]; [exact K2 |].
      apply list_elem_of_singleton in Hid as ->. exact K3.
    + intros id Hid. rewrite !lookup_insert_ne; [reflexivity | | |];
        intros <-; apply Hid; set_solver.
    + erewrite resetFilters_done; [| exact K1 | exact K2 | exact K3].
      eexists. split; [reflexivity |]. cbn [values].
      set (m := <[js "product-category" := []]> _) in *.
      rewrite (insert_id m (js "warehouse")) by exact K1.
      rewrite (insert_id m (js "inventory-status")) by exact K2.
      apply insert_id, K3.
  - intros i id Hi Hnone Hbefore. unfold resetFilters, set_value.
    assert (Hother : forall (m : gmap jstr jstr) (id' : jstr),
               id' ∉ [js "warehouse"; js "inventory-status";
                      js "product-category"] ->
               (<[js "warehouse" := []]> m !! id' = m !! id')
               /\ (<[js "inventory-status" := []]>
                     (<[js "warehouse" := []]> m) !! id' = m !! id')).
    { intros m id' Hid'. split; rewrite !lookup_insert_ne; try reflexivity;
        intros <-; apply Hid'; set_solver. }
    destruct i as [| [| [| i]]]; [| | | discriminate Hi];
      injection Hi as <-.
    + rewrite Hnone. eexists. split; [reflexivity |].
      do 3 (split; [reflexivity |]). split; [| reflexivity].
      intros j id' _. reflexivity.
    + destruct (Hbefore 0%nat (js "warehouse") ltac:(lia) eq_refl)
        as [v1 H1].
      rewrite H1. cbn [values]. rewrite lookup_insert_ne, Hnone by discriminate.
      eexists. split; [reflexivity |]. cbn [values console alerts row_checkboxes].
      do 3 (split; [reflexivity |]). split.
      * intros [| [| [| j]]] id' Hj; [| | | discriminate Hj];
          injection Hj as <-; cbn [Nat.ltb Nat.leb].
        -- apply lookup_insert_eq.
        -- by rewrite lookup_insert_ne by discriminate.
        -- by rewrite lookup_insert_ne by discriminate.
      * intros id' Hid'. apply (Hother (values p) id' Hid').
    + destruct (Hbefore 0%nat (js "warehouse") ltac:(lia) eq_refl)
        as [v1 H1].
      destruct (Hbefore 1%nat (js "inventory-status") ltac:(lia) eq_refl)
        as [v2 H2].
      rewrite H1. cbn [values]. rewrite lookup_insert_ne, H2 by discriminate.
      cbn [values]. rewrite !lookup_insert_ne, Hnone by discriminate.
      eexists. split; [reflexivity |]. cbn [values console alerts row_checkboxes].
      do 3 (split; [reflexivity |]). split.
      * intros [| [| [| j]]] id' Hj; [| | | discriminate Hj];
          injection Hj as <-; cbn [Nat.ltb Nat.leb].
        -- by rewrite lookup_insert_ne, lookup_insert_eq by discriminate.
        -- apply lookup_insert_eq.
        -- by rewrite !lookup_insert_ne by discriminate.
      * intros id' Hid'. apply (Hother (values p) id' Hid').
Qed.

(** On the sample page both handlers run to their end: the filters are
    logged and reported, and the reset empties them. *)
Example inventory_page_filters :
  (exists p, applyInventoryFilters inventory_page = Done p
             /\ console p = [js "Filtering: WH-01, low, snacks"]
             /\ alerts p = [js "Filters applied successfully!"])
  /\ (exists p, resetFilters inventory_page = Done p
                /\ values p !! js "warehouse" = Some [])
  /\ alerts (openBulkUpdate inventory_page)
     = [js "Opening bulk update for 1 items"].
Proof.
  split; [| split].
  - eexists. split; [vm_compute; reflexivity |]. split; reflexivity.
  - eexists. split; [vm_compute; reflexivity |]. reflexivity.
  - reflexivity.
Qed.

End InventoryPage.

(** ** The query string of [getAll] *)

Section QueryString.
Import ApiService.

Lemma HEX_encoded (n : N) : n < 16 -> encoded_unit (HEX n) = true.
Proof.
  intros Hn. unfold encoded_unit, unreserved, HEX.
  destruct (N.ltb_spec n 10);
    rewrite ?orb_true_iff, ?andb_true_iff, ?N.leb_le, ?N.eqb_eq; lia.
Qed.

Lemma encode_byte_encoded (b : N) :
  b < 256 -> forallb encoded_unit (encode_byte b) = true.
Proof.
  intros Hb. unfold encode_byte.
  destruct (unreserved b) eqn:E.
  - cbn [forallb]. unfold encoded_unit. by rewrite E.
  - destruct (b =? 32); [reflexivity |].
    cbn [forallb]. rewrite !HEX_encoded; [reflexivity | |].
    + apply N.mod_lt. discriminate.
    + apply N.Div0.div_lt_upper_bound. lia.
Qed.

Lemma code_points_scalar (s : jstr) :
  utf16 s -> Forall (fun cp => cp < 1114112) (code_points s).
Proof.
  unfold utf16. intros Hs.
  assert (Hgen : forall n s, (length s <= n)%nat ->
            Forall (fun c => c < 65536) s ->
            Forall (fun cp => cp < 1114112) (code_points s)).
  { clear s Hs. induction n as [| n IH]; intros s Hlen Hs.
    - destruct s; [constructor | cbn in Hlen; lia].
    - destruct s as [| c s]; [constructor |].
      apply Forall_cons in Hs as [Hc Hs]. cbn [length] in Hlen.
      cbn [code_points].
      destruct (JSON.is_high_surrogate c) eqn:Eh.
      + destruct s as [| d s]; [repeat constructor |].
        apply Forall_cons in Hs as [Hd Hs']. cbn [length] in Hlen.
        destruct (JSON.is_low_surrogate d) eqn:El.
        * constructor; [| apply IH; [lia | exact Hs']].
          unfold JSON.is_high_surrogate, JSON.is_low_surrogate in *.
          rewrite andb_true_iff, !N.leb_le in Eh, El. lia.
        * constructor; [lia |]. apply IH; [cbn [length]; lia |].
          by constructor.
      + destruct (JSON.is_low_surrogate c);
          (constructor; [lia | apply IH; [lia | exact Hs]]). }
  eapply Hgen; [reflexivity | exact Hs].
Qed.

Lemma utf8_bytes (cp : N) :
  cp < 1114112 -> Forall (fun b => b < 256) (utf8 cp).
Proof.
  intros Hcp. unfold utf8.
  assert (H64 : forall x, x mod 64 < 64) by (intros; by apply N.mod_lt).
  repeat match goal with
         | |- context [?a <? ?b] => destruct (N.ltb_spec a b)
         end; repeat constructor;
    try (specialize (H64 cp); lia);
    try (specialize (H64 (cp / 64)); lia);
    try (specialize (H64 (cp / 4096)); lia).
  - assert (cp / 64 < 32) by (apply N.Div0.div_lt_upper_bound; lia). lia.
  - assert (cp / 4096 < 16) by (apply N.Div0.div_lt_upper_bound; lia). lia.
  - assert (cp / 262144 < 5) by (apply N.Div0.div_lt_upper_bound; lia). lia.
Qed.

Lemma forallb_concat {A} (f : A -> bool) (ls : list (list A)) :
  Forall (fun l => forallb f l = true) ls -> forallb f (concat ls) = true.
Proof.
  induction 1 as [| l ls Hl _ IH]; [reflexivity |].
  cbn [concat]. by rewrite forallb_app, Hl, IH.
Qed.

Lemma urlencode_encoded (s : jstr) :
  utf16 s -> forallb encoded_unit (urlencode s) = true.
Proof.
  intros Hs. unfold urlencode. apply forallb_concat, Forall_map.
  assert (Hb : Forall (fun b => b < 256) (concat (map utf8 (code_points s)))).
  { apply Forall_concat, Forall_map.
    eapply Forall_impl; [apply code_points_scalar, Hs |].
    intros cp Hcp. apply utf8_bytes, Hcp. }
  eapply Forall_impl; [exact Hb |]. intros b. apply encode_byte_encoded.
Qed.

Lemma occurrences_app (c : N) (s t : jstr) :
  occurrences c (s ++ t) = (occurrences c s + occurrences c t)%nat.
Proof.
  induction s as [| d s IH]; [reflexivity |].
  cbn [app occurrences]. rewrite IH. lia.
Qed.

Lemma encoded_no_occurrence (c : N) (s : jstr) :
  encoded_unit c = false ->
  forallb encoded_unit s = true -> occurrences c s = 0%nat.
Proof.
  intros Hc.
  induction s as [| d s IH]; [reflexivity |]. cbn [forallb occurrences].
  intros H. apply andb_true_iff in H as [Hd Hs]. rewrite (IH Hs).
  destruct (N.eqb_spec d c) as [-> | _]; [congruence | reflexivity].
Qed.

Ltac zero_occurrences :=
  repeat match goal with
         | |- context [occurrences ?c ?s] =>
             is_var s;
             rewrite (encoded_no_occurrence c s)
               by (reflexivity || assumption)
         end.

(** X27. The URL of [getAll] is [/api/test-cases] when neither filter is
    given (missing or empty).  Otherwise it is [/api/test-cases?]
    followed by a query that consists of unreserved characters, [%], [+],
    [=] and [&] only, with exactly one [=] for every filter given and
    one [&] between two: whatever the status and the search text hold,
    they cannot add a parameter, end the query or start a fragment. *)
Theorem getAll_query_is_encoded (filters : Filters) :
  utf16_filters filters ->
  (given filters = 0%nat -> getAll_url filters = js "/api/test-cases")
  /\ ((0 < given filters)%nat ->
      exists query,
        getAll_url filters = js "/api/test-cases?" ++ query
        /\ forallb (fun c => encoded_unit c || (c =? 61) || (c =? 38)) query
           = true
        /\ occurrences 61 query = given filters
        /\ occurrences 38 query = (given filters - 1)%nat).
Proof.
  intros [Hst Hse]. unfold getAll_url, params, given.
  assert (Hname1 : urlencode (js "status_filter") = js "status_filter")
    by reflexivity.
  assert (Hname2 : urlencode (js "search") = js "search") by reflexivity.
  pose proof (urlencode_encoded _ Hst) as E1.
  pose proof (urlencode_encoded _ Hse) as E2.
  set (v1 := urlencode (default [] (status filters))) in *.
  set (v2 := urlencode (default [] (search filters))) in *.
  assert (Hweak : forall s, forallb encoded_unit s = true ->
            forallb (fun c => encoded_unit c || (c =? 61) || (c =? 38)) s
            = true).
  { intros s. induction s as [| c s IH]; [reflexivity |]. cbn [forallb].
    intros H. apply andb_true_iff in H as [-> H]. by rewrite IH. }
  assert (N1 : forallb encoded_unit (js "status_filter") = true)
    by reflexivity.
  assert (N2 : forallb encoded_unit (js "search") = true) by reflexivity.
  set (n1 := js "status_filter") in *. set (n2 := js "search") in *.
  destruct (str_truthy (status filters)), (str_truthy (search filters));
    cbn [app]; unfold URLSearchParams_toString;
    cbn [map join_with concat fst snd];
    fold v1; fold v2; rewrite ?Hname1, ?Hname2, ?app_nil_r.
  - replace (jstr_eqb _ []) with false
      by (symmetry; apply jstr_eqb_false; by destruct n1).
    split; [discriminate |]. intros _. eexists. split; [reflexivity |].
    rewrite !forallb_app, !occurrences_app.
    rewrite (Hweak v1 E1), (Hweak v2 E2), (Hweak n1 N1), (Hweak n2 N2).
    zero_occurrences. by repeat split.
  - replace (jstr_eqb _ []) with false
      by (symmetry; apply jstr_eqb_false; by destruct n1).
    split; [discriminate |]. intros _. eexists. split; [reflexivity |].
    rewrite !forallb_app, !occurrences_app.
    rewrite (Hweak v1 E1), (Hweak n1 N1).
    zero_occurrences. by repeat split.
  - replace (jstr_eqb _ []) with false
      by (symmetry; apply jstr_eqb_false; by destruct n2).
    split; [discriminate |]. intros _. eexists. split; [reflexivity |].
    rewrite !forallb_app, !occurrences_app.
    rewrite (Hweak v2 E2), (Hweak n2 N2).
    zero_occurrences. by repeat split.
  - split; [reflexivity | lia].
Qed.

Lemma getAll_query_is_encoded_witness :
  getAll_url sly_filters
  = js "/api/test-cases?status_filter=approved&search=bom+%26+forecast%3D1%23top"
  /\ exists query,
       getAll_url sly_filters = js "/api/test-cases?" ++ query
       /\ forallb (fun c => encoded_unit c || (c =? 61) || (c =? 38)) query
          = true
       /\ occurrences 61 query = given sly_filters
       /\ occurrences 38 query = (given sly_filters - 1)%nat.
Proof.
  split; [vm_compute; reflexivity |].
  apply (getAll_query_is_encoded sly_filters).
  - split; apply Forall_forall; intros c Hc;
      repeat (apply elem_of_cons in Hc as [-> | Hc]; [reflexivity |]);
      by apply elem_of_nil in Hc.
  - vm_compute. repeat constructor.
Defined.

End QueryString.
